(** * A shallow embedding of the p2p messaging core

    The development follows the two source files that carry the logic:
    - [protocol.py]: the wire codec (Barker, byte stuffing, CRC, the five
      packet types), embedded in [Module Protocol];
    - [p2p/abstract_p2p_client.py]: the peer engine (listener, dispatch,
      deduplication, ACKs, retransmission, file transfer), embedded in
      [Module Client].

    Conventions.
    - A Python [bytes]/[bytearray] value is a [list byte]; a Python [int] is
      a [Z]; a Python [str] is the list of its code points.
    - A Python exception is a constructor of [exn]; code that may raise
      returns an [outcome].
    - [struct] format ['L'] is taken with the 4-byte little-endian layout:
      the code unpacks 4-byte slices with it, which is only accepted on a
      platform where the native unsigned long has 4 bytes.
    - [zlib.crc32] is the CRC-32 of ISO 3309 (reflected polynomial
      [0xEDB88320], initial value and final xor [0xFFFFFFFF]) in its
      bit-at-a-time form. *)

From Stdlib Require Import ZArith List Lia Bool.
From Stdlib.Strings Require Import Byte.
From stdpp Require Import gmap strings.
Import ListNotations.
Open Scope Z_scope.

(** ** Python values and exceptions *)

Abbreviation bytes := (list byte) (only parsing).

(** A Python [str]: its code points. *)
Abbreviation str := (list Z) (only parsing).

Inductive exn : Type :=
| ValueError
| KeyError
| IndexError
| TypeError
| OSError              (* FileNotFoundError *)
| StructError          (* struct.error *)
| UnicodeError.        (* UnicodeEncodeError / UnicodeDecodeError *)

Definition exn_eqb (e1 e2 : exn) : bool :=
  match e1, e2 with
  | ValueError, ValueError | KeyError, KeyError | IndexError, IndexError
  | TypeError, TypeError | OSError, OSError | StructError, StructError
  | UnicodeError, UnicodeError => true
  | _, _ => false
  end.

Inductive outcome (A : Type) : Type :=
| Done (a : A)
| Raised (e : exn).
Arguments Done {A} a.
Arguments Raised {A} e.

Definition obind {A B} (m : outcome A) (f : A -> outcome B) : outcome B :=
  match m with
  | Done a => f a
  | Raised e => Raised e
  end.

Notation "'do' x <- m ; k" := (obind m (fun x => k))
  (at level 10, x pattern, m at level 100, k at level 200,
   format "'[v' 'do'  x  <-  m ; '/' k ']'").

(** ** Byte strings *)

Module Bytes.

Definition to_Z (b : byte) : Z := Z.of_N (Byte.to_N b).

Definition of_Z (z : Z) : byte :=
  match Byte.of_N (Z.to_N (z mod 256)) with
  | Some b => b
  | None => x00
  end.

(** [data.startswith(prefix)] *)
Fixpoint startswith (prefix data : bytes) : bool :=
  match prefix, data with
  | [], _ => true
  | _ :: _, [] => false
  | p :: prefix', d :: data' => Byte.eqb p d && startswith prefix' data'
  end.

(** Normalisation of a slice bound against a sequence of length [n]:
    negative bounds count from the end, and every bound is clamped. *)
Definition bound (n k : Z) : Z :=
  if k <? 0 then Z.max (k + n) 0 else Z.min k n.

(** [data[i:]] *)
Definition slice_from (data : bytes) (i : Z) : bytes :=
  drop (Z.to_nat (bound (Z.of_nat (length data)) i)) data.

(** [data[i:j]] *)
Definition slice (data : bytes) (i j : Z) : bytes :=
  let n := Z.of_nat (length data) in
  take (Z.to_nat (bound n j - bound n i)) (drop (Z.to_nat (bound n i)) data).

(** [data[i]] for a non-negative [i]: the integer value of the byte. *)
Definition index (data : bytes) (i : Z) : outcome Z :=
  match data !! Z.to_nat i with
  | Some b => Done (to_Z b)
  | None => Raised IndexError
  end.

(** [data.find(sub, start)] for [start >= 0]; [None] stands for [-1]. *)
Fixpoint find_at (sub data : bytes) (i : Z) : option Z :=
  if startswith sub data then Some i
  else match data with
       | [] => None
       | _ :: data' => find_at sub data' (i + 1)
       end.

Definition find (sub data : bytes) (start : Z) : option Z :=
  if start <=? Z.of_nat (length data)
  then find_at sub (drop (Z.to_nat start) data) start
  else None.

(** [data.replace(old, new)] for a non-empty [old]: the occurrences of
    [old] are replaced from left to right, without overlap. The fuel
    counts the bytes left. *)
Fixpoint replace_loop (fuel : nat) (old new data : bytes) : bytes :=
  match fuel with
  | O => data
  | S fuel' =>
      match data with
      | [] => []
      | d :: data' =>
          if startswith old data
          then new ++ replace_loop fuel' old new (drop (length old) data)
          else d :: replace_loop fuel' old new data'
      end
  end.

(** With an empty [old], Python puts [new] before every byte and at the
    end. *)
Definition replace (old new data : bytes) : bytes :=
  match old with
  | [] => new ++ flat_map (fun d => d :: new) data
  | _ :: _ => replace_loop (length data) old new data
  end.

End Bytes.

(** ** [struct.pack('L', x)] and [struct.unpack('L', b)] *)

Module Struct.

Definition pack_L (x : Z) : outcome bytes :=
  if (0 <=? x) && (x <? 2 ^ 32)
  then Done [Bytes.of_Z x; Bytes.of_Z (x / 2 ^ 8);
             Bytes.of_Z (x / 2 ^ 16); Bytes.of_Z (x / 2 ^ 24)]
  else Raised StructError.

Definition unpack_L (b : bytes) : outcome Z :=
  match b with
  | [b0; b1; b2; b3] =>
      Done (Bytes.to_Z b0 + 2 ^ 8 * Bytes.to_Z b1
            + 2 ^ 16 * Bytes.to_Z b2 + 2 ^ 24 * Bytes.to_Z b3)
  | _ => Raised StructError
  end.

End Struct.

(** ** [zlib.crc32] *)

Module Zlib.

Definition POLY : Z := 0xEDB88320.

(** One bit of the reflected CRC register. *)
Definition crc_shift (c : Z) : Z :=
  if Z.odd c then Z.lxor (Z.shiftr c 1) POLY else Z.shiftr c 1.

(** One byte: xor it into the low bits, then shift eight times. *)
Definition crc_update (c : Z) (b : byte) : Z :=
  Nat.iter 8 crc_shift (Z.lxor c (Bytes.to_Z b)).

Definition crc32 (data : bytes) : Z :=
  Z.lxor (fold_left crc_update data 0xFFFFFFFF) 0xFFFFFFFF.

End Zlib.

(** ** UTF-8, for [bytearray(s, 'utf8')] and [b.decode('utf8')] *)

Module Utf8.

Definition cont (z : Z) : byte := Bytes.of_Z (128 + z mod 64).

Definition encode_char (c : Z) : outcome bytes :=
  if (c <? 0) || (0x10FFFF <? c) then Raised UnicodeError
  else if c <? 0x80 then Done [Bytes.of_Z c]
  else if c <? 0x800 then Done [Bytes.of_Z (192 + c / 64); cont c]
  else if (0xD800 <=? c) && (c <=? 0xDFFF) then Raised UnicodeError
  else if c <? 0x10000
       then Done [Bytes.of_Z (224 + c / 4096); cont (c / 64); cont c]
  else Done [Bytes.of_Z (240 + c / 262144); cont (c / 4096);
             cont (c / 64); cont c].

Fixpoint encode (s : str) : outcome bytes :=
  match s with
  | [] => Done []
  | c :: s' =>
      do b <- encode_char c;
      do bs <- encode s';
      Done (b ++ bs)
  end.

Definition is_cont (z : Z) : bool := (0x80 <=? z) && (z <=? 0xBF).

(** The fuel counts the bytes left; every character uses at least one. *)
Fixpoint decode_loop (fuel : nat) (data : bytes) : outcome str :=
  match fuel with
  | O => Done []
  | S fuel' =>
      match map Bytes.to_Z data with
      | [] => Done []
      | b0 :: rest =>
          if b0 <? 0x80 then
            do s <- decode_loop fuel' (drop 1 data);
            Done (b0 :: s)
          else if (0xC2 <=? b0) && (b0 <=? 0xDF) then
            match rest with
            | b1 :: _ =>
                if is_cont b1 then
                  do s <- decode_loop fuel' (drop 2 data);
                  Done ((b0 - 192) * 64 + (b1 - 128) :: s)
                else Raised UnicodeError
            | _ => Raised UnicodeError
            end
          else if (0xE0 <=? b0) && (b0 <=? 0xEF) then
            match rest with
            | b1 :: b2 :: _ =>
                let c := (b0 - 224) * 4096 + (b1 - 128) * 64 + (b2 - 128) in
                if is_cont b1 && is_cont b2 && (0x800 <=? c)
                   && negb ((0xD800 <=? c) && (c <=? 0xDFFF)) then
                  do s <- decode_loop fuel' (drop 3 data);
                  Done (c :: s)
                else Raised UnicodeError
            | _ => Raised UnicodeError
            end
          else if (0xF0 <=? b0) && (b0 <=? 0xF4) then
            match rest with
            | b1 :: b2 :: b3 :: _ =>
                let c := (b0 - 240) * 262144 + (b1 - 128) * 4096
                         + (b2 - 128) * 64 + (b3 - 128) in
                if is_cont b1 && is_cont b2 && is_cont b3
                   && (0x10000 <=? c) && (c <=? 0x10FFFF) then
                  do s <- decode_loop fuel' (drop 4 data);
                  Done (c :: s)
                else Raised UnicodeError
            | _ => Raised UnicodeError
            end
          else Raised UnicodeError
      end
  end.

Definition decode (data : bytes) : outcome str :=
  decode_loop (length data) data.

End Utf8.

(** ** [protocol.py] *)

(** What a [wrap_*] function is given as [data]: a [str] or bytes. *)
Inductive pydata : Type :=
| PyStr (s : str)
| PyBytes (b : bytes).

(** The 5-tuple that [unwrap] returns:
    [(message, message_id, stream_id, acked_message_id, redundant_bytes)];
    [None] is Python's [None]. *)
Abbreviation unwrapped :=
  (option bytes * option Z * option Z * option Z * bytes)%type (only parsing).

Module Protocol.

Definition BARKER : bytes := ["B"; "A"; "D"; "F"; "D"; "A"; "D"; "F"]%byte.
Definition BEFORE_STUFF : bytes := ["B"; "A"; "D"; "F"; "D"; "A"; "D"]%byte.
Definition AFTER_STUFF : bytes :=
  ["B"; "A"; "D"; "F"; "D"; "A"; "D"; "Z"]%byte.

Definition BARKER_LENGTH : Z := Z.of_nat (length BARKER).

Definition str_to_bytes (data : str) : outcome bytes := Utf8.encode data.

Definition _stuff_data (data : bytes) : bytes :=
  Bytes.replace BEFORE_STUFF AFTER_STUFF data.

Definition _unstuff_data (data : bytes) : bytes :=
  Bytes.replace AFTER_STUFF BEFORE_STUFF data.

Definition _extract_message (data : bytes) (current_index : Z)
  : outcome (bytes * bytes) :=
  do data_size <-
    Struct.unpack_L (Bytes.slice data current_index (current_index + 4));
  let current_index := current_index + 4 in
  let stuffed_data :=
    Bytes.slice data current_index (current_index + data_size) in
  let current_index := current_index + data_size in
  do crc <-
    Struct.unpack_L (Bytes.slice data current_index (current_index + 4));
  let current_index := current_index + 4 in
  let redundant_bytes := Bytes.slice_from data current_index in
  if negb (crc =? Zlib.crc32 stuffed_data)
  then Raised ValueError
  else Done (_unstuff_data stuffed_data, redundant_bytes).

(** [if type(data) is str: data = Protocol.str_to_bytes(data)] *)
Definition as_bytes (data : pydata) : outcome bytes :=
  match data with
  | PyStr s => str_to_bytes s
  | PyBytes b => Done b
  end.

(** [chr(n).encode('utf8')] for the packet types [0..4]: one byte. *)
Definition packet_type_byte (n : Z) : bytes := [Bytes.of_Z n].

Definition wrap_reliable (data : pydata) (message_id : Z) : outcome bytes :=
  do data <- as_bytes data;
  let packet_type := packet_type_byte 0 in
  do message_id <- Struct.pack_L message_id;
  let stuffed_data := _stuff_data data in
  do data_size <- Struct.pack_L (Z.of_nat (length stuffed_data));
  do crc <- Struct.pack_L (Zlib.crc32 stuffed_data);
  Done (BARKER ++ packet_type ++ message_id ++ data_size
          ++ stuffed_data ++ crc).

Definition _unwrap_reliable (data : bytes) : outcome unwrapped :=
  let current_index := BARKER_LENGTH + 1 in
  do message_id <-
    Struct.unpack_L (Bytes.slice data current_index (current_index + 4));
  let current_index := current_index + 4 in
  do (message, redundant_bytes) <- _extract_message data current_index;
  Done (Some message, Some message_id, None, None, redundant_bytes).

Definition wrap_unreliable (data : pydata) : outcome bytes :=
  do data <- as_bytes data;
  let packet_type := packet_type_byte 1 in
  let stuffed_data := _stuff_data data in
  do data_size <- Struct.pack_L (Z.of_nat (length stuffed_data));
  do crc <- Struct.pack_L (Zlib.crc32 stuffed_data);
  Done (BARKER ++ packet_type ++ data_size ++ stuffed_data ++ crc).

Definition _unwrap_unreliable (data : bytes) : outcome unwrapped :=
  do (message, redundant_bytes) <-
    _extract_message data (BARKER_LENGTH + 1);
  Done (Some message, None, None, None, redundant_bytes).

Definition wrap_reliable_stream (data : pydata) (message_id stream_id : Z)
  : outcome bytes :=
  do data <- as_bytes data;
  let packet_type := packet_type_byte 2 in
  do message_id <- Struct.pack_L message_id;
  do stream_id <- Struct.pack_L stream_id;
  let stuffed_data := _stuff_data data in
  do data_size <- Struct.pack_L (Z.of_nat (length stuffed_data));
  do crc <- Struct.pack_L (Zlib.crc32 stuffed_data);
  Done (BARKER ++ packet_type ++ message_id ++ stream_id ++ data_size
          ++ stuffed_data ++ crc).

Definition _unwrap_reliable_stream (data : bytes) : outcome unwrapped :=
  let current_index := BARKER_LENGTH + 1 in
  do message_id <-
    Struct.unpack_L (Bytes.slice data current_index (current_index + 4));
  let current_index := current_index + 4 in
  do stream_id <-
    Struct.unpack_L (Bytes.slice data current_index (current_index + 4));
  let current_index := current_index + 4 in
  do (message, redundant_bytes) <- _extract_message data current_index;
  Done (Some message, Some message_id, Some stream_id, None,
        redundant_bytes).

Definition wrap_unreliable_stream (data : pydata) (stream_id : Z)
  : outcome bytes :=
  do data <- as_bytes data;
  let packet_type := packet_type_byte 3 in
  do stream_id <- Struct.pack_L stream_id;
  let stuffed_data := _stuff_data data in
  do data_size <- Struct.pack_L (Z.of_nat (length stuffed_data));
  do crc <- Struct.pack_L (Zlib.crc32 stuffed_data);
  Done (BARKER ++ packet_type ++ stream_id ++ data_size
          ++ stuffed_data ++ crc).

Definition _unwrap_unreliable_stream (data : bytes) : outcome unwrapped :=
  let current_index := BARKER_LENGTH + 1 in
  do stream_id <-
    Struct.unpack_L (Bytes.slice data current_index (current_index + 4));
  let current_index := current_index + 4 in
  do (message, redundant_bytes) <- _extract_message data current_index;
  Done (Some message, None, Some stream_id, None, redundant_bytes).

Definition wrap_ack (acked_message_id : Z) : outcome bytes :=
  let packet_type := packet_type_byte 4 in
  do acked_message_id <- Struct.pack_L acked_message_id;
  Done (BARKER ++ packet_type ++ acked_message_id).

Definition _unwrap_ack (data : bytes) : outcome unwrapped :=
  let current_index := BARKER_LENGTH + 1 in
  do acked_message_id <-
    Struct.unpack_L (Bytes.slice data current_index (current_index + 4));
  let current_index := current_index + 4 in
  let redundant_bytes := Bytes.slice_from data current_index in
  Done (None, None, None, Some acked_message_id, redundant_bytes).

(** The dictionary [PACKET_TYPE_TO_UNWRAPPER]; a missing key is a
    [KeyError]. *)
Definition PACKET_TYPE_TO_UNWRAPPER (packet_type : Z)
  : outcome (bytes -> outcome unwrapped) :=
  match packet_type with
  | 0 => Done _unwrap_reliable
  | 1 => Done _unwrap_unreliable
  | 2 => Done _unwrap_reliable_stream
  | 3 => Done _unwrap_unreliable_stream
  | 4 => Done _unwrap_ack
  | _ => Raised KeyError
  end.

(** The body of the [try] block of [unwrap]. *)
Definition unwrap_body (data : bytes) : outcome unwrapped :=
  if negb (Bytes.startswith BARKER data) then Raised ValueError
  else
    do packet_type <- Bytes.index data BARKER_LENGTH;
    do unwrapper <- PACKET_TYPE_TO_UNWRAPPER packet_type;
    unwrapper data.

(** [except Exception as ex: raise ValueError(...)] *)
Definition unwrap (data : bytes) : outcome unwrapped :=
  match unwrap_body data with
  | Done t => Done t
  | Raised _ => Raised ValueError
  end.

End Protocol.

(** ** [abstract_peer.py] *)

(** The transport that the embedder supplies. [P] is the state of the peer
    object; both methods may change it. *)
Class AbstractPeer (P : Type) : Type := {
  send : bytes -> P -> P;
  receive : Z -> P -> bytes * P;
}.

(** ** [p2p/abstract_p2p_client.py] *)

(** What the client writes with [print]. *)
Inductive printed : Type :=
| Got_ACK_on_invalid_message_id (acked_message_id : Z)
| Error_Invalid_unicode_value_for_is_last_chunk (is_last_chunk : Z)
| Bad_data (data : bytes)
| Redundant_bytes (redundant_bytes : bytes)
| Bad_packet (packet : bytes).

(** What a client does that its embedder observes: the five abstract
    methods (upcalls), in the order of their calls, and the prints. *)
Inductive event : Type :=
| on_reliable_message (message : option bytes)
| on_unreliable_message (message : option bytes)
| on_reliable_stream_message (message : option bytes) (stream_id : Z)
| on_unreliable_stream_message (message : option bytes) (stream_id : Z)
| on_file (filename : str) (file_data : bytes)
| print (what : printed).

(** The threads a client starts: [Thread(target=..., args=...).start()].
    [no_target] is [Thread(target=None)], which runs nothing. *)
Inductive thread : Type :=
| _listen_thread
| _handle_file_send_thread (file_path : str)
| _handle_file_chunks_thread (stream_id number_of_chunks : Z)
| no_target.

(** The three sleeps of the code. *)
Inductive duration : Type :=
| ACK_ARRIVAL_TIME                    (* 0.5 *)
| WAIT_BEFORE_FILE_STREAM_RELEASE     (* 4 *)
| POLL.                               (* 0.1 *)

(** The attributes of an [AbstractP2PClient], with what the embedding adds:
    the threads started so far, the events so far, and the local variable
    [data] of the listener thread. *)
Record client (P : Type) : Type := {
  _peer : P;
  _next_message_id : Z;
  _message_id_to_was_acked : gmap Z bool;
  _messages_ids_that_have_been_received : gmap Z bool;
  _file_stream_id_to_chunks : gmap Z (gmap Z bytes);
  _file_stream_id_to_is_available : gmap Z bool;
  _file_streams_lock : bool;          (* [true]: held *)
  threads : list thread;
  events : list event;
  listener_data : bytes;
}.
Arguments _peer {P} c.
Arguments _next_message_id {P} c.
Arguments _message_id_to_was_acked {P} c.
Arguments _messages_ids_that_have_been_received {P} c.
Arguments _file_stream_id_to_chunks {P} c.
Arguments _file_stream_id_to_is_available {P} c.
Arguments _file_streams_lock {P} c.
Arguments threads {P} c.
Arguments events {P} c.
Arguments listener_data {P} c.

(** How a call on a client ends: it returns, it raises, or it is still
    running when the fuel of the embedding is used up. The state of the
    client is kept in all three. *)
Inductive result (P A : Type) : Type :=
| Returned (a : A) (c : client P)
| Raises (e : exn) (c : client P)
| Running (c : client P).
Arguments Returned {P A} a c.
Arguments Raises {P A} e c.
Arguments Running {P A} c.

Definition M (P A : Type) : Type := client P -> result P A.

Definition ret {P A} (a : A) : M P A := fun c => Returned a c.

Definition bind {P A B} (m : M P A) (f : A -> M P B) : M P B :=
  fun c =>
    match m c with
    | Returned a c' => f a c'
    | Raises e c' => Raises e c'
    | Running c' => Running c'
    end.

Notation "'doM' x <- m ; k" := (bind m (fun x => k))
  (at level 10, x pattern, m at level 100, k at level 200,
   format "'[v' 'doM'  x  <-  m ; '/' k ']'").

(** A pure computation that may raise, run inside a method. *)
Definition lift {P A} (o : outcome A) : M P A :=
  fun c =>
    match o with
    | Done a => Returned a c
    | Raised e => Raises e c
    end.

Definition get {P} : M P (client P) := fun c => Returned c c.

Definition modify {P} (f : client P -> client P) : M P unit :=
  fun c => Returned tt (f c).

(** [for x in xs: body(x)] *)
Fixpoint for_each {P A} (xs : list A) (body : A -> M P unit) : M P unit :=
  match xs with
  | [] => ret tt
  | x :: xs' => doM _ <- body x; for_each xs' body
  end.

Definition diverge {P A} : M P A := fun c => Running c.

(** [try: body except e0: handler] *)
Definition try_except {P A} (body : M P A) (e0 : exn) (handler : M P A)
  : M P A :=
  fun c =>
    match body c with
    | Raises e c' => if exn_eqb e e0 then handler c' else Raises e c'
    | r => r
    end.

(** [try: body finally: return]: the [return] of the [finally] clause
    discards an exception that is on its way out. *)
Definition finally_return {P} (body : M P unit) : M P unit :=
  fun c =>
    match body c with
    | Raises _ c' => Returned tt c'
    | r => r
    end.

(** Python's truth value of an optional integer: [None] and [0] are false.
    [truthy x] is the integer when [x] is true. *)
Definition truthy (x : option Z) : option Z :=
  match x with
  | None => None
  | Some n => if n =? 0 then None else Some n
  end.

(** [os.path.basename] and the files that [os.path.exists], [open] and
    [read] see: [files path] is the content of the file at [path]. *)
Module Os.

Definition SEP : Z := 47.   (* '/' *)

Fixpoint basename (p : str) : str :=
  match p with
  | [] => []
  | c :: p' =>
      if existsb (Z.eqb SEP) p' then basename p'
      else if c =? SEP then p' else p
  end.

(** [f.read(n)] on the unread rest of a file: the bytes read and the new
    rest. A negative [n] reads everything. *)
Definition read (n : Z) (rest : bytes) : bytes * bytes :=
  if n <? 0 then (rest, []) else (take (Z.to_nat n) rest, drop (Z.to_nat n) rest).

End Os.

Module Client.

Definition FILE_TRANSFER_STREAMS : list Z := [7771; 7772; 7773; 7774].

Section Fields.
Context {P : Type}.

Definition set__peer (p : P) (c : client P) : client P :=
  {| _peer := p;
     _next_message_id := _next_message_id c;
     _message_id_to_was_acked := _message_id_to_was_acked c;
     _messages_ids_that_have_been_received :=
       _messages_ids_that_have_been_received c;
     _file_stream_id_to_chunks := _file_stream_id_to_chunks c;
     _file_stream_id_to_is_available := _file_stream_id_to_is_available c;
     _file_streams_lock := _file_streams_lock c;
     threads := threads c;
     events := events c;
     listener_data := listener_data c |}.

Definition set__next_message_id (n : Z) (c : client P) : client P :=
  {| _peer := _peer c;
     _next_message_id := n;
     _message_id_to_was_acked := _message_id_to_was_acked c;
     _messages_ids_that_have_been_received :=
       _messages_ids_that_have_been_received c;
     _file_stream_id_to_chunks := _file_stream_id_to_chunks c;
     _file_stream_id_to_is_available := _file_stream_id_to_is_available c;
     _file_streams_lock := _file_streams_lock c;
     threads := threads c;
     events := events c;
     listener_data := listener_data c |}.

Definition set__message_id_to_was_acked (m : gmap Z bool) (c : client P)
  : client P :=
  {| _peer := _peer c;
     _next_message_id := _next_message_id c;
     _message_id_to_was_acked := m;
     _messages_ids_that_have_been_received :=
       _messages_ids_that_have_been_received c;
     _file_stream_id_to_chunks := _file_stream_id_to_chunks c;
     _file_stream_id_to_is_available := _file_stream_id_to_is_available c;
     _file_streams_lock := _file_streams_lock c;
     threads := threads c;
     events := events c;
     listener_data := listener_data c |}.

Definition set__messages_ids_that_have_been_received (m : gmap Z bool)
  (c : client P) : client P :=
  {| _peer := _peer c;
     _next_message_id := _next_message_id c;
     _message_id_to_was_acked := _message_id_to_was_acked c;
     _messages_ids_that_have_been_received := m;
     _file_stream_id_to_chunks := _file_stream_id_to_chunks c;
     _file_stream_id_to_is_available := _file_stream_id_to_is_available c;
     _file_streams_lock := _file_streams_lock c;
     threads := threads c;
     events := events c;
     listener_data := listener_data c |}.

Definition set__file_stream_id_to_chunks (m : gmap Z (gmap Z bytes))
  (c : client P) : client P :=
  {| _peer := _peer c;
     _next_message_id := _next_message_id c;
     _message_id_to_was_acked := _message_id_to_was_acked c;
     _messages_ids_that_have_been_received :=
       _messages_ids_that_have_been_received c;
     _file_stream_id_to_chunks := m;
     _file_stream_id_to_is_available := _file_stream_id_to_is_available c;
     _file_streams_lock := _file_streams_lock c;
     threads := threads c;
     events := events c;
     listener_data := listener_data c |}.

Definition set__file_stream_id_to_is_available (m : gmap Z bool)
  (c : client P) : client P :=
  {| _peer := _peer c;
     _next_message_id := _next_message_id c;
     _message_id_to_was_acked := _message_id_to_was_acked c;
     _messages_ids_that_have_been_received :=
       _messages_ids_that_have_been_received c;
     _file_stream_id_to_chunks := _file_stream_id_to_chunks c;
     _file_stream_id_to_is_available := m;
     _file_streams_lock := _file_streams_lock c;
     threads := threads c;
     events := events c;
     listener_data := listener_data c |}.

Definition set__file_streams_lock (held : bool) (c : client P)
  : client P :=
  {| _peer := _peer c;
     _next_message_id := _next_message_id c;
     _message_id_to_was_acked := _message_id_to_was_acked c;
     _messages_ids_that_have_been_received :=
       _messages_ids_that_have_been_received c;
     _file_stream_id_to_chunks := _file_stream_id_to_chunks c;
     _file_stream_id_to_is_available := _file_stream_id_to_is_available c;
     _file_streams_lock := held;
     threads := threads c;
     events := events c;
     listener_data := listener_data c |}.

Definition set_threads (t : list thread) (c : client P) : client P :=
  {| _peer := _peer c;
     _next_message_id := _next_message_id c;
     _message_id_to_was_acked := _message_id_to_was_acked c;
     _messages_ids_that_have_been_received :=
       _messages_ids_that_have_been_received c;
     _file_stream_id_to_chunks := _file_stream_id_to_chunks c;
     _file_stream_id_to_is_available := _file_stream_id_to_is_available c;
     _file_streams_lock := _file_streams_lock c;
     threads := t;
     events := events c;
     listener_data := listener_data c |}.

Definition set_events (e : list event) (c : client P) : client P :=
  {| _peer := _peer c;
     _next_message_id := _next_message_id c;
     _message_id_to_was_acked := _message_id_to_was_acked c;
     _messages_ids_that_have_been_received :=
       _messages_ids_that_have_been_received c;
     _file_stream_id_to_chunks := _file_stream_id_to_chunks c;
     _file_stream_id_to_is_available := _file_stream_id_to_is_available c;
     _file_streams_lock := _file_streams_lock c;
     threads := threads c;
     events := e;
     listener_data := listener_data c |}.

Definition set_listener_data (d : bytes) (c : client P) : client P :=
  {| _peer := _peer c;
     _next_message_id := _next_message_id c;
     _message_id_to_was_acked := _message_id_to_was_acked c;
     _messages_ids_that_have_been_received :=
       _messages_ids_that_have_been_received c;
     _file_stream_id_to_chunks := _file_stream_id_to_chunks c;
     _file_stream_id_to_is_available := _file_stream_id_to_is_available c;
     _file_streams_lock := _file_streams_lock c;
     threads := threads c;
     events := events c;
     listener_data := d |}.

End Fields.

Section Methods.
Context {P : Type} `{AbstractPeer P}.

(** The class constant [CHUNK_SIZE] (1024 unless a subclass changes
    it). *)
Variable CHUNK_SIZE : Z.

(** What the other threads do to the client while this thread is in
    [sleep(d)]. *)
Variable sleep : duration -> client P -> client P.

(** The files of the machine. *)
Variable files : str -> option bytes.

Definition emit (e : event) : M P unit :=
  modify (fun c => set_events (events c ++ [e]) c).

Definition start_thread (t : thread) : M P unit :=
  modify (fun c => set_threads (threads c ++ [t]) c).

(** [self._peer.send(data)] *)
Definition peer_send (data : bytes) : M P unit :=
  modify (fun c => set__peer (send data (_peer c)) c).

(** [self._peer.receive(n)] *)
Definition peer_receive (n : Z) : M P bytes :=
  fun c => let (d, p) := receive n (_peer c) in Returned d (set__peer p c).

Definition sleeping (d : duration) : M P unit := modify (sleep d).

Definition __init__ (peer : P) : client P :=
  {| _peer := peer;
     _next_message_id := 0;
     _message_id_to_was_acked := ∅;
     _messages_ids_that_have_been_received := ∅;
     _file_stream_id_to_chunks :=
       list_to_map (map (fun stream_id => (stream_id, ∅))
                      FILE_TRANSFER_STREAMS);
     _file_stream_id_to_is_available :=
       list_to_map (map (fun stream_id => (stream_id, true))
                      FILE_TRANSFER_STREAMS);
     _file_streams_lock := false;
     threads := [_listen_thread];
     events := [];
     listener_data := [] |}.

Definition _get_next_message_id : M P Z :=
  doM _ <- modify (fun c => set__next_message_id (_next_message_id c + 1) c);
  doM c <- get;
  ret (_next_message_id c).

(** The [while True] loop of [_extract_packets]; every round finds a
    Barker further to the right, so the length of [data] is fuel
    enough. *)
Fixpoint barker_indexes_loop (fuel : nat) (data : bytes)
  (barker_indexes : list Z) : list Z :=
  match fuel with
  | O => barker_indexes
  | S fuel' =>
      match Bytes.find Protocol.BARKER data
              (List.last barker_indexes 0 + Protocol.BARKER_LENGTH) with
      | None => barker_indexes
      | Some barker_index =>
          barker_indexes_loop fuel' data (barker_indexes ++ [barker_index])
      end
  end.

(** [data[barker_indexes[i]:barker_indexes[i + 1]]] for every [i] in
    [range(len(barker_indexes) - 1)]. *)
Fixpoint packets_between (data : bytes) (barker_indexes : list Z)
  : list bytes :=
  match barker_indexes with
  | i :: ((j :: _) as rest) =>
      Bytes.slice data i j :: packets_between data rest
  | _ => []
  end.

Definition _extract_packets (data : bytes) : list bytes :=
  let barker_indexes := barker_indexes_loop (length data) data [0] in
  packets_between data barker_indexes
    ++ [Bytes.slice_from data (List.last barker_indexes 0)].

(** The [for] loop of [_lock_file_stream]: the first stream that is
    available, if there is one. *)
Fixpoint first_available (streams : list Z) (available : gmap Z bool)
  : outcome (option Z) :=
  match streams with
  | [] => Done None
  | stream_id :: streams' =>
      match available !! stream_id with
      | None => Raised KeyError
      | Some true => Done (Some stream_id)
      | Some false => first_available streams' available
      end
  end.

(** [acquire] waits while the lock is held; the [while] loop spins, the
    lock held, while no stream is available. Neither wait ends by
    what this thread does. *)
Definition _lock_file_stream : M P Z :=
  doM c <- get;
  if _file_streams_lock c then diverge
  else
    doM _ <- modify (set__file_streams_lock true);
    doM found <- lift (first_available FILE_TRANSFER_STREAMS
                         (_file_stream_id_to_is_available c));
    match found with
    | None => diverge
    | Some stream_id =>
        doM _ <- modify (fun c =>
                   set__file_stream_id_to_is_available
                     (<[stream_id := false]>
                        (_file_stream_id_to_is_available c)) c);
        doM _ <- modify (set__file_streams_lock false);
        ret stream_id
    end.

(** The [while] loop of [_send_message_and_wait_for_ack]. *)
Fixpoint wait_for_ack (fuel : nat) (message : bytes) (message_id : Z)
  : M P unit :=
  doM c <- get;
  match _message_id_to_was_acked c !! message_id with
  | None => lift (Raised KeyError)
  | Some true => ret tt
  | Some false =>
      match fuel with
      | O => diverge
      | S fuel' =>
          doM _ <- peer_send message;
          doM _ <- sleeping ACK_ARRIVAL_TIME;
          wait_for_ack fuel' message message_id
      end
  end.

Definition _send_message_and_wait_for_ack (fuel : nat) (message : bytes)
  (message_id : Z) : M P unit :=
  doM _ <- peer_send message;
  doM _ <- sleeping ACK_ARRIVAL_TIME;
  wait_for_ack fuel message message_id.

(** In [Thread(target=self._send_message_and_wait_for_ack(message,
    message_id)).start()] the argument of [Thread] is a call: it is
    evaluated by the caller, and the thread is started on what it
    returns, [None]. *)
Definition send_reliable (fuel : nat) (message : pydata) : M P unit :=
  doM message_id <- _get_next_message_id;
  doM _ <- modify (fun c =>
             set__message_id_to_was_acked
               (<[message_id := false]> (_message_id_to_was_acked c)) c);
  doM message <- lift (Protocol.wrap_reliable message message_id);
  doM _ <- _send_message_and_wait_for_ack fuel message message_id;
  start_thread no_target.

Definition send_unreliable (message : pydata) : M P unit :=
  doM message <- lift (Protocol.wrap_unreliable message);
  peer_send message.

Definition send_reliable_stream_message (fuel : nat) (message : pydata)
  (stream_id : Z) : M P unit :=
  doM message_id <- _get_next_message_id;
  doM _ <- modify (fun c =>
             set__message_id_to_was_acked
               (<[message_id := false]> (_message_id_to_was_acked c)) c);
  doM message <-
    lift (Protocol.wrap_reliable_stream message message_id stream_id);
  doM _ <- _send_message_and_wait_for_ack fuel message message_id;
  start_thread no_target.

Definition send_unreliable_stream_message (message : pydata)
  (stream_id : Z) : M P unit :=
  doM message <- lift (Protocol.wrap_unreliable_stream message stream_id);
  peer_send message.

(** The [while chunk] loop of [_handle_file_send]; it returns the last
    [packet_index]. *)
Fixpoint send_chunks (fuel : nat) (chunk transferred_file : bytes)
  (packet_index stream_id : Z) : M P Z :=
  match chunk with
  | [] => ret packet_index
  | _ :: _ =>
      match fuel with
      | O => diverge
      | S fuel' =>
          let packet_index := packet_index + 1 in
          doM index <- lift (Struct.pack_L packet_index);
          doM _ <- send_reliable_stream_message fuel'
                     (PyBytes (index ++ ["0"%byte] ++ chunk)) stream_id;
          let (chunk, transferred_file) :=
            Os.read CHUNK_SIZE transferred_file in
          send_chunks fuel' chunk transferred_file packet_index stream_id
      end
  end.

Definition _handle_file_send (fuel : nat) (file_path : str) : M P unit :=
  doM stream_id <- _lock_file_stream;
  let is_last_chunk := ["0"%byte] in
  doM filename <- lift (Protocol.str_to_bytes (Os.basename file_path));
  let packet_index := 0 in
  doM index <- lift (Struct.pack_L packet_index);
  doM _ <- send_reliable_stream_message fuel
             (PyBytes (index ++ is_last_chunk ++ filename)) stream_id;
  doM transferred_file <-
    lift (match files file_path with
          | Some content => Done content
          | None => Raised OSError
          end);
  let (chunk, transferred_file) := Os.read CHUNK_SIZE transferred_file in
  doM packet_index <-
    send_chunks fuel chunk transferred_file packet_index stream_id;
  let is_last_chunk := ["1"%byte] in
  let packet_index := packet_index + 1 in
  doM index <- lift (Struct.pack_L packet_index);
  doM _ <- send_reliable_stream_message fuel
             (PyBytes (index ++ is_last_chunk)) stream_id;
  doM _ <- sleeping WAIT_BEFORE_FILE_STREAM_RELEASE;
  modify (fun c =>
    set__file_stream_id_to_is_available
      (<[stream_id := true]> (_file_stream_id_to_is_available c)) c).

(** [self._file_stream_id_to_chunks[stream_id]] *)
Definition chunks_of (stream_id : Z) : M P (gmap Z bytes) :=
  doM c <- get;
  match _file_stream_id_to_chunks c !! stream_id with
  | Some chunks => ret chunks
  | None => lift (Raised KeyError)
  end.

(** [self._file_stream_id_to_chunks[stream_id][i]] *)
Definition chunk_of (stream_id i : Z) : M P bytes :=
  doM chunks <- chunks_of stream_id;
  match chunks !! i with
  | Some chunk => ret chunk
  | None => lift (Raised KeyError)
  end.

(** The [while] loop of [_handle_file_chunks]. *)
Fixpoint wait_for_chunks (fuel : nat) (stream_id number_of_chunks : Z)
  : M P unit :=
  doM chunks <- chunks_of stream_id;
  if Z.of_nat (size chunks) =? number_of_chunks then ret tt
  else
    match fuel with
    | O => diverge
    | S fuel' =>
        doM _ <- sleeping POLL;
        wait_for_chunks fuel' stream_id number_of_chunks
    end.

(** [for i in range(1, number_of_chunks): file_data.extend(...)] *)
Fixpoint extend_file_data (indexes : list Z) (stream_id : Z)
  (file_data : bytes) : M P bytes :=
  match indexes with
  | [] => ret file_data
  | i :: indexes' =>
      doM chunk <- chunk_of stream_id i;
      extend_file_data indexes' stream_id (file_data ++ chunk)
  end.

Definition _handle_file_chunks (fuel : nat)
  (stream_id number_of_chunks : Z) : M P unit :=
  doM _ <- wait_for_chunks fuel stream_id number_of_chunks;
  doM chunk0 <- chunk_of stream_id 0;
  doM filename <- lift (Utf8.decode chunk0);
  doM file_data <-
    extend_file_data (seqZ 1 (number_of_chunks - 1)) stream_id [];
  doM _ <- modify (fun c =>
             set__file_stream_id_to_chunks
               (<[stream_id := ∅]> (_file_stream_id_to_chunks c)) c);
  emit (on_file filename file_data).

(** [message[:4]], [message[4]] and [message[5:]] on what may be
    [None]. *)
Definition subscriptable (message : option bytes) : outcome bytes :=
  match message with
  | Some b => Done b
  | None => Raised TypeError
  end.

(** The branch [elif stream_id in self.FILE_TRANSFER_STREAMS]. *)
Definition file_frame (message : option bytes) (stream_id : Z)
  : M P unit :=
  doM chunk_index <-
    lift (do b <- subscriptable message;
          Struct.unpack_L (Bytes.slice b 0 4));
  doM is_last_chunk <-
    lift (do b <- subscriptable message; Bytes.index b 4);
  if is_last_chunk =? 48 then
    doM chunks <- chunks_of stream_id;
    doM chunk <- lift (do b <- subscriptable message;
                       Done (Bytes.slice_from b 5));
    modify (fun c =>
      set__file_stream_id_to_chunks
        (<[stream_id := <[chunk_index := chunk]> chunks]>
           (_file_stream_id_to_chunks c)) c)
  else if is_last_chunk =? 49 then
    start_thread (_handle_file_chunks_thread stream_id chunk_index)
  else
    emit (print
            (Error_Invalid_unicode_value_for_is_last_chunk is_last_chunk)).

(** What the handler does with a reliable message it sees for the first
    time. *)
Definition deliver_reliable (message : option bytes)
  (stream_id : option Z) : M P unit :=
  match stream_id with
  | None => emit (on_reliable_message message)
  | Some stream_id =>
      if bool_decide (stream_id ∈ FILE_TRANSFER_STREAMS)
      then file_frame message stream_id
      else emit (on_reliable_stream_message message stream_id)
  end.

Definition _handle_unwrapped_message (message : option bytes)
  (message_id stream_id acked_message_id : option Z) : M P unit :=
  match truthy acked_message_id with
  | Some acked_message_id =>
      finally_return
        (try_except
           (modify (fun c =>
              set__message_id_to_was_acked
                (<[acked_message_id := true]>
                   (_message_id_to_was_acked c)) c))
           KeyError
           (emit (print (Got_ACK_on_invalid_message_id
                           acked_message_id))))
  | None =>
      match message_id with
      | None =>
          match stream_id with
          | None => emit (on_unreliable_message message)
          | Some stream_id =>
              emit (on_unreliable_stream_message message stream_id)
          end
      | Some message_id =>
          doM ack <- lift (Protocol.wrap_ack message_id);
          doM _ <- peer_send ack;
          doM c <- get;
          match _messages_ids_that_have_been_received c !! message_id with
          | Some _ => ret tt
          | None =>
              doM _ <- modify (fun c =>
                         set__messages_ids_that_have_been_received
                           (<[message_id := true]>
                              (_messages_ids_that_have_been_received c))
                           c);
              deliver_reliable message stream_id
          end
      end
  end.

(** The body of the [for packet in packets[:-1]] loop of [_listen]. *)
Definition handle_packet (packet : bytes) : M P unit :=
  match Protocol.unwrap packet with
  | Done (message, message_id, stream_id, acked_message_id,
          redundant_bytes) =>
      doM _ <- match redundant_bytes with
               | [] => ret tt
               | _ :: _ => emit (print (Redundant_bytes redundant_bytes))
               end;
      _handle_unwrapped_message message message_id stream_id
        acked_message_id
  | Raised ValueError => emit (print (Bad_packet packet))
  | Raised e => lift (Raised e)
  end.

(** [packets[-1]] of a list that is never empty. *)
Definition last_packet (packets : list bytes) : bytes :=
  List.last packets [].

(** One round of the [while True] loop of [_listen], on the local
    variable [data]; it returns the new [data]. *)
Definition listen_round (data : bytes) : M P bytes :=
  doM new_data <- peer_receive CHUNK_SIZE;
  match new_data with
  | [] => ret data
  | _ :: _ =>
      let data := data ++ new_data in
      match Bytes.find Protocol.BARKER data 0 with
      | None =>
          doM _ <- emit (print (Bad_data data));
          ret (Bytes.slice_from data (- (Protocol.BARKER_LENGTH - 1)))
      | Some barker_index =>
          let data := Bytes.slice_from data barker_index in
          let packets := _extract_packets data in
          doM _ <- for_each (removelast packets) handle_packet;
          match Protocol.unwrap (last_packet packets) with
          | Done (message, message_id, stream_id, acked_message_id,
                  redundant_bytes) =>
              doM _ <- _handle_unwrapped_message message message_id
                         stream_id acked_message_id;
              ret redundant_bytes
          | Raised ValueError => ret (last_packet packets)
          | Raised e => lift (Raised e)
          end
      end
  end.

(** The listener thread keeps its [data] in [listener_data] between
    rounds. *)
Definition listen_step : M P unit :=
  doM c <- get;
  doM data <- listen_round (listener_data c);
  modify (set_listener_data data).

(** [fuel] rounds of [_listen]; the loop has no exit. *)
Fixpoint _listen (fuel : nat) : M P unit :=
  match fuel with
  | O => diverge
  | S fuel' => doM _ <- listen_step; _listen fuel'
  end.

Definition send_file (file_path : str) : M P unit :=
  match files file_path with
  | None => lift (Raised ValueError)
  | Some _ => start_thread (_handle_file_send_thread file_path)
  end.

End Methods.

End Client.

(** * Vocabulary of the properties *)

(** An unsigned 32-bit value. *)
Definition u32 (x : Z) : Prop := 0 <= x < 2 ^ 32.

(** The bytes of [Struct.pack_L x], written out. *)
Definition le_bytes (x : Z) : bytes :=
  [Bytes.of_Z x; Bytes.of_Z (x / 2 ^ 8);
   Bytes.of_Z (x / 2 ^ 16); Bytes.of_Z (x / 2 ^ 24)].

(** A byte string given by its ASCII text. *)
Definition ascii_bytes (s : string) : bytes := String.list_byte_of_string s.

(** The little-endian value of a field. *)
Definition le32 (field : bytes) : Z :=
  fold_right (fun b acc => Bytes.to_Z b + 256 * acc) 0 field.

(** [field] is the 4-byte little-endian encoding of [v]. *)
Definition encodes (v : Z) (field : bytes) : Prop :=
  length field = 4%nat /\ le32 field = v.

(** The five kinds of packets, each with what its [wrap_*] function is
    given. *)
Inductive packet : Type :=
| Reliable (data : bytes) (message_id : Z)
| Unreliable (data : bytes)
| ReliableStream (data : bytes) (message_id stream_id : Z)
| UnreliableStream (data : bytes) (stream_id : Z)
| Ack (acked_message_id : Z).

Definition wrap (p : packet) : outcome bytes :=
  match p with
  | Reliable data message_id =>
      Protocol.wrap_reliable (PyBytes data) message_id
  | Unreliable data => Protocol.wrap_unreliable (PyBytes data)
  | ReliableStream data message_id stream_id =>
      Protocol.wrap_reliable_stream (PyBytes data) message_id stream_id
  | UnreliableStream data stream_id =>
      Protocol.wrap_unreliable_stream (PyBytes data) stream_id
  | Ack acked_message_id => Protocol.wrap_ack acked_message_id
  end.

Definition packet_type (p : packet) : Z :=
  match p with
  | Reliable _ _ => 0
  | Unreliable _ => 1
  | ReliableStream _ _ _ => 2
  | UnreliableStream _ _ => 3
  | Ack _ => 4
  end.

(** The stuffed payload of a packet; an ACK has none. *)
Definition stuffed (p : packet) : bytes :=
  match p with
  | Reliable data _ | Unreliable data | ReliableStream data _ _
  | UnreliableStream data _ => Protocol._stuff_data data
  | Ack _ => []
  end.

(** The integer fields between the type byte and the payload, in the order
    of the layout table. *)
Definition fields (p : packet) : list Z :=
  let size := Z.of_nat (length (stuffed p)) in
  match p with
  | Reliable _ message_id => [message_id; size]
  | Unreliable _ => [size]
  | ReliableStream _ message_id stream_id => [message_id; stream_id; size]
  | UnreliableStream _ stream_id => [stream_id; size]
  | Ack acked_message_id => [acked_message_id]
  end.

(** Every integer field of the packet is an unsigned 32-bit value. *)
Definition well_formed (p : packet) : Prop := Forall u32 (fields p).

(** What follows the integer fields: the stuffed payload and the CRC
    field, or nothing for an ACK. [crc] is the encoded CRC field. *)
Definition trailer (p : packet) (crc : bytes) : bytes :=
  match p with
  | Ack _ => []
  | _ => stuffed p ++ crc
  end.

(** Where the stuffed payload starts in the frame. *)
Definition payload_offset (p : packet) : nat :=
  match p with
  | Reliable _ _ => 17
  | Unreliable _ => 13
  | ReliableStream _ _ _ => 21
  | UnreliableStream _ _ => 17
  | Ack _ => 13
  end.

(** What [unwrap] is expected to return on the frame of a packet. *)
Definition unwrapped_of (p : packet) : unwrapped :=
  match p with
  | Reliable data message_id =>
      (Some data, Some message_id, None, None, [])
  | Unreliable data => (Some data, None, None, None, [])
  | ReliableStream data message_id stream_id =>
      (Some data, Some message_id, Some stream_id, None, [])
  | UnreliableStream data stream_id =>
      (Some data, None, Some stream_id, None, [])
  | Ack acked_message_id => (None, None, None, Some acked_message_id, [])
  end.

(** The frame of a well-formed packet, written out: the header, up to the
    last integer field, and the trailer. *)
Definition header (p : packet) : bytes :=
  Protocol.BARKER ++ [Bytes.of_Z (packet_type p)]
    ++ concat (map le_bytes (fields p)).

Definition frame (p : packet) : bytes :=
  header p ++ trailer p (le_bytes (Zlib.crc32 (stuffed p))).

Definition message_id_of (p : packet) : option Z :=
  match p with
  | Reliable _ message_id | ReliableStream _ message_id _ => Some message_id
  | _ => None
  end.

Definition stream_id_of (p : packet) : option Z :=
  match p with
  | ReliableStream _ _ stream_id | UnreliableStream _ stream_id =>
      Some stream_id
  | _ => None
  end.

Definition is_data (p : packet) : bool :=
  match p with
  | Ack _ => false
  | _ => true
  end.

(** Reading a buffer by the layout table. [field_at data offset] is the
    field of up to four bytes at [offset]; [header_length t] counts the
    Barker, the type byte and the integer fields of type [t]. *)
Definition type_byte (data : bytes) : option Z :=
  Bytes.to_Z <$> data !! 8%nat.

Definition field_at (data : bytes) (offset : Z) : bytes :=
  take 4 (drop (Z.to_nat offset) data).

Definition header_length (t : Z) : Z :=
  match t with
  | 0 => 17
  | 1 => 13
  | 2 => 21
  | 3 => 17
  | _ => 13
  end.

(** The size field is the last field of the header of a data packet. *)
Definition size_field (data : bytes) (t : Z) : Z :=
  le32 (field_at data (header_length t - 4)).

Definition payload_region (data : bytes) (t : Z) : bytes :=
  take (Z.to_nat (size_field data t)) (drop (Z.to_nat (header_length t)) data).

Definition crc_field (data : bytes) (t : Z) : bytes :=
  field_at data (header_length t + size_field data t).

Definition frame_length (data : bytes) (t : Z) : Z :=
  if t =? 4 then header_length t
  else header_length t + size_field data t + 4.

(** The failure condition of [unwrap], in the words of the specification:
    no Barker at offset 0, or an unknown packet type, or a truncated header,
    or, for the types with a payload, a truncated CRC field or a CRC field
    that is not the CRC-32 of the stuffed payload. *)
Definition bad_packet (data : bytes) : Prop :=
  Bytes.startswith Protocol.BARKER data = false
  \/ match type_byte data with
     | None => True
     | Some t =>
         ~ (0 <= t <= 4)
         \/ Z.of_nat (length data) < header_length t
         \/ (t <> 4
             /\ (Z.of_nat (length data)
                 < header_length t + size_field data t + 4
                 \/ le32 (crc_field data t)
                    <> Zlib.crc32 (payload_region data t)))
     end.

(** The tuple that the layout table gives for a buffer of type [t]. *)
Definition parsed (data : bytes) (t : Z) : unwrapped :=
  let id1 := le32 (field_at data 9) in
  let id2 := le32 (field_at data 13) in
  let message := Protocol._unstuff_data (payload_region data t) in
  let redundant := drop (Z.to_nat (frame_length data t)) data in
  match t with
  | 0 => (Some message, Some id1, None, None, redundant)
  | 1 => (Some message, None, None, None, redundant)
  | 2 => (Some message, Some id1, Some id2, None, redundant)
  | 3 => (Some message, None, Some id1, None, redundant)
  | _ => (None, None, None, Some id1, redundant)
  end.

(** A transport that records and replays: the frames given to [send], in
    order; the pieces that have arrived and that [receive] has still to
    return, one piece or the next part of it at a time; and the pieces that
    arrive later. *)
Record link : Type := {
  sent : list bytes;
  incoming : list bytes;
  later : list bytes;
}.

#[export] Instance link_peer : AbstractPeer link := {|
  send data l :=
    {| sent := sent l ++ [data]; incoming := incoming l; later := later l |};
  receive n l :=
    match incoming l with
    | [] => ([], l)
    | piece :: pieces =>
        (take (Z.to_nat n) piece,
         {| sent := sent l;
            incoming := match drop (Z.to_nat n) piece with
                        | [] => pieces
                        | rest => rest :: pieces
                        end;
            later := later l |})
    end;
|}.

(** The next piece arrives. *)
Definition arrive (l : link) : link :=
  match later l with
  | [] => l
  | piece :: pieces =>
      {| sent := sent l; incoming := incoming l ++ [piece];
         later := pieces |}
  end.

(** The client in which a call ended. *)
Definition state_of {P A} (r : result P A) : client P :=
  match r with
  | Returned _ c | Raises _ c | Running c => c
  end.

(** A new client on a link on which [data] has arrived in one piece. *)
Definition new_client (data : bytes) : client link :=
  Client.__init__ {| sent := []; incoming := [data]; later := [] |}.

(** A new client on a link on which the [pieces] arrive later, one by
    one. *)
Definition new_client_awaiting (pieces : list bytes) : client link :=
  Client.__init__ {| sent := []; incoming := []; later := pieces |}.

(** No other thread touches the client during a sleep. *)
Definition undisturbed {P} (d : duration) (c : client P) : client P := c.

(** A call leaves a field of the client as it was, however it ends. *)
Definition preserves {P A B} (field : client P -> B) (m : M P A) : Prop :=
  forall c, field (state_of (m c)) = field c.

(** The two steps with which the handler starts on a reliable message:
    the ACK goes out, and the id is recorded. *)
Definition acked_with {P} `{AbstractPeer P} (ack : bytes) (c : client P)
  : client P :=
  Client.set__peer (send ack (_peer c)) c.

Definition recorded {P} (message_id : Z) (c : client P) : client P :=
  Client.set__messages_ids_that_have_been_received
    (<[message_id := true]> (_messages_ids_that_have_been_received c)) c.

(** [handler t]: the call of [_handle_unwrapped_message] that the listener
    makes on the tuple [t] that [unwrap] returned. *)
Definition handle {P} `{AbstractPeer P} (t : unwrapped) : M P unit :=
  let '(message, message_id, stream_id, acked_message_id, _) := t in
  Client._handle_unwrapped_message message message_id stream_id
    acked_message_id.

(** The places of a buffer at which a Barker starts. *)
Definition barker_at (data : bytes) (i : nat) : bool :=
  Bytes.startswith Protocol.BARKER (drop i data).

Definition barker_positions (data : bytes) : list nat :=
  List.filter (barker_at data) (seq 0 (length data)).

(** A payload whose CRC-32 is [0x46444144]: the bytes of the CRC field
    are ["DADF"]. *)
Definition barker_forger : bytes := ascii_bytes "aasT<t6BADF".

(** A [str] given by its ASCII text. *)
Definition text (s : string) : str := map Bytes.to_Z (ascii_bytes s).

(** While a thread of the client sleeps, its listener thread makes
    [rounds] rounds. *)
Definition listener_runs {P} `{AbstractPeer P} (CHUNK_SIZE : Z)
  (rounds : nat) (d : duration) (c : client P) : client P :=
  state_of (Client._listen CHUNK_SIZE rounds c).

(** While a thread of the client sleeps, the next piece arrives on the
    link, and the listener thread makes [rounds] rounds. *)
Definition arrival_and_listener (CHUNK_SIZE : Z) (rounds : nat)
  (d : duration) (c : client link) : client link :=
  listener_runs CHUNK_SIZE rounds d (Client.set__peer (arrive (_peer c)) c).

(** The file system of scenario 4: [hello.txt] holds [b"ABC"]. *)
Definition hello_files (path : str) : option bytes :=
  if decide (path = text "hello.txt") then Some (ascii_bytes "ABC") else None.

(** The frame of a file chunk: a reliable-stream frame whose payload is
    the chunk index, the is-last flag and the data. *)
Definition chunk_frame (chunk_index : Z) (is_last : string) (data : bytes)
  (message_id stream_id : Z) : bytes :=
  frame (ReliableStream (le_bytes chunk_index ++ ascii_bytes is_last ++ data)
           message_id stream_id).

Definition hello_frames : list bytes :=
  [chunk_frame 0 "0" (ascii_bytes "hello.txt") 1 7771;
   chunk_frame 1 "0" (ascii_bytes "AB") 2 7771;
   chunk_frame 2 "0" (ascii_bytes "C") 3 7771;
   chunk_frame 3 "1" [] 4 7771].

Definition hello_acks : list bytes :=
  [frame (Ack 1); frame (Ack 2); frame (Ack 3); frame (Ack 4)].

(** The upcalls among the events of a client: the calls of the five
    abstract methods, without the prints. *)
Definition is_upcall (e : event) : bool :=
  match e with
  | print _ => false
  | _ => true
  end.

Definition upcalls {P} (c : client P) : list event :=
  List.filter is_upcall (events c).

(** The arguments of a call of [_handle_unwrapped_message]. *)
Abbreviation call :=
  (option bytes * option Z * option Z * option Z)%type (only parsing).

(** What the listener thread does, step by step: it calls [receive], it
    prints, it calls the handler, and it keeps the rest of its buffer for
    the next round. *)
Inductive step : Type :=
| Receive
| Log (what : printed)
| Dispatch (arguments : call)
| Keep (data : bytes).

Definition perform {P} `{AbstractPeer P} (CHUNK_SIZE : Z) (s : step)
  : M P unit :=
  match s with
  | Receive => doM _ <- Client.peer_receive CHUNK_SIZE; ret tt
  | Log what => Client.emit (print what)
  | Dispatch arguments => handle (arguments, [])
  | Keep data => modify (Client.set_listener_data data)
  end.

Definition run {P} `{AbstractPeer P} (CHUNK_SIZE : Z) (steps : list step)
  : M P unit :=
  for_each steps (perform CHUNK_SIZE).

(** [n] rounds of the listener. *)
Fixpoint rounds {P} `{AbstractPeer P} (CHUNK_SIZE : Z) (n : nat) : M P unit :=
  match n with
  | O => ret tt
  | S n' => doM _ <- Client.listen_step CHUNK_SIZE; rounds CHUNK_SIZE n'
  end.

(** The steps of [Client.handle_packet] on a packet. *)
Definition packet_steps (packet : bytes) : list step :=
  match Protocol.unwrap packet with
  | Done (arguments, redundant_bytes) =>
      match redundant_bytes with
      | [] => []
      | _ :: _ => [Log (Redundant_bytes redundant_bytes)]
      end ++ [Dispatch arguments]
  | Raised _ => [Log (Bad_packet packet)]
  end.

(** The steps of a round on a buffer that starts with a Barker, and the
    buffer that the round keeps. *)
Definition process (data : bytes) : list step * bytes :=
  let packets := Client._extract_packets data in
  let steps := flat_map packet_steps (removelast packets) in
  match Protocol.unwrap (Client.last_packet packets) with
  | Done (arguments, redundant_bytes) =>
      (steps ++ [Dispatch arguments], redundant_bytes)
  | Raised _ => (steps, Client.last_packet packets)
  end.

(** The steps of a round that starts with the buffer [data] and reads
    [new_data], after the call of [receive], and the buffer that the round
    keeps. *)
Definition round (data new_data : bytes) : list step * bytes :=
  match new_data with
  | [] => ([], data)
  | _ :: _ =>
      let data := data ++ new_data in
      match Bytes.find Protocol.BARKER data 0 with
      | None =>
          ([Log (Bad_data data)],
           Bytes.slice_from data (- (Protocol.BARKER_LENGTH - 1)))
      | Some barker_index => process (Bytes.slice_from data barker_index)
      end
  end.

(** The steps of the rounds in which the listener, its buffer being
    [data], reads the [pieces] one after the other. *)
Fixpoint script (data : bytes) (pieces : list bytes) : list step :=
  match pieces with
  | [] => []
  | piece :: pieces' =>
      Receive :: fst (round data piece)
        ++ Keep (snd (round data piece))
        :: script (snd (round data piece)) pieces'
  end.

(** A step that is no call of the handler, and that prints nothing but
    [Bad data]. *)
Definition quiet (s : step) : Prop :=
  match s with
  | Receive | Keep _ | Log (Bad_data _) => True
  | _ => False
  end.

(** The arguments with which the handler is called for a packet. *)
Definition arguments_of (p : packet) : call := fst (unwrapped_of p).

(** A field that the handler leaves as it is: the handler gives frames to
    the peer and updates its tables, the threads and the events. *)
Definition beside_handler {P B} `{AbstractPeer P} (field : client P -> B)
  : Prop :=
  (forall d c, field (Client.set__peer (send d (_peer c)) c) = field c)
  /\ (forall x c, field (Client.set_events x c) = field c)
  /\ (forall x c, field (Client.set_threads x c) = field c)
  /\ (forall x c, field (Client.set__file_stream_id_to_chunks x c) = field c)
  /\ (forall x c, field (Client.set__message_id_to_was_acked x c) = field c)
  /\ (forall x c,
        field (Client.set__messages_ids_that_have_been_received x c) = field c).

(** The steps of a round between [Receive] and [Keep]. *)
Definition inner (s : step) : Prop :=
  match s with
  | Log _ | Dispatch _ => True
  | _ => False
  end.

(** The calls of the handler among the steps, in order. *)
Fixpoint dispatched (steps : list step) : list call :=
  match steps with
  | [] => []
  | Dispatch arguments :: steps' => arguments :: dispatched steps'
  | _ :: steps' => dispatched steps'
  end.

(** A step that prints nothing but [Bad data] and [Bad packet]. *)
Definition calm (s : step) : Prop :=
  match s with
  | Log (Bad_data _) | Log (Bad_packet _) => True
  | Receive | Keep _ | Dispatch _ => True
  | Log _ => False
  end.

(** The steps call the handler as [calls] says, and print nothing but
    [Bad data] and [Bad packet]. *)
Definition calls_exactly (steps : list step) (calls : list call) : Prop :=
  dispatched steps = calls /\ Forall calm steps.

(** ** Vocabulary of the further properties *)

(** The indexes that [_extract_packets] collects after [a]: each is the
    first place, eight bytes or more after the index before it, at which a
    Barker starts. *)
Fixpoint barker_chain (data : bytes) (a : Z) (rest : list Z) : Prop :=
  match rest with
  | [] => True
  | b :: rest' =>
      (a + 8 <= b
       /\ barker_at data (Z.to_nat b) = true
       /\ (forall j : nat, a + 8 <= Z.of_nat j < b -> barker_at data j = false))
      /\ barker_chain data b rest'
  end.

(** The chunk table of the client has an entry for each of the
    file-transfer streams, as [__init__] makes it. *)
Definition tables_ready {P} (c : client P) : Prop :=
  forall stream_id,
    stream_id ∈ Client.FILE_TRANSFER_STREAMS ->
    is_Some (_file_stream_id_to_chunks c !! stream_id).

(** A packet that [unwrap] accepts as a reliable message on a
    file-transfer stream, with an id that the client has not seen and a
    payload of less than five bytes: too short for the chunk index and the
    is-last flag. *)
Definition short_file_chunk {P} (packet : bytes) (c : client P) : Prop :=
  exists (data : bytes) (message_id stream_id : Z) (redundant : bytes),
    Protocol.unwrap packet
    = Done (Some data, Some message_id, Some stream_id, None, redundant)
    /\ stream_id ∈ Client.FILE_TRANSFER_STREAMS
    /\ _messages_ids_that_have_been_received c !! message_id = None
    /\ (length data < 5)%nat.

(** What the listener thread may do to the client [c], giving [c']:
    it adds received ids and never removes one, it marks messages as acked
    and never takes a mark back, it keeps the streams of the chunk table,
    it appends events and threads, and it leaves the counter of message ids
    and the table of available streams alone. *)
Definition only_adds {P} (c c' : client P) : Prop :=
  (forall m, is_Some (_messages_ids_that_have_been_received c !! m) ->
             is_Some (_messages_ids_that_have_been_received c' !! m))
  /\ (forall m, _message_id_to_was_acked c !! m = Some true ->
                _message_id_to_was_acked c' !! m = Some true)
  /\ (forall s, is_Some (_file_stream_id_to_chunks c !! s) ->
                is_Some (_file_stream_id_to_chunks c' !! s))
  /\ _next_message_id c' = _next_message_id c
  /\ _file_stream_id_to_is_available c' = _file_stream_id_to_is_available c
  /\ _file_streams_lock c' = _file_streams_lock c
  /\ (exists es, events c' = events c ++ es)
  /\ (exists ts, threads c' = threads c ++ ts).

(** However the call ends, the client it leaves is related by [R] to the
    client it started on. *)
Definition advances {P A} (R : client P -> client P -> Prop) (m : M P A)
  : Prop :=
  forall c, R c (state_of (m c)).

(** Where the frames start in a stream in which they follow one another
    from [offset] on. *)
Fixpoint frame_starts (offset : nat) (frames : list bytes) : list nat :=
  match frames with
  | [] => []
  | W :: frames' => offset :: frame_starts (offset + length W) frames'
  end.

(** What a stream is made of: the frame of a packet, or junk, bytes from
    one Barker to the next that are no frame. *)
Inductive item : Type :=
| Good (p : packet)
| Junk (J : bytes).

Definition bytes_of (x : item) : bytes :=
  match x with
  | Good p => frame p
  | Junk J => J
  end.

(** The items of a stream, end to end. *)
Definition stream (xs : list item) : bytes := concat (map bytes_of xs).

(** What [Client.handle_packet] does with an item: it calls the handler
    for a frame, and it prints [Bad packet] for junk. *)
Definition steps_of (x : item) : list step :=
  match x with
  | Good p => [Dispatch (arguments_of p)]
  | Junk J => [Log (Bad_packet J)]
  end.

(** The calls of the handler for the frames among the items. *)
Definition calls_of (xs : list item) : list call :=
  dispatched (flat_map steps_of xs).

(** The items are what they are called: the packets are well formed, and
    junk starts with a Barker and [unwrap] accepts nothing that the
    listener may cut out there: no prefix of the stream from there on in
    which no second Barker is whole. *)
Fixpoint sound (xs : list item) : Prop :=
  match xs with
  | [] => True
  | Good p :: xs' => well_formed p /\ sound xs'
  | Junk J :: xs' =>
      barker_at J 0 = true
      /\ (forall n,
            (forall k, (8 <= k)%nat ->
                       barker_at (take n (J ++ stream xs')) k = false) ->
            Protocol.unwrap (take n (J ++ stream xs')) = Raised ValueError)
      /\ sound xs'
  end.

(** A Barker starts in the stream of the items only where an item
    starts. *)
Definition clean (xs : list item) : Prop :=
  forall i, barker_at (stream xs) i = true ->
            In i (frame_starts 0 (map bytes_of xs)).

(** The listener's buffer holds the first [j] bytes of the stream of the
    items, and has been searched: a frame at the head has not arrived
    whole, and after junk at the head the next Barker has not arrived
    whole. *)
Definition resting (xs : list item) (j : nat) : Prop :=
  match xs with
  | [] => j = 0%nat
  | Good p :: _ => (j < length (frame p))%nat
  | Junk J :: _ => (j < length J + 8)%nat
  end.

(** The stream does not end with junk. *)
Definition ends_well (xs : list item) : Prop :=
  forall xs' J, xs <> xs' ++ [Junk J].

(** The buffer that the listener keeps after it has read the [pieces],
    its buffer being [data] before. *)
Fixpoint kept (data : bytes) (pieces : list bytes) : bytes :=
  match pieces with
  | [] => data
  | piece :: pieces' => kept (snd (round data piece)) pieces'
  end.

(** In every chain that ends at its last index, no Barker starts eight
    bytes or more after it. *)
Definition barker_chain_ends (data : bytes) (a : Z) (rest : list Z) : Prop :=
  forall j : nat, List.last (a :: rest) 0 + 8 <= Z.of_nat j ->
                  barker_at data j = false.

(** A packet on which the handler raises when it sees its id for the first
    time: a reliable message on a file-transfer stream whose payload is
    shorter than the chunk index and the is-last flag. *)
Definition truncated_chunk (p : packet) : Prop :=
  match p with
  | ReliableStream data _ stream_id =>
      stream_id ∈ Client.FILE_TRANSFER_STREAMS /\ (length data < 5)%nat
  | _ => False
  end.

(** No truncated chunk among the packets, handled in this order by a
    client that has seen the ids [seen], comes with a new id: its id has
    been seen, or an earlier packet of the list brought it. *)
Fixpoint survives (seen : Z -> Prop) (ps : list packet) : Prop :=
  match ps with
  | [] => True
  | p :: ps' =>
      (truncated_chunk p -> exists m, message_id_of p = Some m /\ seen m)
      /\ survives (fun m => seen m \/ message_id_of p = Some m) ps'
  end.

(** The ids that the client has seen. *)
Definition seen_by {P} (c : client P) (m : Z) : Prop :=
  is_Some (_messages_ids_that_have_been_received c !! m).

(** Three packets, the second a file chunk too short to be parsed, with
    the id of the first; and garbage, in which a Barker starts, with their
    frames behind it. *)
Definition noisy_packets : list packet :=
  [Reliable (ascii_bytes "a") 1;
   ReliableStream (ascii_bytes "AB") 1 7771;
   Unreliable (ascii_bytes "z")].

Definition noisy_stream : bytes :=
  ascii_bytes "xxBADFDADFyy" ++ concat (map frame noisy_packets).

(** The listener of [c], in as many rounds as there are pieces, reads the
    pieces, returns from every round, and has called the handler as
    [calls] says, in this order: the rounds return; they are the steps of
    [script], all of which have been made; the calls of the handler among
    these steps are [calls]; nothing is printed but [Bad data] and
    [Bad packet]; and the buffer is empty at the end. *)
Definition delivers (CHUNK_SIZE : Z) (c : client link) (pieces : list bytes)
  (calls : list call) : Prop :=
  exists c',
    rounds CHUNK_SIZE (length pieces) c = Returned tt c'
    /\ rounds CHUNK_SIZE (length pieces) c
       = run CHUNK_SIZE (script (listener_data c) pieces) c
    /\ calls_exactly (script (listener_data c) pieces) calls
    /\ listener_data c' = [].

(** Garbage in which two Barkers start: one that no packet type follows,
    and one that starts a frame which holds a second Barker, between its
    payload and its CRC, where the listener cuts it. *)
Definition cut_frame_garbage : bytes :=
  ascii_bytes "xxBADFDADFyy" ++ frame (Unreliable barker_forger).

(** The garbage, and behind it the frames of two packets. *)
Definition resync_stream : bytes :=
  cut_frame_garbage
    ++ frame (Reliable (ascii_bytes "P1") 1)
    ++ frame (Unreliable (ascii_bytes "P2")).

(** The listener of [c], in as many rounds as there are pieces, reads the
    pieces, returns from every round, and has called the handler for [p1]
    and then for [p2], and for nothing else: the rounds return; they are
    the steps of [script], all of which have been made; the calls of the
    handler among these steps are the call for [p1] and then the call for
    [p2]; nothing is printed but [Bad data] and [Bad packet]; and the
    buffer is empty at the end. *)
Definition resyncs (CHUNK_SIZE : Z) (c : client link) (pieces : list bytes)
  (p1 p2 : packet) : Prop :=
  exists c',
    rounds CHUNK_SIZE (length pieces) c = Returned tt c'
    /\ rounds CHUNK_SIZE (length pieces) c
       = run CHUNK_SIZE (script (listener_data c) pieces) c
    /\ calls_exactly (script (listener_data c) pieces)
         [arguments_of p1; arguments_of p2]
    /\ listener_data c' = [].

(** While a thread of the client sleeps, the listener thread records the
    ACK for the message [m], if [k] frames or more have gone out on the
    link by then. *)
Definition ack_after (k : nat) (m : Z) (d : duration) (c : client link)
  : client link :=
  if (k <=? length (sent (_peer c)))%nat
  then Client.set__message_id_to_was_acked
         (<[m := true]> (_message_id_to_was_acked c)) c
  else c.

(** While a thread of the client sleeps, the listener thread records the
    ACK of every message that is waiting for one. *)
Definition acks_arrive {P} (d : duration) (c : client P) : client P :=
  Client.set__message_id_to_was_acked
    ((fun _ => true) <$> _message_id_to_was_acked c) c.

(** The chunks that the [read] calls of [_handle_file_send] return on a
    file: [n] bytes each, less for the last one. The fuel counts the
    bytes left. *)
Fixpoint split_chunks (fuel n : nat) (data : bytes) : list bytes :=
  match fuel with
  | O => []
  | S fuel' =>
      match data with
      | [] => []
      | _ :: _ => take n data :: split_chunks fuel' n (drop n data)
      end
  end.

Definition file_chunks (CHUNK_SIZE : Z) (content : bytes) : list bytes :=
  split_chunks (length content) (Z.to_nat CHUNK_SIZE) content.

(** The packets of the chunks of a file, from the chunk index [index] and
    the message id [message_id] on: each payload is the packed index, the
    flag ['0'] and the chunk. *)
Fixpoint chunk_packets (index message_id stream_id : Z) (chunks : list bytes)
  : list packet :=
  match chunks with
  | [] => []
  | chunk :: chunks' =>
      ReliableStream (le_bytes index ++ "0"%byte :: chunk) message_id
        stream_id
        :: chunk_packets (index + 1) (message_id + 1) stream_id chunks'
  end.

(** The packets of a file transfer by a client whose last message id was
    [last_id]: the name as chunk [0], the chunks of the content, and the
    end marker with the flag ['1']. *)
Definition file_packets (last_id stream_id : Z) (name : bytes)
  (chunks : list bytes) : list packet :=
  ReliableStream (le_bytes 0 ++ "0"%byte :: name) (last_id + 1) stream_id
    :: chunk_packets 1 (last_id + 2) stream_id chunks
    ++ [ReliableStream
          (le_bytes (Z.of_nat (length chunks) + 1) ++ ["1"%byte])
          (last_id + Z.of_nat (length chunks) + 2) stream_id].

(** The peer after the frames have been given to [send], in order. *)
Definition send_all {P} `{AbstractPeer P} (frames : list bytes) (peer : P)
  : P :=
  fold_left (fun p f => send f p) frames peer.

(** * Properties *)

(** ** The embedding on known values *)

Example crc32_check :
  Zlib.crc32 (ascii_bytes "123456789") = 0xCBF43926.
Proof. vm_compute. reflexivity. Qed.

Example stuff_check :
  Protocol._stuff_data (ascii_bytes "xBADFDADFyBADFDADZ")
  = ascii_bytes "xBADFDADZFyBADFDADZZ".
Proof. vm_compute. reflexivity. Qed.

Example roundtrip_check :
  (do f <- Protocol.wrap_reliable (PyBytes (ascii_bytes "BADFDAD-payload")) 7;
   Protocol.unwrap f)
  = Done (Some (ascii_bytes "BADFDAD-payload"), Some 7, None, None, []).
Proof. vm_compute. reflexivity. Qed.

(** ** Bytes *)

Section BytesFacts.
Import Bytes.

Lemma to_Z_range (b : byte) : 0 <= to_Z b < 256.
Proof.
  unfold to_Z. pose proof (Byte.to_N_bounded b). lia.
Qed.

Lemma of_Z_to_Z (b : byte) : of_Z (to_Z b) = b.
Proof.
  unfold of_Z. pose proof (to_Z_range b) as Hb.
  rewrite Z.mod_small by lia.
  unfold to_Z. rewrite N2Z.id, Byte.of_to_N. reflexivity.
Qed.

Lemma to_Z_of_Z (z : Z) : to_Z (of_Z z) = z mod 256.
Proof.
  unfold of_Z, to_Z.
  pose proof (Z.mod_pos_bound z 256 ltac:(lia)) as Hz.
  destruct (Byte.of_N (Z.to_N (z mod 256))) as [b|] eqn:E.
  - apply Byte.to_of_N in E. rewrite E. lia.
  - apply Byte.of_N_None_iff in E. lia.
Qed.

Lemma to_Z_inj (a b : byte) : to_Z a = to_Z b -> a = b.
Proof.
  intros E. rewrite <- (of_Z_to_Z a), <- (of_Z_to_Z b), E. reflexivity.
Qed.

Lemma startswith_app (p r : bytes) : startswith p (p ++ r) = true.
Proof.
  induction p as [|x p IH]; simpl; [reflexivity|].
  rewrite (Byte.byte_dec_lb eq_refl). exact IH.
Qed.

Lemma startswith_inv (p d : bytes) :
  startswith p d = true -> d = p ++ drop (length p) d.
Proof.
  revert d. induction p as [|x p IH]; intros d Hs; simpl in *.
  - reflexivity.
  - destruct d as [|y d]; [discriminate|].
    apply andb_true_iff in Hs as [Hxy Hs].
    apply Byte.byte_dec_bl in Hxy. subst y.
    simpl. f_equal. apply IH, Hs.
Qed.

Lemma startswith_length (p d : bytes) :
  startswith p d = true -> (length p <= length d)%nat.
Proof.
  intros Hs. apply startswith_inv in Hs.
  rewrite Hs, length_app. lia.
Qed.

(** Slices of a concatenation, at the seams. *)
Lemma slice_middle (a b c : bytes) (i j : Z) :
  i = Z.of_nat (length a) -> j = i + Z.of_nat (length b) ->
  slice (a ++ b ++ c) i j = b.
Proof.
  intros -> ->. unfold slice, bound. rewrite !length_app.
  destruct (Z.ltb_spec (Z.of_nat (length a)) 0); [lia|].
  destruct (Z.ltb_spec (Z.of_nat (length a) + Z.of_nat (length b)) 0);
    [lia|].
  rewrite !Z.min_l by lia.
  replace (Z.to_nat (_ + _ - _)) with (length b) by lia.
  rewrite Nat2Z.id, drop_app_length, take_app_length. reflexivity.
Qed.

Lemma slice_from_end (a b : bytes) (i : Z) :
  i = Z.of_nat (length a) -> slice_from (a ++ b) i = b.
Proof.
  intros ->. unfold slice_from, bound. rewrite length_app.
  destruct (Z.ltb_spec (Z.of_nat (length a)) 0); [lia|].
  rewrite Z.min_l by lia.
  rewrite Nat2Z.id, drop_app_length. reflexivity.
Qed.

(** A slice in terms of [take] and [drop], for bounds in order. *)
Lemma slice_take_drop (data : bytes) (i j : Z) :
  0 <= i <= j ->
  slice data i j = take (Z.to_nat (j - i)) (drop (Z.to_nat i) data).
Proof.
  intros Hij. unfold slice, bound.
  destruct (Z.ltb_spec i 0); [lia|]. destruct (Z.ltb_spec j 0); [lia|].
  destruct (Z.le_gt_cases i (Z.of_nat (length data))) as [Hi|Hi].
  - rewrite (Z.min_l i) by lia.
    destruct (Z.le_gt_cases j (Z.of_nat (length data))) as [Hj|Hj].
    + rewrite Z.min_l by lia. reflexivity.
    + rewrite Z.min_r by lia.
      rewrite !take_ge; [reflexivity| |]; rewrite length_drop; lia.
  - rewrite !Z.min_r by lia.
    rewrite !drop_ge by lia. rewrite !take_nil. reflexivity.
Qed.

Lemma slice_from_drop (data : bytes) (i : Z) :
  0 <= i -> slice_from data i = drop (Z.to_nat i) data.
Proof.
  intros Hi. unfold slice_from, bound.
  destruct (Z.ltb_spec i 0); [lia|].
  destruct (Z.le_gt_cases i (Z.of_nat (length data))).
  - rewrite Z.min_l by lia. reflexivity.
  - rewrite Z.min_r by lia. rewrite !drop_ge by lia. reflexivity.
Qed.

End BytesFacts.

(** ** [struct] *)

Section StructFacts.
Import Struct.

Lemma pack_L_u32 (x : Z) : u32 x -> pack_L x = Done (le_bytes x).
Proof.
  intros [H0 H1]. unfold pack_L.
  destruct (Z.leb_spec 0 x); [|lia]. destruct (Z.ltb_spec x (2 ^ 32)); [|lia].
  reflexivity.
Qed.

Lemma pack_L_not_u32 (x : Z) : ~ u32 x -> pack_L x = Raised StructError.
Proof.
  intros Hx. unfold pack_L, u32 in *.
  destruct (Z.leb_spec 0 x); destruct (Z.ltb_spec x (2 ^ 32));
    simpl; try reflexivity; lia.
Qed.

Lemma pack_L_inv (x : Z) (b : bytes) :
  pack_L x = Done b -> u32 x /\ b = le_bytes x.
Proof.
  unfold pack_L, u32.
  destruct (Z.leb_spec 0 x); destruct (Z.ltb_spec x (2 ^ 32));
    simpl; intros E; inversion E; subst; split; try lia; reflexivity.
Qed.

Lemma length_le_bytes (x : Z) : length (le_bytes x) = 4%nat.
Proof. reflexivity. Qed.

Lemma unpack_L_le_bytes (x : Z) : u32 x -> unpack_L (le_bytes x) = Done x.
Proof.
  intros [H0 H1]. unfold unpack_L, le_bytes. f_equal.
  rewrite !to_Z_of_Z.
  change (2 ^ 8) with 256. change (2 ^ 16) with 65536.
  change (2 ^ 24) with 16777216. change (2 ^ 32) with 4294967296 in H1.
  Z.div_mod_to_equations. lia.
Qed.

Lemma unpack_L_u32 (b : bytes) (x : Z) : unpack_L b = Done x -> u32 x.
Proof.
  unfold unpack_L, u32.
  destruct b as [|b0 [|b1 [|b2 [|b3 [|? ?]]]]]; try discriminate.
  intros E. inversion E; subst; clear E.
  pose proof (to_Z_range b0). pose proof (to_Z_range b1).
  pose proof (to_Z_range b2). pose proof (to_Z_range b3).
  change (2 ^ 8) with 256. change (2 ^ 16) with 65536.
  change (2 ^ 24) with 16777216. change (2 ^ 32) with 4294967296. lia.
Qed.

Lemma unpack_L_length (b : bytes) :
  length b = 4%nat -> exists x, unpack_L b = Done x.
Proof.
  destruct b as [|b0 [|b1 [|b2 [|b3 [|? ?]]]]]; try discriminate.
  intros _. eexists. reflexivity.
Qed.

Lemma unpack_L_short (b : bytes) :
  length b <> 4%nat -> unpack_L b = Raised StructError.
Proof.
  destruct b as [|b0 [|b1 [|b2 [|b3 [|? ?]]]]]; simpl; try reflexivity.
  intros Hl. exfalso. apply Hl. reflexivity.
Qed.

End StructFacts.

(** ** [zlib.crc32] *)

Section ZlibFacts.
Import Zlib.

Lemma lxor_u32 (a b : Z) : u32 a -> u32 b -> u32 (Z.lxor a b).
Proof.
  unfold u32. intros [Ha0 Ha1] [Hb0 Hb1].
  assert (H0 : 0 <= Z.lxor a b) by (apply Z.lxor_nonneg; tauto).
  split; [exact H0|].
  destruct (Z.eq_dec (Z.lxor a b) 0) as [->|Hne]; [reflexivity|].
  apply Z.log2_lt_pow2; [lia|].
  pose proof (Z.log2_lxor a b Ha0 Hb0) as Hl.
  assert (Z.log2 a < 32).
  { destruct (Z.eq_dec a 0) as [->|]; [simpl; lia|].
    apply Z.log2_lt_pow2; lia. }
  assert (Z.log2 b < 32).
  { destruct (Z.eq_dec b 0) as [->|]; [simpl; lia|].
    apply Z.log2_lt_pow2; lia. }
  lia.
Qed.

Lemma shiftr1_u32 (c : Z) : u32 c -> 0 <= Z.shiftr c 1 < 2 ^ 31.
Proof.
  unfold u32. intros [H0 H1]. rewrite Z.shiftr_div_pow2 by lia.
  change (2 ^ 1) with 2. change (2 ^ 32) with 4294967296 in H1.
  change (2 ^ 31) with 2147483648. Z.div_mod_to_equations. lia.
Qed.

Lemma crc_shift_u32 (c : Z) : u32 c -> u32 (crc_shift c).
Proof.
  intros Hc. pose proof (shiftr1_u32 c Hc) as Hs. unfold crc_shift.
  assert (Hu : u32 (Z.shiftr c 1)).
  { unfold u32. change (2 ^ 31) with 2147483648 in Hs.
    change (2 ^ 32) with 4294967296. lia. }
  destruct (Z.odd c); [|exact Hu].
  apply lxor_u32; [exact Hu|]. unfold u32, POLY. lia.
Qed.

Lemma iter_crc_shift_u32 (n : nat) (c : Z) :
  u32 c -> u32 (Nat.iter n crc_shift c).
Proof.
  intros Hc. induction n as [|n IH]; simpl; [exact Hc|].
  apply crc_shift_u32, IH.
Qed.

Lemma crc_update_u32 (c : Z) (b : byte) : u32 c -> u32 (crc_update c b).
Proof.
  intros Hc. unfold crc_update. apply iter_crc_shift_u32, lxor_u32;
    [exact Hc|].
  pose proof (to_Z_range b). unfold u32.
  change (2 ^ 32) with 4294967296. lia.
Qed.

Lemma fold_crc_update_u32 (data : bytes) (c : Z) :
  u32 c -> u32 (fold_left crc_update data c).
Proof.
  revert c. induction data as [|b data IH]; intros c Hc; simpl;
    [exact Hc|].
  apply IH, crc_update_u32, Hc.
Qed.

Lemma crc32_u32 (data : bytes) : u32 (crc32 data).
Proof.
  unfold crc32. apply lxor_u32.
  - apply fold_crc_update_u32. unfold u32. lia.
  - unfold u32. lia.
Qed.

(** The register can be shifted back: bit 31 of the result tells whether
    the polynomial was xored in. *)
Lemma crc_shift_bit31 (c : Z) :
  u32 c -> Z.testbit (crc_shift c) 31 = Z.odd c.
Proof.
  intros Hc. pose proof (shiftr1_u32 c Hc) as Hs. unfold crc_shift.
  assert (Hhi : Z.testbit (Z.shiftr c 1) 31 = false).
  { destruct (Z.eq_dec (Z.shiftr c 1) 0) as [->|Hne].
    - apply Z.bits_0.
    - apply Z.bits_above_log2; [lia|].
      apply Z.log2_lt_pow2; lia. }
  destruct (Z.odd c).
  - rewrite Z.lxor_spec, Hhi. reflexivity.
  - exact Hhi.
Qed.

Lemma crc_shift_inj (c d : Z) :
  u32 c -> u32 d -> crc_shift c = crc_shift d -> c = d.
Proof.
  intros Hc Hd E.
  assert (Ho : Z.odd c = Z.odd d).
  { rewrite <- (crc_shift_bit31 c Hc), <- (crc_shift_bit31 d Hd), E.
    reflexivity. }
  assert (Hs : Z.shiftr c 1 = Z.shiftr d 1).
  { unfold crc_shift in E. rewrite <- Ho in E. destruct (Z.odd c).
    - apply (f_equal (fun z => Z.lxor z POLY)) in E.
      rewrite !Z.lxor_assoc, !Z.lxor_nilpotent, !Z.lxor_0_r in E. exact E.
    - exact E. }
  rewrite !Z.shiftr_div_pow2 in Hs by lia. change (2 ^ 1) with 2 in Hs.
  rewrite (Zdiv.Zodd_mod c), (Zdiv.Zodd_mod d) in Ho.
  assert (c mod 2 = d mod 2).
  { destruct (Z.eqb_spec (c mod 2) 1), (Z.eqb_spec (d mod 2) 1);
      try discriminate; [lia|].
    pose proof (Z.mod_pos_bound c 2 ltac:(lia)).
    pose proof (Z.mod_pos_bound d 2 ltac:(lia)). lia. }
  rewrite (Z.div_mod c 2), (Z.div_mod d 2) by lia. lia.
Qed.

Lemma iter_crc_shift_inj (n : nat) (c d : Z) :
  u32 c -> u32 d ->
  Nat.iter n crc_shift c = Nat.iter n crc_shift d -> c = d.
Proof.
  intros Hc Hd. induction n as [|n IH]; simpl; [tauto|].
  intros E. apply IH. apply crc_shift_inj; auto using iter_crc_shift_u32.
Qed.

Lemma byte_u32 (b : byte) : u32 (Bytes.to_Z b).
Proof.
  pose proof (to_Z_range b). unfold u32.
  change (2 ^ 32) with 4294967296. lia.
Qed.

(** For a fixed byte the update is injective in the register... *)
Lemma crc_update_inj_reg (c d : Z) (b : byte) :
  u32 c -> u32 d -> crc_update c b = crc_update d b -> c = d.
Proof.
  intros Hc Hd E. unfold crc_update in E.
  apply iter_crc_shift_inj in E; auto using lxor_u32, byte_u32.
  apply (f_equal (fun z => Z.lxor z (Bytes.to_Z b))) in E.
  rewrite !Z.lxor_assoc, !Z.lxor_nilpotent, !Z.lxor_0_r in E. exact E.
Qed.

(** ... and for a fixed register it is injective in the byte. *)
Lemma crc_update_inj_byte (c : Z) (a b : byte) :
  u32 c -> crc_update c a = crc_update c b -> a = b.
Proof.
  intros Hc E. unfold crc_update in E.
  apply iter_crc_shift_inj in E; auto using lxor_u32, byte_u32.
  apply (f_equal (Z.lxor c)) in E.
  rewrite <- !Z.lxor_assoc, !Z.lxor_nilpotent, !Z.lxor_0_l in E.
  apply to_Z_inj, E.
Qed.

Lemma fold_crc_update_inj (data : bytes) (c d : Z) :
  u32 c -> u32 d ->
  fold_left crc_update data c = fold_left crc_update data d -> c = d.
Proof.
  revert c d. induction data as [|b data IH]; intros c d Hc Hd; simpl;
    [tauto|].
  intros E. apply IH in E; auto using crc_update_u32.
  eapply crc_update_inj_reg; eauto.
Qed.

(** CRC-32 tells apart two byte strings that differ in one byte. *)
Lemma crc32_one_byte (pre post : bytes) (a b : byte) :
  a <> b -> crc32 (pre ++ a :: post) <> crc32 (pre ++ b :: post).
Proof.
  intros Hab E. apply Hab. unfold crc32 in E.
  apply (f_equal (fun z => Z.lxor z 0xFFFFFFFF)) in E.
  rewrite !Z.lxor_assoc, !Z.lxor_nilpotent, !Z.lxor_0_r in E.
  rewrite !fold_left_app in E. simpl in E.
  assert (Hu : u32 (fold_left crc_update pre 4294967295)).
  { apply fold_crc_update_u32. unfold u32. lia. }
  apply fold_crc_update_inj in E; auto using crc_update_u32.
  eapply crc_update_inj_byte; eauto.
Qed.

End ZlibFacts.

(** ** Byte stuffing *)

Section StuffingFacts.
Import Bytes Protocol.

Lemma replace_loop_fuel (o : byte) (old new : bytes) (n m : nat)
  (data : bytes) :
  (length data <= n)%nat -> (length data <= m)%nat ->
  replace_loop n (o :: old) new data = replace_loop m (o :: old) new data.
Proof.
  revert m data. induction n as [|n IH]; intros m data Hn Hm.
  - destruct data; [|simpl in Hn; lia]. destruct m; reflexivity.
  - destruct m as [|m].
    + destruct data; [reflexivity|simpl in Hm; lia].
    + destruct data as [|d data]; [reflexivity|]. simpl in Hn, Hm.
      cbn [replace_loop]. destruct (startswith (o :: old) (d :: data)).
      * f_equal. apply IH; cbn [length drop]; rewrite length_drop; lia.
      * f_equal. apply IH; lia.
Qed.

(** [replace] as Python describes it: at every position, either an
    occurrence of [old] starts there and is replaced, or the byte is
    kept. *)
Lemma replace_nil (o : byte) (old new : bytes) :
  replace (o :: old) new [] = [].
Proof. reflexivity. Qed.

Lemma replace_cons (o : byte) (old new : bytes) (d : byte) (data : bytes) :
  replace (o :: old) new (d :: data)
  = if startswith (o :: old) (d :: data)
    then new ++ replace (o :: old) new (drop (length (o :: old)) (d :: data))
    else d :: replace (o :: old) new data.
Proof.
  unfold replace. cbn [length replace_loop].
  destruct (startswith (o :: old) (d :: data)).
  - f_equal. apply replace_loop_fuel; [|lia].
    cbn [length drop]. rewrite length_drop. lia.
  - reflexivity.
Qed.

Lemma stuff_nil : _stuff_data [] = [].
Proof. reflexivity. Qed.

Lemma stuff_cons (d : byte) (data : bytes) :
  _stuff_data (d :: data)
  = if startswith BEFORE_STUFF (d :: data)
    then AFTER_STUFF ++ _stuff_data (drop 7 (d :: data))
    else d :: _stuff_data data.
Proof. unfold _stuff_data, BEFORE_STUFF. apply replace_cons. Qed.

Lemma unstuff_cons (d : byte) (data : bytes) :
  _unstuff_data (d :: data)
  = if startswith AFTER_STUFF (d :: data)
    then BEFORE_STUFF ++ _unstuff_data (drop 8 (d :: data))
    else d :: _unstuff_data data.
Proof. unfold _unstuff_data, AFTER_STUFF. apply replace_cons. Qed.

(** Stuffing creates no new text: a prefix of the stuffed data that has
    no ["B"] in it is a prefix of the data. *)
Lemma startswith_stuff_inv (w data : bytes) :
  Forall (fun b => b <> "B"%byte) w ->
  startswith w (_stuff_data data) = true -> startswith w data = true.
Proof.
  intros Hw. revert data. induction Hw as [|c w Hc Hw IH]; intros data Hs.
  - reflexivity.
  - destruct data as [|d data]; [exact Hs|].
    rewrite stuff_cons in Hs.
    destruct (startswith BEFORE_STUFF (d :: data)).
    + simpl in Hs. apply andb_true_iff in Hs as [Hcb _].
      apply Byte.byte_dec_bl in Hcb. contradiction.
    + simpl in Hs |- *. apply andb_true_iff in Hs as [-> Hs].
      simpl. apply IH, Hs.
Qed.

(** Unstuffing undoes stuffing, for every payload. *)
Lemma unstuff_stuff (data : bytes) : _unstuff_data (_stuff_data data) = data.
Proof.
  remember (length data) as n eqn:Hn. revert data Hn.
  induction n as [n IH] using lt_wf_ind. intros data Hn.
  destruct data as [|d data]; [reflexivity|].
  rewrite stuff_cons.
  destruct (startswith BEFORE_STUFF (d :: data)) eqn:Hb.
  - pose proof (startswith_inv _ _ Hb) as Hd.
    change (length BEFORE_STUFF) with 7%nat in Hd.
    change (AFTER_STUFF ++ _stuff_data (drop 7 (d :: data)))
      with ("B"%byte :: (tail AFTER_STUFF
                           ++ _stuff_data (drop 7 (d :: data)))).
    rewrite unstuff_cons.
    change ("B"%byte :: (tail AFTER_STUFF
                           ++ _stuff_data (drop 7 (d :: data))))
      with (AFTER_STUFF ++ _stuff_data (drop 7 (d :: data))).
    rewrite startswith_app.
    change 8%nat with (length AFTER_STUFF).
    rewrite drop_app_length.
    rewrite (IH (length (drop 7 (d :: data)))); [symmetry; exact Hd| |reflexivity].
    subst n. rewrite length_drop. simpl. lia.
  - rewrite unstuff_cons.
    destruct (startswith AFTER_STUFF (d :: _stuff_data data)) eqn:Ha.
    + exfalso. simpl in Ha. apply andb_true_iff in Ha as [Hd Ha].
      change (startswith (ascii_bytes "ADFDADZ") (_stuff_data data) = true)
        in Ha.
      apply startswith_stuff_inv in Ha.
      * apply startswith_inv in Ha. rewrite Ha in Hb.
        apply Byte.byte_dec_bl in Hd. subst d.
        simpl in Hb. discriminate.
      * repeat constructor; discriminate.
    + f_equal. apply (IH (length data)); [subst n; simpl; lia|reflexivity].
Qed.

End StuffingFacts.

(** ** Frames *)

Section FrameFacts.
Import Protocol.

Lemma unpack_L_le32 (b : bytes) :
  length b = 4%nat -> Struct.unpack_L b = Done (le32 b).
Proof.
  destruct b as [|b0 [|b1 [|b2 [|b3 [|? ?]]]]]; try discriminate.
  intros _. unfold Struct.unpack_L, le32. simpl. f_equal.
  change (2 ^ 8) with 256. change (2 ^ 16) with 65536.
  change (2 ^ 24) with 16777216. lia.
Qed.

Lemma le32_le_bytes (x : Z) : u32 x -> le32 (le_bytes x) = x.
Proof.
  intros Hx. pose proof (unpack_L_le_bytes x Hx) as E.
  rewrite unpack_L_le32 in E by reflexivity. congruence.
Qed.

Lemma encodes_le_bytes (x : Z) : u32 x -> encodes x (le_bytes x).
Proof. intros Hx. split; [reflexivity|apply le32_le_bytes, Hx]. Qed.

Lemma le32_u32 (b : bytes) : length b = 4%nat -> u32 (le32 b).
Proof.
  intros Hb. eapply unpack_L_u32. apply unpack_L_le32, Hb.
Qed.

(** Every [wrap_*] function returns the frame of its packet, and raises
    only for a field that is no unsigned 32-bit value. *)
Lemma wrap_frame (p : packet) : well_formed p -> wrap p = Done (frame p).
Proof.
  pose proof (crc32_u32 (stuffed p)) as Hcrc.
  unfold well_formed. intros Hwf.
  destruct p; simpl in Hwf;
    repeat match goal with
      | H : Forall _ (_ :: _) |- _ =>
          apply Forall_cons_1 in H; destruct H as [? H]
      end;
    unfold wrap, wrap_reliable, wrap_unreliable, wrap_reliable_stream,
      wrap_unreliable_stream, wrap_ack, as_bytes; simpl obind;
    rewrite ?pack_L_u32 by assumption; simpl obind;
    unfold frame, header; simpl; rewrite <- ?app_assoc; reflexivity.
Qed.

Lemma wrap_inv (p : packet) (f : bytes) :
  wrap p = Done f -> well_formed p /\ f = frame p.
Proof.
  intros Hw.
  assert (Hwf : well_formed p).
  { unfold well_formed.
    destruct p; simpl in Hw |- *;
      unfold wrap_reliable, wrap_unreliable, wrap_reliable_stream,
        wrap_unreliable_stream, wrap_ack, as_bytes in Hw; simpl obind in Hw;
      repeat match goal with
        | H : context [Struct.pack_L ?x] |- _ =>
            let E := fresh "E" in
            destruct (Struct.pack_L x) eqn:E; simpl obind in H;
            [apply pack_L_inv in E; destruct E as [? ->]|discriminate]
        end;
      repeat (apply List.Forall_cons; [assumption|]); apply List.Forall_nil. }
  split; [exact Hwf|]. rewrite (wrap_frame p Hwf) in Hw. congruence.
Qed.

Lemma wrap_not_well_formed (p : packet) :
  ~ well_formed p -> wrap p = Raised StructError.
Proof.
  intros Hwf. destruct (wrap p) as [f|e] eqn:Hw.
  - apply wrap_inv in Hw. tauto.
  - f_equal.
    destruct p; simpl in Hw;
      unfold wrap_reliable, wrap_unreliable, wrap_reliable_stream,
        wrap_unreliable_stream, wrap_ack, as_bytes, Struct.pack_L in Hw;
      simpl obind in Hw;
      repeat match goal with
        | H : context [if ?b then _ else _] |- _ =>
            destruct b; simpl obind in H
        end; congruence.
Qed.

(** [_extract_message] on data that has, from [current_index] on, a size
    field, a body of that size, four more bytes and a tail. *)
Lemma extract_message_at (h body c tail : bytes) (current_index : Z) :
  current_index = Z.of_nat (length h) ->
  u32 (Z.of_nat (length body)) -> length c = 4%nat ->
  _extract_message
    (h ++ le_bytes (Z.of_nat (length body)) ++ body ++ c ++ tail)
    current_index
  = if le32 c =? Zlib.crc32 body
    then Done (_unstuff_data body, tail)
    else Raised ValueError.
Proof.
  intros -> Hn Hc.
  set (n := Z.of_nat (length body)) in *.
  set (i := Z.of_nat (length h)).
  set (data := h ++ le_bytes n ++ body ++ c ++ tail).
  assert (E1 : Bytes.slice data i (i + 4) = le_bytes n).
  { apply slice_middle; [reflexivity|]. rewrite length_le_bytes. lia. }
  assert (E2 : Bytes.slice data (i + 4) (i + 4 + n) = body).
  { unfold data. rewrite (app_assoc h).
    apply slice_middle; rewrite ?length_app, ?length_le_bytes; lia. }
  assert (E3 : Bytes.slice data (i + 4 + n) (i + 4 + n + 4) = c).
  { unfold data. rewrite (app_assoc _ body), (app_assoc h).
    apply slice_middle; rewrite ?length_app, ?length_le_bytes; lia. }
  assert (E4 : Bytes.slice_from data (i + 4 + n + 4) = tail).
  { unfold data. rewrite !app_assoc.
    apply slice_from_end. rewrite ?length_app, ?length_le_bytes. lia. }
  unfold _extract_message.
  rewrite E1, unpack_L_le_bytes by exact Hn. simpl obind.
  rewrite E2, E3, E4, unpack_L_le32 by exact Hc. simpl obind.
  destruct (le32 c =? Zlib.crc32 body); reflexivity.
Qed.

Lemma length_header (p : packet) : length (header p) = payload_offset p.
Proof. destruct p; reflexivity. Qed.

Lemma index_type_byte (tb : byte) (rest : bytes) :
  Bytes.index (BARKER ++ [tb] ++ rest) BARKER_LENGTH = Done (Bytes.to_Z tb).
Proof. reflexivity. Qed.

Lemma slice_field (h f rest : bytes) (i : Z) :
  i = Z.of_nat (length h) -> length f = 4%nat ->
  Bytes.slice (h ++ f ++ rest) i (i + 4) = f.
Proof. intros -> Hf. apply slice_middle; [reflexivity|lia]. Qed.

Lemma slice_field_of (data h f rest : bytes) (i j : Z) :
  data = h ++ f ++ rest -> i = Z.of_nat (length h) -> j = i + 4 ->
  length f = 4%nat -> Bytes.slice data i j = f.
Proof. intros -> -> -> Hf. apply slice_middle; [reflexivity|lia]. Qed.

Lemma extract_message_of (data h body c tail : bytes) (current_index : Z) :
  data = h ++ le_bytes (Z.of_nat (length body)) ++ body ++ c ++ tail ->
  current_index = Z.of_nat (length h) ->
  u32 (Z.of_nat (length body)) -> length c = 4%nat ->
  _extract_message data current_index
  = if le32 c =? Zlib.crc32 body
    then Done (_unstuff_data body, tail)
    else Raised ValueError.
Proof. intros ->. apply extract_message_at. Qed.

(** [unwrap] on data laid out as a data packet of the kind of [p]: after
    the header of [p], a body that has the announced size, four bytes,
    and a tail. *)
Lemma unwrap_laid_out (p : packet) (body c tail : bytes) :
  is_data p = true -> well_formed p ->
  length body = length (stuffed p) -> length c = 4%nat ->
  unwrap (header p ++ body ++ c ++ tail)
  = if le32 c =? Zlib.crc32 body
    then Done (Some (_unstuff_data body), message_id_of p, stream_id_of p,
               None, tail)
    else Raised ValueError.
Proof.
  intros Hd Hwf Hb Hc.
  pose proof (proj1 (List.Forall_forall _ _) Hwf) as Hall.
  assert (Hn : u32 (Z.of_nat (length body))).
  { rewrite Hb. apply Hall.
    destruct p; try discriminate; cbn [fields List.In]; tauto. }
  unfold header.
  destruct p; try discriminate;
    cbn [fields packet_type stuffed concat map message_id_of
           stream_id_of List.In] in *; cbv zeta;
    rewrite <- Hb, app_nil_r, <- !app_assoc;
    unfold unwrap, unwrap_body;
    rewrite startswith_app, index_type_byte; cbn [negb obind].
  - (* reliable *)
    change (Bytes.to_Z (Bytes.of_Z 0)) with 0.
    cbn [PACKET_TYPE_TO_UNWRAPPER obind]. unfold _unwrap_reliable.
    rewrite (slice_field_of _ (BARKER ++ [Bytes.of_Z 0])
               (le_bytes message_id) _
               (BARKER_LENGTH + 1) (BARKER_LENGTH + 1 + 4)
               ltac:(rewrite <- ?app_assoc; reflexivity)
               eq_refl eq_refl eq_refl).
    rewrite unpack_L_le_bytes by (apply Hall; tauto). cbn [obind].
    rewrite (extract_message_of _
               (BARKER ++ [Bytes.of_Z 0] ++ le_bytes message_id)
               body c tail (BARKER_LENGTH + 1 + 4)
               ltac:(rewrite <- ?app_assoc; reflexivity)
               eq_refl Hn Hc).
    destruct (le32 c =? Zlib.crc32 body); reflexivity.
  - (* unreliable *)
    change (Bytes.to_Z (Bytes.of_Z 1)) with 1.
    cbn [PACKET_TYPE_TO_UNWRAPPER obind]. unfold _unwrap_unreliable.
    rewrite (extract_message_of _ (BARKER ++ [Bytes.of_Z 1])
               body c tail (BARKER_LENGTH + 1)
               ltac:(rewrite <- ?app_assoc; reflexivity)
               eq_refl Hn Hc).
    destruct (le32 c =? Zlib.crc32 body); reflexivity.
  - (* reliable stream *)
    change (Bytes.to_Z (Bytes.of_Z 2)) with 2.
    cbn [PACKET_TYPE_TO_UNWRAPPER obind]. unfold _unwrap_reliable_stream.
    rewrite (slice_field_of _ (BARKER ++ [Bytes.of_Z 2])
               (le_bytes message_id) _
               (BARKER_LENGTH + 1) (BARKER_LENGTH + 1 + 4)
               ltac:(rewrite <- ?app_assoc; reflexivity)
               eq_refl eq_refl eq_refl).
    rewrite unpack_L_le_bytes by (apply Hall; tauto). cbn [obind].
    rewrite (slice_field_of _
               (BARKER ++ [Bytes.of_Z 2] ++ le_bytes message_id)
               (le_bytes stream_id) _
               (BARKER_LENGTH + 1 + 4) (BARKER_LENGTH + 1 + 4 + 4)
               ltac:(rewrite <- ?app_assoc; reflexivity)
               eq_refl eq_refl eq_refl).
    rewrite unpack_L_le_bytes by (apply Hall; tauto). cbn [obind].
    rewrite (extract_message_of _
               (BARKER ++ [Bytes.of_Z 2] ++ le_bytes message_id
                  ++ le_bytes stream_id)
               body c tail (BARKER_LENGTH + 1 + 4 + 4)
               ltac:(rewrite <- ?app_assoc; reflexivity)
               eq_refl Hn Hc).
    destruct (le32 c =? Zlib.crc32 body); reflexivity.
  - (* unreliable stream *)
    change (Bytes.to_Z (Bytes.of_Z 3)) with 3.
    cbn [PACKET_TYPE_TO_UNWRAPPER obind]. unfold _unwrap_unreliable_stream.
    rewrite (slice_field_of _ (BARKER ++ [Bytes.of_Z 3])
               (le_bytes stream_id) _
               (BARKER_LENGTH + 1) (BARKER_LENGTH + 1 + 4)
               ltac:(rewrite <- ?app_assoc; reflexivity)
               eq_refl eq_refl eq_refl).
    rewrite unpack_L_le_bytes by (apply Hall; tauto). cbn [obind].
    rewrite (extract_message_of _
               (BARKER ++ [Bytes.of_Z 3] ++ le_bytes stream_id)
               body c tail (BARKER_LENGTH + 1 + 4)
               ltac:(rewrite <- ?app_assoc; reflexivity)
               eq_refl Hn Hc).
    destruct (le32 c =? Zlib.crc32 body); reflexivity.
Qed.

Lemma unwrap_ack_frame (acked_message_id : Z) (tail : bytes) :
  u32 acked_message_id ->
  unwrap (BARKER ++ [Bytes.of_Z 4] ++ le_bytes acked_message_id ++ tail)
  = Done (None, None, None, Some acked_message_id, tail).
Proof.
  intros Hu. unfold unwrap, unwrap_body.
  rewrite startswith_app, index_type_byte; cbn [negb obind].
  change (Bytes.to_Z (Bytes.of_Z 4)) with 4.
  cbn [PACKET_TYPE_TO_UNWRAPPER obind]. unfold _unwrap_ack.
  rewrite (slice_field_of _ (BARKER ++ [Bytes.of_Z 4])
             (le_bytes acked_message_id) tail
             (BARKER_LENGTH + 1) (BARKER_LENGTH + 1 + 4)
             ltac:(rewrite <- ?app_assoc; reflexivity)
             eq_refl eq_refl eq_refl).
  rewrite unpack_L_le_bytes by exact Hu. cbn [obind].
  rewrite (app_assoc BARKER), (app_assoc _ (le_bytes _)).
  rewrite slice_from_end by reflexivity. reflexivity.
Qed.

(** [unwrap] undoes every [wrap_*]. *)
Lemma unwrap_frame (p : packet) :
  well_formed p -> unwrap (frame p) = Done (unwrapped_of p).
Proof.
  intros Hwf. destruct (is_data p) eqn:Hd.
  - unfold frame.
    replace (trailer p (le_bytes (Zlib.crc32 (stuffed p))))
      with (stuffed p ++ le_bytes (Zlib.crc32 (stuffed p)) ++ [])
      by (rewrite app_nil_r; destruct p; try discriminate; reflexivity).
    rewrite unwrap_laid_out by (try reflexivity; assumption).
    rewrite le32_le_bytes by apply crc32_u32.
    rewrite Z.eqb_refl.
    destruct p; try discriminate; cbn [stuffed unwrapped_of message_id_of
      stream_id_of]; rewrite unstuff_stuff; reflexivity.
  - destruct p; try discriminate.
    unfold frame, header.
    cbn [fields packet_type concat map trailer unwrapped_of].
    rewrite !app_nil_r.
    pose proof (unwrap_ack_frame acked_message_id [] ) as E.
    rewrite !app_nil_r in E. apply E.
    apply (proj1 (List.Forall_forall _ _) Hwf). cbn [fields List.In]. tauto.
Qed.

End FrameFacts.

(** ** The codec *)

(** C1. Codec round trip: for each of the packet types (0 reliable,
    1 unreliable, 2 reliable stream, 3 unreliable stream; the ACK comes
    along) and every byte payload, whatever text it contains,
    [Protocol.unwrap] on the output of the [wrap_*] function returns the
    payload, the message id and the stream id that were wrapped, and an
    empty redundant tail. The [wrap_*] function has an output unless one
    of its integer fields is no unsigned 32-bit value; it then raises
    [struct.error]. *)
Theorem codec_round_trip (p : packet) :
  match wrap p with
  | Done f => well_formed p /\ Protocol.unwrap f = Done (unwrapped_of p)
  | Raised e => ~ well_formed p /\ e = StructError
  end.
Proof.
  destruct (wrap p) as [f|e] eqn:Hw.
  - apply wrap_inv in Hw as [Hwf ->]. split; [exact Hwf|].
    apply unwrap_frame, Hwf.
  - assert (Hn : ~ well_formed p).
    { intros Hwf. rewrite (wrap_frame p Hwf) in Hw. discriminate. }
    split; [exact Hn|].
    rewrite (wrap_not_well_formed p Hn) in Hw. congruence.
Qed.

(** C7. Frame layout: the frame that a [wrap_*] function returns is the
    8-byte Barker, the type byte, the integer fields of the packet type in
    the order of the layout table, each encoded on 4 bytes, little-endian,
    the size field being the length of the stuffed payload, and then, for
    the types 0 to 3, the stuffed payload and the 4-byte encoding of its
    CRC-32; an ACK frame ends after its only field and has 13 bytes. The
    function returns a frame unless one of the integer fields is no
    unsigned 32-bit value. *)
Theorem frame_layout (p : packet) :
  match wrap p with
  | Done f =>
      exists (tb : byte) (fs : list bytes) (crc : bytes),
        f = Protocol.BARKER ++ [tb] ++ concat fs ++ trailer p crc
        /\ length Protocol.BARKER = 8%nat
        /\ Bytes.to_Z tb = packet_type p
        /\ Forall2 encodes (fields p) fs
        /\ encodes (Zlib.crc32 (stuffed p)) crc
        /\ (is_data p = true \/ length f = 13%nat)
  | Raised e => ~ well_formed p /\ e = StructError
  end.
Proof.
  destruct (wrap p) as [f|e] eqn:Hw.
  - apply wrap_inv in Hw as [Hwf ->].
    exists (Bytes.of_Z (packet_type p)), (map le_bytes (fields p)),
      (le_bytes (Zlib.crc32 (stuffed p))).
    split; [unfold frame, header; rewrite <- !app_assoc; reflexivity|].
    split; [reflexivity|].
    split; [destruct p; reflexivity|].
    split.
    + unfold well_formed in Hwf. induction Hwf as [|x l Hx Hl IH]; simpl.
      * constructor.
      * constructor; [apply encodes_le_bytes, Hx|exact IH].
    + split; [apply encodes_le_bytes, crc32_u32|].
      destruct p; [left; reflexivity ..|right; reflexivity].
  - assert (Hn : ~ well_formed p).
    { intros Hwf. rewrite (wrap_frame p Hwf) in Hw. discriminate. }
    split; [exact Hn|].
    rewrite (wrap_not_well_formed p Hn) in Hw. congruence.
Qed.

(** C10. The header is outside the CRC: when the four bytes of the message
    id in the frame of [wrap_reliable(P, m)] are replaced by the encoding
    of another id [m'], [unwrap] accepts the frame and returns [P] with
    the id [m']. *)
Theorem header_not_protected (P : bytes) (m m' : Z) (f e : bytes) :
  Protocol.wrap_reliable (PyBytes P) m = Done f ->
  Struct.pack_L m' = Done e ->
  Protocol.unwrap (take 9 f ++ e ++ drop 13 f)
  = Done (Some P, Some m', None, None, []).
Proof.
  intros Hf He.
  apply (wrap_inv (Reliable P m)) in Hf as [Hwf ->].
  apply pack_L_inv in He as [Hm' ->].
  assert (Hwf' : well_formed (Reliable P m')).
  { unfold well_formed in *. cbn [fields stuffed] in *.
    apply Forall_cons_1 in Hwf as [_ Hwf].
    apply List.Forall_cons; assumption. }
  transitivity (Protocol.unwrap (frame (Reliable P m')));
    [reflexivity|apply (unwrap_frame _ Hwf')].
Qed.

Lemma header_not_protected_witness :
  exists f e,
    Protocol.wrap_reliable (PyBytes (ascii_bytes "hi")) 1 = Done f
    /\ Struct.pack_L 77 = Done e
    /\ Protocol.unwrap (take 9 f ++ e ++ drop 13 f)
       = Done (Some (ascii_bytes "hi"), Some 77, None, None, []).
Proof.
  eexists. eexists.
  split; [vm_compute; reflexivity|].
  split; [vm_compute; reflexivity|].
  apply (header_not_protected (ascii_bytes "hi") 1 77);
    vm_compute; reflexivity.
Defined.

(** C9. CRC rejection: in the frame of a packet of the types 0 to 3, a
    change of one byte of the stuffed payload, at any position and to any
    other value, yields a buffer on which [unwrap] fails. *)
Theorem crc_rejects_single_byte (p : packet) (f : bytes) (i : nat) (b : byte) :
  wrap p = Done f ->
  (payload_offset p <= i < payload_offset p + length (stuffed p))%nat ->
  f !! i <> Some b ->
  Protocol.unwrap (<[i := b]> f) = Raised ValueError.
Proof.
  intros Hf Hi Hb. apply wrap_inv in Hf as [Hwf ->].
  assert (Hd : is_data p = true).
  { destruct p; try reflexivity. simpl in Hi. lia. }
  pose proof (length_header p) as Hh.
  set (k := (i - payload_offset p)%nat).
  assert (Hk : (k < length (stuffed p))%nat) by lia.
  destruct (lookup_lt_is_Some_2 (stuffed p) k Hk) as [a Ha].
  assert (Hab : a <> b).
  { intros ->. apply Hb. unfold frame.
    rewrite lookup_app_r by lia. rewrite Hh. fold k.
    replace (trailer p (le_bytes (Zlib.crc32 (stuffed p))))
      with (stuffed p ++ le_bytes (Zlib.crc32 (stuffed p)))
      by (destruct p; try discriminate; reflexivity).
    rewrite lookup_app_l by exact Hk. exact Ha. }
  unfold frame.
  replace (trailer p (le_bytes (Zlib.crc32 (stuffed p))))
    with (stuffed p ++ le_bytes (Zlib.crc32 (stuffed p)) ++ [])
    by (rewrite app_nil_r; destruct p; try discriminate; reflexivity).
  rewrite insert_app_r_alt by lia. rewrite Hh. fold k.
  rewrite insert_app_l by exact Hk.
  rewrite unwrap_laid_out;
    [|exact Hd|exact Hwf|apply length_insert|reflexivity].
  rewrite le32_le_bytes by apply crc32_u32.
  destruct (Z.eqb_spec (Zlib.crc32 (stuffed p))
              (Zlib.crc32 (<[k := b]> (stuffed p)))) as [E|]; [|reflexivity].
  exfalso. rewrite insert_take_drop in E by exact Hk.
  rewrite <- (take_drop_middle _ _ _ Ha) in E at 1.
  exact (crc32_one_byte _ _ _ _ Hab E).
Qed.

Lemma crc_rejects_single_byte_witness :
  exists f,
    wrap (Unreliable (ascii_bytes "hello")) = Done f
    /\ (13 <= 15 < 13 + 5)%nat
    /\ f !! 15%nat <> Some "x"%byte
    /\ Protocol.unwrap (<[15%nat := "x"%byte]> f) = Raised ValueError.
Proof.
  eexists.
  split; [vm_compute; reflexivity|].
  split; [lia|].
  split; [vm_compute; congruence|].
  apply (crc_rejects_single_byte (Unreliable (ascii_bytes "hello")));
    [vm_compute; reflexivity|vm_compute; lia|vm_compute; congruence].
Defined.

(** ** [unwrap] on any buffer *)

Section UnwrapFacts.
Import Protocol.

Lemma slice_field_at (data : bytes) (i : Z) :
  0 <= i -> Bytes.slice data i (i + 4) = field_at data i.
Proof.
  intros Hi. rewrite slice_take_drop by lia. unfold field_at.
  replace (Z.to_nat (i + 4 - i)) with 4%nat by lia. reflexivity.
Qed.

Lemma length_field_at (data : bytes) (i : Z) :
  0 <= i ->
  length (field_at data i) = 4%nat <-> i + 4 <= Z.of_nat (length data).
Proof.
  intros Hi. unfold field_at. rewrite length_take, length_drop. lia.
Qed.

(** A field that is in the buffer unpacks to its value; a truncated one
    is a [struct.error]. *)
Lemma unpack_field_at (data : bytes) (i : Z) :
  0 <= i ->
  Struct.unpack_L (field_at data i)
  = if Z.of_nat (length data) <? i + 4 then Raised StructError
    else Done (le32 (field_at data i)).
Proof.
  intros Hi. pose proof (length_field_at data i Hi) as Hl.
  destruct (Z.ltb_spec (Z.of_nat (length data)) (i + 4)).
  - apply unpack_L_short. intros E. apply Hl in E. lia.
  - apply unpack_L_le32. apply Hl. lia.
Qed.

Lemma extract_message_spec (data : bytes) (i : Z) :
  0 <= i ->
  _extract_message data i
  = if Z.of_nat (length data) <? i + 4 then Raised StructError
    else
      let n := le32 (field_at data i) in
      let body := take (Z.to_nat n) (drop (Z.to_nat (i + 4)) data) in
      if Z.of_nat (length data) <? i + 4 + n + 4 then Raised StructError
      else if le32 (field_at data (i + 4 + n)) =? Zlib.crc32 body
           then Done (_unstuff_data body,
                      drop (Z.to_nat (i + 4 + n + 4)) data)
           else Raised ValueError.
Proof.
  intros Hi. unfold _extract_message.
  rewrite slice_field_at, unpack_field_at by lia.
  destruct (Z.ltb_spec (Z.of_nat (length data)) (i + 4)) as [|Hlen];
    [reflexivity|].
  cbn [obind]. cbv zeta.
  pose proof (le32_u32 (field_at data i)
                (proj2 (length_field_at data i Hi) Hlen)) as [Hn0 Hn1].
  set (n := le32 (field_at data i)) in *.
  rewrite slice_field_at, unpack_field_at by lia.
  destruct (Z.ltb_spec (Z.of_nat (length data)) (i + 4 + n + 4));
    [reflexivity|].
  cbn [obind].
  rewrite slice_take_drop by lia. rewrite slice_from_drop by lia.
  replace (Z.to_nat (i + 4 + n - (i + 4))) with (Z.to_nat n) by lia.
  destruct (le32 (field_at data (i + 4 + n)) =? _); reflexivity.
Qed.

Lemma unknown_packet_type (t : Z) :
  ~ (0 <= t <= 4) -> PACKET_TYPE_TO_UNWRAPPER t = Raised KeyError.
Proof.
  intros Ht.
  destruct t as [|q|q]; [lia| |reflexivity].
  destruct q as [[q|q|]|[q|q|]|]; try reflexivity; try lia.
  destruct q; try reflexivity. lia.
Qed.

(** [unwrap], decision by decision. *)
Lemma unwrap_spec (data : bytes) :
  unwrap data
  = if negb (Bytes.startswith BARKER data) then Raised ValueError
    else
      match type_byte data with
      | None => Raised ValueError
      | Some t =>
          let len := Z.of_nat (length data) in
          if negb ((0 <=? t) && (t <=? 4)) then Raised ValueError
          else if len <? header_length t then Raised ValueError
          else if t =? 4 then Done (parsed data t)
          else if len <? header_length t + size_field data t + 4
               then Raised ValueError
          else if le32 (crc_field data t)
                  =? Zlib.crc32 (payload_region data t)
               then Done (parsed data t)
          else Raised ValueError
      end.
Proof.
  unfold unwrap, unwrap_body, type_byte, Bytes.index.
  destruct (Bytes.startswith BARKER data); [|reflexivity].
  cbn [negb]. change (Z.to_nat BARKER_LENGTH) with 8%nat.
  destruct (data !! 8%nat) as [b|]; [|reflexivity].
  cbn [fmap option_fmap option_map obind]. cbv zeta.
  remember (Bytes.to_Z b) as t eqn:Ht. clear Ht b.
  destruct (Z.leb_spec 0 t); [destruct (Z.leb_spec t 4)|];
    cbn [andb negb];
    try (rewrite unknown_packet_type by lia; reflexivity).
  assert (Hcases : t = 0 \/ t = 1 \/ t = 2 \/ t = 3 \/ t = 4) by lia.
  change (BARKER_LENGTH + 1) with 9.
  unfold parsed, payload_region, crc_field, frame_length, size_field.
  destruct Hcases as [->|[->|[->|[->| ->]]]];
    cbn [PACKET_TYPE_TO_UNWRAPPER obind header_length Z.eqb Pos.eqb];
    unfold _unwrap_reliable, _unwrap_unreliable, _unwrap_reliable_stream,
      _unwrap_unreliable_stream, _unwrap_ack;
    change (BARKER_LENGTH + 1) with 9;
    rewrite ?slice_field_at, ?unpack_field_at by lia;
    change (9 + 4) with 13; change (13 + 4) with 17;
    change (17 + 4) with 21; change (17 - 4) with 13;
    change (13 - 4) with 9; change (21 - 4) with 17.
  - (* reliable *)
    destruct (Z.ltb_spec (Z.of_nat (length data)) 13);
      destruct (Z.ltb_spec (Z.of_nat (length data)) 17);
      try lia; try reflexivity; cbn [obind];
      rewrite extract_message_spec by lia;
      change (13 + 4) with 17;
      destruct (Z.ltb_spec (Z.of_nat (length data)) 17); try lia;
      try reflexivity.
    cbv zeta.
    destruct (Z.ltb_spec (Z.of_nat (length data))
                (17 + le32 (field_at data 13) + 4)); [reflexivity|].
    destruct (_ =? _); reflexivity.
  - (* unreliable *)
    rewrite extract_message_spec by lia. change (9 + 4) with 13.
    destruct (Z.ltb_spec (Z.of_nat (length data)) 13); [reflexivity|].
    cbv zeta.
    destruct (Z.ltb_spec (Z.of_nat (length data))
                (13 + le32 (field_at data 9) + 4)); [reflexivity|].
    destruct (_ =? _); reflexivity.
  - (* reliable stream *)
    destruct (Z.ltb_spec (Z.of_nat (length data)) 13);
      destruct (Z.ltb_spec (Z.of_nat (length data)) 17);
      destruct (Z.ltb_spec (Z.of_nat (length data)) 21);
      try lia; try reflexivity; cbn [obind];
      rewrite extract_message_spec by lia;
      change (17 + 4) with 21;
      destruct (Z.ltb_spec (Z.of_nat (length data)) 21); try lia;
      try reflexivity.
    cbv zeta.
    destruct (Z.ltb_spec (Z.of_nat (length data))
                (21 + le32 (field_at data 17) + 4)); [reflexivity|].
    destruct (_ =? _); reflexivity.
  - (* unreliable stream *)
    destruct (Z.ltb_spec (Z.of_nat (length data)) 13);
      destruct (Z.ltb_spec (Z.of_nat (length data)) 17);
      try lia; try reflexivity; cbn [obind];
      rewrite extract_message_spec by lia;
      change (13 + 4) with 17;
      destruct (Z.ltb_spec (Z.of_nat (length data)) 17); try lia;
      try reflexivity.
    cbv zeta.
    destruct (Z.ltb_spec (Z.of_nat (length data))
                (17 + le32 (field_at data 13) + 4)); [reflexivity|].
    destruct (_ =? _); reflexivity.
  - (* ack *)
    destruct (Z.ltb_spec (Z.of_nat (length data)) 13); [reflexivity|].
    cbn [obind]. rewrite slice_from_drop by lia. reflexivity.
Qed.

End UnwrapFacts.

(** C5. Unwrap failure condition: on every buffer, [Protocol.unwrap]
    either raises, and then it raises [ValueError] and the buffer is a bad
    packet (no Barker at offset 0, or a type byte outside 0..4, or a
    truncated header or CRC field, or a CRC field that is not the CRC-32 of
    the stuffed payload bytes), or it returns, and then the buffer is no bad
    packet and the result is the tuple parsed by the layout. *)
Theorem unwrap_failure_condition (data : bytes) :
  (bad_packet data /\ Protocol.unwrap data = Raised ValueError)
  \/ (~ bad_packet data
      /\ exists t, type_byte data = Some t
                   /\ Protocol.unwrap data = Done (parsed data t)).
Proof.
  rewrite unwrap_spec. unfold bad_packet.
  destruct (Bytes.startswith Protocol.BARKER data); cbn [negb];
    [|left; split; [left|]; reflexivity].
  destruct (type_byte data) as [t|]; [|left; split; [right|]; trivial].
  cbv zeta.
  destruct (Z.leb_spec 0 t); [destruct (Z.leb_spec t 4)|]; cbn [andb negb];
    try (left; split; [right; left; lia|reflexivity]).
  destruct (Z.ltb_spec (Z.of_nat (length data)) (header_length t));
    [left; split; [right; right; left; assumption|reflexivity]|].
  destruct (Z.eqb_spec t 4).
  { right. split; [|eauto]. intros [?|[?|[?|[? _]]]];
      try discriminate; try lia; contradiction. }
  destruct (Z.ltb_spec (Z.of_nat (length data))
              (header_length t + size_field data t + 4)).
  { left. split; [|reflexivity]. right. right. right. split; [assumption|].
    left. assumption. }
  destruct (Z.eqb_spec (le32 (crc_field data t))
              (Zlib.crc32 (payload_region data t))).
  - right. split; [|eauto]. intros [?|[?|[?|[_ [?|?]]]]];
      try discriminate; try lia; contradiction.
  - left. split; [|reflexivity]. right. right. right. split; [assumption|].
    right. assumption.
Qed.

(** ** The handler *)

(** C4. An ACK for an id that was never sent. The claim is that the frame
    is logged and that the outstanding-ACK table is left as it is. The
    handler does neither: an assignment to a dictionary never raises
    [KeyError], so the [except] clause that prints is never entered, and
    the assignment adds the id to the table. Here a new client receives
    the frame [wrap_ack(5)]: afterwards the table has the entry
    [5 -> True] and nothing has been printed. *)
Theorem unknown_ack_is_recorded :
  exists f c,
    Protocol.wrap_ack 5 = Done f
    /\ Client.listen_step 1024 (new_client f) = Returned tt c
    /\ _message_id_to_was_acked (new_client f) !! 5 = None
    /\ _message_id_to_was_acked c !! 5 = Some true
    /\ events c = [].
Proof.
  eexists. eexists.
  split; [vm_compute; reflexivity|].
  split; [vm_compute; reflexivity|].
  repeat split.
Qed.

(** The same on every client and for every id that Python takes for
    true: the handler returns, the table maps the id to [True], and nothing
    else of the client changes. *)
Lemma ack_handler_records {P : Type} `{AbstractPeer P} (c : client P)
  (message : option bytes) (message_id stream_id : option Z) (id : Z) :
  id <> 0 ->
  Client._handle_unwrapped_message message message_id stream_id (Some id) c
  = Returned tt
      (Client.set__message_id_to_was_acked
         (<[id := true]> (_message_id_to_was_acked c)) c).
Proof.
  intros Hid. unfold Client._handle_unwrapped_message, truthy.
  destruct (Z.eqb_spec id 0) as [E|_]; [contradiction|]. reflexivity.
Qed.

(** An ACK for the id [0] is not taken for an ACK: [if acked_message_id:]
    is false on [0], and the frame goes to [on_unreliable_message], with
    [None] for the message. *)
Example ack_zero_is_dispatched :
  exists f c,
    Protocol.wrap_ack 0 = Done f
    /\ Client.listen_step 1024 (new_client f) = Returned tt c
    /\ _message_id_to_was_acked c = _message_id_to_was_acked (new_client f)
    /\ events c = [on_unreliable_message None].
Proof.
  eexists. eexists.
  split; [vm_compute; reflexivity|].
  split; [vm_compute; reflexivity|].
  split; reflexivity.
Qed.

Section Preservation.
Context {P B : Type} (field : client P -> B).

Lemma preserves_ret {A} (a : A) : preserves field (ret a).
Proof. intros c. reflexivity. Qed.

Lemma preserves_get : preserves field get.
Proof. intros c. reflexivity. Qed.

Lemma preserves_diverge {A} : preserves field (@diverge P A).
Proof. intros c. reflexivity. Qed.

Lemma preserves_lift {A} (o : outcome A) : preserves field (lift o).
Proof. intros c. destruct o; reflexivity. Qed.

Lemma preserves_modify (f : client P -> client P) :
  (forall c, field (f c) = field c) -> preserves field (modify f).
Proof. intros Hf c. apply Hf. Qed.

Lemma preserves_bind {A A'} (m : M P A) (k : A -> M P A') :
  preserves field m -> (forall a, preserves field (k a)) ->
  preserves field (bind m k).
Proof.
  intros Hm Hk c. unfold bind. specialize (Hm c).
  destruct (m c) as [a c'|e c'|c']; simpl in *; [|exact Hm..].
  rewrite (Hk a c'). exact Hm.
Qed.

End Preservation.

Section HandlerFacts.
Context {P : Type} `{AbstractPeer P}.
Import Client.

Lemma emit_preserves {B} (field : client P -> B) (e : event) :
  (forall ev c, field (set_events ev c) = field c) ->
  preserves field (emit e).
Proof. intros Hf. apply preserves_modify. intros c. apply Hf. Qed.

Lemma chunks_of_preserves {B} (field : client P -> B) (stream_id : Z) :
  preserves field (chunks_of stream_id).
Proof.
  unfold chunks_of. apply preserves_bind; [apply preserves_get|].
  intros c. destruct (_ !! _); [apply preserves_ret|apply preserves_lift].
Qed.

(** Whatever the file branch does, it touches neither the peer nor the
    set of received ids. *)
Lemma file_frame_preserves {B} (field : client P -> B)
  (message : option bytes) (stream_id : Z) :
  (forall ev c, field (set_events ev c) = field c) ->
  (forall t c, field (set_threads t c) = field c) ->
  (forall m c, field (set__file_stream_id_to_chunks m c) = field c) ->
  preserves field (file_frame message stream_id).
Proof.
  intros He Ht Hc. unfold file_frame.
  apply preserves_bind; [apply preserves_lift|]. intros chunk_index.
  apply preserves_bind; [apply preserves_lift|]. intros is_last_chunk.
  destruct (is_last_chunk =? 48).
  - apply preserves_bind; [apply chunks_of_preserves|]. intros chunks.
    apply preserves_bind; [apply preserves_lift|]. intros chunk.
    apply preserves_modify. intros c. apply Hc.
  - destruct (is_last_chunk =? 49).
    + apply preserves_modify. intros c. apply Ht.
    + apply emit_preserves, He.
Qed.

Lemma deliver_reliable_preserves {B} (field : client P -> B)
  (message : option bytes) (stream_id : option Z) :
  (forall ev c, field (set_events ev c) = field c) ->
  (forall t c, field (set_threads t c) = field c) ->
  (forall m c, field (set__file_stream_id_to_chunks m c) = field c) ->
  preserves field (deliver_reliable message stream_id).
Proof.
  intros He Ht Hc. unfold deliver_reliable.
  destruct stream_id as [stream_id|]; [|apply emit_preserves, He].
  destruct (bool_decide _).
  - apply file_frame_preserves; assumption.
  - apply emit_preserves, He.
Qed.

(** The first time the handler sees the id of a reliable message: ACK,
    record, deliver. *)
Lemma handle_first (message : option bytes) (m : Z) (stream_id : option Z)
  (ack : bytes) (c : client P) :
  Protocol.wrap_ack m = Done ack ->
  _messages_ids_that_have_been_received c !! m = None ->
  _handle_unwrapped_message message (Some m) stream_id None c
  = deliver_reliable message stream_id (recorded m (acked_with ack c)).
Proof.
  intros Hack Hm. unfold _handle_unwrapped_message. cbn [truthy].
  unfold bind at 1. rewrite Hack. cbn [lift].
  unfold bind, peer_send, modify, get. cbn. rewrite Hm. reflexivity.
Qed.

(** Every later time: ACK only. *)
Lemma handle_again (message : option bytes) (m : Z) (stream_id : option Z)
  (ack : bytes) (c : client P) :
  Protocol.wrap_ack m = Done ack ->
  is_Some (_messages_ids_that_have_been_received c !! m) ->
  _handle_unwrapped_message message (Some m) stream_id None c
  = Returned tt (acked_with ack c).
Proof.
  intros Hack [x Hm]. unfold _handle_unwrapped_message. cbn [truthy].
  unfold bind at 1. rewrite Hack. cbn [lift].
  unfold bind, peer_send, modify, get. cbn. rewrite Hm. reflexivity.
Qed.

End HandlerFacts.

(** What [unwrap] returns with a message id is a reliable packet: the
    id is a 32-bit value and there is no acked id. *)
Lemma unwrap_reliable_inv (f : bytes) (message : option bytes) (m : Z)
  (stream_id acked : option Z) (redundant : bytes) :
  Protocol.unwrap f = Done (message, Some m, stream_id, acked, redundant) ->
  acked = None /\ u32 m.
Proof.
  rewrite unwrap_spec.
  destruct (negb _); [discriminate|].
  destruct (type_byte f) as [t|]; [|discriminate]. cbv zeta.
  destruct (Z.leb_spec 0 t); [destruct (Z.leb_spec t 4)|]; cbn [andb negb];
    try discriminate.
  destruct (Z.ltb_spec (Z.of_nat (length f)) (header_length t)) as [|Hlen];
    [discriminate|].
  assert (Hid : u32 (le32 (field_at f 9))).
  { apply le32_u32, length_field_at; [lia|].
    assert (13 <= header_length t); [|lia].
    assert (Hc : t = 0 \/ t = 1 \/ t = 2 \/ t = 3 \/ t = 4) by lia.
    destruct Hc as [->|[->|[->|[->| ->]]]]; simpl; lia. }
  assert (Hp : parsed f t = (message, Some m, stream_id, acked, redundant) ->
               acked = None /\ u32 m).
  { assert (Hc : t = 0 \/ t = 1 \/ t = 2 \/ t = 3 \/ t = 4) by lia.
    unfold parsed.
    destruct Hc as [->|[->|[->|[->| ->]]]]; intros E; inversion E; subst;
      split; auto. }
  destruct (t =? 4); [intros E; apply Hp; congruence|].
  destruct (_ <? _); [discriminate|].
  destruct (_ =? _); [intros E; apply Hp; congruence|discriminate].
Qed.



(** ** Reliable sends *)

Section SendFacts.
Import Client.

(** While no other thread sets the entry of the message to [True], the
    loop retransmits once for every unit of fuel and is then still
    running. *)
Lemma wait_for_ack_never (fuel : nat) (message : bytes) (message_id : Z)
  (c : client link) :
  _message_id_to_was_acked c !! message_id = Some false ->
  exists c',
    wait_for_ack undisturbed fuel message message_id c = Running c'
    /\ sent (_peer c') = sent (_peer c) ++ repeat message fuel
    /\ threads c' = threads c.
Proof.
  revert c. induction fuel as [|fuel IH]; intros c Hc.
  - exists c. cbn [wait_for_ack]. unfold bind, get. rewrite Hc.
    rewrite app_nil_r. repeat split.
  - cbn [wait_for_ack]. unfold bind at 1. unfold get at 1. rewrite Hc.
    unfold bind at 1. unfold peer_send at 1. unfold modify at 1.
    unfold bind at 1. unfold sleeping at 1. unfold modify at 1.
    unfold undisturbed at 1.
    destruct (IH (set__peer (send message (_peer c)) c) Hc)
      as (c' & Hrun & Hsent & Hthreads).
    exists c'. split; [exact Hrun|]. split; [|exact Hthreads].
    rewrite Hsent. cbn. rewrite <- app_assoc. reflexivity.
Qed.

(** In every run in which [wait_for_ack] returns, the entry of the
    message is [True]: the ACK has been observed. *)
Lemma wait_for_ack_returns {P : Type} `{AbstractPeer P}
  (sleep : duration -> client P -> client P) (fuel : nat) (message : bytes)
  (message_id : Z) (c c' : client P) :
  wait_for_ack sleep fuel message message_id c = Returned tt c' ->
  _message_id_to_was_acked c' !! message_id = Some true.
Proof.
  revert c. induction fuel as [|fuel IH]; intros c;
    cbn [wait_for_ack]; unfold bind at 1; unfold get at 1;
    destruct (_message_id_to_was_acked c !! message_id) as [[|]|] eqn:Hc;
    try discriminate.
  - intros E. inversion E; subst. exact Hc.
  - intros E. inversion E; subst. exact Hc.
  - unfold bind at 1. unfold peer_send at 1. unfold modify at 1.
    unfold bind at 1. unfold sleeping at 1. unfold modify at 1.
    apply IH.
Qed.

Lemma send_reliable_returns {P : Type} `{AbstractPeer P}
  (sleep : duration -> client P -> client P) (fuel : nat) (message : pydata)
  (c c' : client P) :
  send_reliable sleep fuel message c = Returned tt c' ->
  _message_id_to_was_acked c' !! (_next_message_id c + 1) = Some true.
Proof.
  unfold send_reliable, _get_next_message_id.
  unfold bind at 1. unfold bind at 1. unfold modify at 1.
  unfold bind at 1. unfold get at 1. unfold ret at 1.
  unfold bind at 1. unfold modify at 1.
  unfold bind at 1. unfold lift at 1.
  cbn [_next_message_id set__next_message_id].
  destruct (Protocol.wrap_reliable message (_next_message_id c + 1))
    as [f|e]; [|discriminate].
  unfold bind at 1. unfold _send_message_and_wait_for_ack.
  unfold bind at 1. unfold peer_send at 1. unfold modify at 1.
  unfold bind at 1. unfold sleeping at 1. unfold modify at 1.
  match goal with
  | |- context [wait_for_ack sleep fuel f ?m ?c0] =>
      destruct (wait_for_ack sleep fuel f m c0) as [[] c1|e c1|c1] eqn:Hw;
      try discriminate
  end.
  apply wait_for_ack_returns in Hw.
  unfold start_thread, modify. intros E. inversion E; subst. exact Hw.
Qed.

End SendFacts.

Lemma send_reliable_undisturbed (fuel : nat) (data : bytes) (f : bytes)
  (c : client link) :
  Protocol.wrap_reliable (PyBytes data) (_next_message_id c + 1) = Done f ->
  exists c',
    Client.send_reliable undisturbed fuel (PyBytes data) c = Running c'
    /\ sent (_peer c') = sent (_peer c) ++ repeat f (S fuel)
    /\ threads c' = threads c.
Proof.
  intros Hf. unfold Client.send_reliable, Client._get_next_message_id.
  unfold bind at 1. unfold bind at 1. unfold modify at 1.
  unfold bind at 1. unfold get at 1. unfold ret at 1.
  unfold bind at 1. unfold modify at 1.
  unfold bind at 1. unfold lift at 1.
  cbn [_next_message_id Client.set__next_message_id]. rewrite Hf.
  unfold bind at 1. unfold Client._send_message_and_wait_for_ack.
  unfold bind at 1. unfold Client.peer_send at 1. unfold modify at 1.
  unfold bind at 1. unfold Client.sleeping at 1. unfold modify at 1.
  match goal with
  | |- context [Client.wait_for_ack undisturbed fuel f ?m ?c0] =>
      destruct (wait_for_ack_never fuel f m c0) as (c' & Hrun & Hs & Ht);
      [apply lookup_insert_eq|rewrite Hrun]
  end.
  exists c'. split; [reflexivity|]. split; [|exact Ht].
  rewrite Hs. cbn. rewrite <- app_assoc. reflexivity.
Qed.

(** C3. Non-blocking reliable send. The claim is that [send_reliable]
    returns at once and that the retransmission loop runs in a thread of its
    own. In the code the argument of [Thread] is the call
    [self._send_message_and_wait_for_ack(message, message_id)], not the
    method: the loop runs in the caller. Here a new client sends [b"x"]
    and no ACK ever arrives: whatever the fuel, the call is still running
    when the fuel is used up, the caller itself has transmitted the frame
    [fuel + 1] times, and no thread has been started. *)
Theorem send_reliable_runs_the_loop (fuel : nat) :
  exists f c',
    Protocol.wrap_reliable (PyBytes (ascii_bytes "x")) 1 = Done f
    /\ Client.send_reliable undisturbed fuel (PyBytes (ascii_bytes "x"))
         (new_client [])
       = Running c'
    /\ sent (_peer c') = repeat f (S fuel)
    /\ threads c' = [_listen_thread].
Proof.
  assert (Hf : Protocol.wrap_reliable (PyBytes (ascii_bytes "x")) 1
               = Done (frame (Reliable (ascii_bytes "x") 1)))
    by (vm_compute; reflexivity).
  destruct (send_reliable_undisturbed fuel (ascii_bytes "x") _
              (new_client []) Hf) as (c' & Hrun & Hs & Ht).
  exists (frame (Reliable (ascii_bytes "x") 1)), c'.
  repeat split; assumption.
Qed.

(** ** The receive pipeline *)

Section FindFacts.
Import Bytes.

Lemma find_at_None (sub data : bytes) (i : Z) :
  (forall j, (j <= length data)%nat -> startswith sub (drop j data) = false) ->
  find_at sub data i = None.
Proof.
  revert i. induction data as [|d data IH]; intros i Hno.
  - pose proof (Hno 0%nat ltac:(simpl; lia)) as H0. rewrite drop_0 in H0.
    cbn [find_at]. rewrite H0. reflexivity.
  - pose proof (Hno 0%nat ltac:(simpl; lia)) as H0. rewrite drop_0 in H0.
    cbn [find_at]. rewrite H0.
    apply IH. intros j Hj. apply (Hno (S j)). simpl. lia.
Qed.

Lemma find_at_Some (sub data : bytes) (i : Z) (k : nat) :
  startswith sub (drop k data) = true ->
  (forall j, (j < k)%nat -> startswith sub (drop j data) = false) ->
  find_at sub data i = Some (i + Z.of_nat k).
Proof.
  revert i data. induction k as [|k IH]; intros i data Hk Hno.
  - rewrite drop_0 in Hk. destruct data; cbn [find_at]; rewrite Hk;
      f_equal; lia.
  - destruct data as [|d data].
    + rewrite drop_nil in Hk. pose proof (Hno 0%nat ltac:(lia)) as H0.
      rewrite drop_0 in H0. congruence.
    + cbn [find_at]. pose proof (Hno 0%nat ltac:(lia)) as H0.
      rewrite drop_0 in H0. rewrite H0.
      rewrite (IH (i + 1) data).
      * f_equal. lia.
      * exact Hk.
      * intros j Hj. apply (Hno (S j)). lia.
Qed.

Lemma find_None (sub data : bytes) (start : nat) :
  (forall j, (start <= j <= length data)%nat ->
             startswith sub (drop j data) = false) ->
  find sub data (Z.of_nat start) = None.
Proof.
  intros Hno. unfold find.
  destruct (Z.leb_spec (Z.of_nat start) (Z.of_nat (length data)));
    [|reflexivity].
  apply find_at_None. intros j Hj. rewrite Nat2Z.id, drop_drop.
  rewrite length_drop in Hj. apply Hno. lia.
Qed.

Lemma find_Some (sub data : bytes) (start k : nat) :
  (start <= k <= length data)%nat ->
  startswith sub (drop k data) = true ->
  (forall j, (start <= j < k)%nat -> startswith sub (drop j data) = false) ->
  find sub data (Z.of_nat start) = Some (Z.of_nat k).
Proof.
  intros Hk Hat Hno. unfold find.
  destruct (Z.leb_spec (Z.of_nat start) (Z.of_nat (length data))); [|lia].
  rewrite Nat2Z.id.
  rewrite (find_at_Some sub (drop start data) _ (k - start)).
  - f_equal. lia.
  - rewrite drop_drop. replace (start + (k - start))%nat with k by lia.
    exact Hat.
  - intros j Hj. rewrite drop_drop. apply Hno. lia.
Qed.

End FindFacts.

Section PipelineFacts.
Import Client.

Lemma barker_at_length (data : bytes) (i : nat) :
  barker_at data i = true -> (i + 8 <= length data)%nat.
Proof.
  unfold barker_at. intros Hs. apply startswith_length in Hs.
  rewrite length_drop in Hs. change (length Protocol.BARKER) with 8%nat in Hs.
  lia.
Qed.

Lemma barker_at_positions (data : bytes) (i : nat) :
  barker_at data i = true <-> List.In i (barker_positions data).
Proof.
  unfold barker_positions. rewrite List.filter_In, List.in_seq. split.
  - intros Hs. pose proof (barker_at_length data i Hs). split; [lia|exact Hs].
  - tauto.
Qed.

Lemma barker_at_drop (data : bytes) (k i : nat) :
  barker_at (drop k data) i = barker_at data (k + i).
Proof. unfold barker_at. rewrite drop_drop. reflexivity. Qed.

Lemma not_true_false (b : bool) : ~ b = true -> b = false.
Proof. destruct b; [intros Hb; exfalso; apply Hb; reflexivity|reflexivity]. Qed.

Lemma length_frame (p : packet) : (13 <= length (frame p))%nat.
Proof.
  unfold frame. rewrite length_app, length_header. destruct p; simpl; lia.
Qed.

(** The handler as [handle_packet] calls it on a frame without redundant
    bytes. *)
Lemma handle_packet_frame {P : Type} `{AbstractPeer P} (p : packet)
  (c : client P) :
  well_formed p ->
  handle_packet (frame p) c = handle (unwrapped_of p) c.
Proof.
  intros Hwf. unfold handle_packet. rewrite (unwrap_frame p Hwf).
  destruct p; reflexivity.
Qed.

End PipelineFacts.

(** ** The listener, step by step *)

Section StepFacts.
Context {P : Type} `{AbstractPeer P}.
Variable CHUNK_SIZE : Z.

Lemma bind_ext {A B} (m m' : M P A) (k k' : A -> M P B) (c : client P) :
  m c = m' c -> (forall a c', k a c' = k' a c') -> bind m k c = bind m' k' c.
Proof.
  intros Hm Hk. unfold bind. rewrite Hm.
  destruct (m' c); [apply Hk|reflexivity..].
Qed.

Lemma bind_assoc {A B C} (m : M P A) (k : A -> M P B) (k' : B -> M P C)
  (c : client P) :
  bind (bind m k) k' c = bind m (fun a => bind (k a) k') c.
Proof. unfold bind. destruct (m c); reflexivity. Qed.

Lemma bind_ret_r (m : M P unit) (c : client P) :
  bind m (fun _ => ret tt) c = m c.
Proof. unfold bind, ret. destruct (m c) as [[] c'|e c'|c']; reflexivity. Qed.

Lemma for_each_app {A} (xs ys : list A) (f : A -> M P unit) (c : client P) :
  for_each (xs ++ ys) f c = (doM _ <- for_each xs f; for_each ys f) c.
Proof.
  revert c. induction xs as [|x xs IH]; intros c; [reflexivity|].
  cbn [app for_each]. rewrite bind_assoc.
  apply bind_ext; [reflexivity|]. intros _ c'. apply IH.
Qed.

Lemma run_app (xs ys : list step) (c : client P) :
  run CHUNK_SIZE (xs ++ ys) c
  = (doM _ <- run CHUNK_SIZE xs; run CHUNK_SIZE ys) c.
Proof. apply for_each_app. Qed.

Lemma run_cons (x : step) (xs : list step) (c : client P) :
  run CHUNK_SIZE (x :: xs) c
  = (doM _ <- perform CHUNK_SIZE x; run CHUNK_SIZE xs) c.
Proof. reflexivity. Qed.

Lemma run_one (x : step) (c : client P) :
  run CHUNK_SIZE [x] c = perform CHUNK_SIZE x c.
Proof. unfold run. cbn [for_each]. apply bind_ret_r. Qed.

Lemma unwrap_raises (data : bytes) (e : exn) :
  Protocol.unwrap data = Raised e -> e = ValueError.
Proof.
  unfold Protocol.unwrap. destruct (Protocol.unwrap_body data); congruence.
Qed.

Lemma handle_packet_steps (packet : bytes) (c : client P) :
  Client.handle_packet packet c = run CHUNK_SIZE (packet_steps packet) c.
Proof.
  unfold Client.handle_packet, packet_steps.
  destruct (Protocol.unwrap packet)
    as [[[[[message message_id] stream_id] acked] redundant]|e] eqn:Hu.
  - destruct redundant as [|x xs].
    + cbn [app]. rewrite run_one. reflexivity.
    + cbn [app]. rewrite run_cons. apply bind_ext; [reflexivity|].
      intros _ c'. rewrite run_one. reflexivity.
  - apply unwrap_raises in Hu. subst e. rewrite run_one. reflexivity.
Qed.

Lemma for_each_handle_packet (packets : list bytes) (c : client P) :
  for_each packets Client.handle_packet c
  = run CHUNK_SIZE (flat_map packet_steps packets) c.
Proof.
  revert c. induction packets as [|packet packets IH]; intros c;
    [reflexivity|].
  cbn [for_each flat_map]. rewrite run_app.
  apply bind_ext; [apply handle_packet_steps|]. intros _ c'. apply IH.
Qed.

(** A round of the listener is the call of [receive] and the steps of
    [round]. *)
Lemma listen_round_steps (data : bytes) (c : client P) :
  Client.listen_round CHUNK_SIZE data c
  = (doM _ <- run CHUNK_SIZE
                (fst (round data (fst (receive CHUNK_SIZE (_peer c)))));
     ret (snd (round data (fst (receive CHUNK_SIZE (_peer c))))))
      (Client.set__peer (snd (receive CHUNK_SIZE (_peer c))) c).
Proof.
  unfold Client.listen_round. unfold bind at 1. unfold Client.peer_receive.
  destruct (receive CHUNK_SIZE (_peer c)) as [new_data peer'].
  cbn [fst snd]. unfold round.
  destruct new_data as [|x xs]; [reflexivity|].
  destruct (Bytes.find Protocol.BARKER (data ++ x :: xs) 0) as [i|].
  - unfold process.
    destruct (Protocol.unwrap _)
      as [[[[[message message_id] stream_id] acked] redundant]|e] eqn:Hu;
      cbn [fst snd].
    + symmetry. etransitivity.
      { apply bind_ext; [apply run_app|intros; reflexivity]. }
      rewrite bind_assoc. symmetry.
      apply bind_ext; [apply for_each_handle_packet|]. intros _ c'.
      apply bind_ext; [symmetry; apply run_one|reflexivity].
    + apply unwrap_raises in Hu. subst e.
      apply bind_ext; [apply for_each_handle_packet|reflexivity].
  - cbn [fst snd]. apply bind_ext; [symmetry; apply run_one|reflexivity].
Qed.

Lemma bind_returned {A B} (m : M P A) (k : A -> M P B) (c c' : client P)
  (a : A) :
  m c = Returned a c' -> bind m k c = k a c'.
Proof. intros Hm. unfold bind. rewrite Hm. reflexivity. Qed.

Lemma perform_receive (c : client P) :
  perform CHUNK_SIZE Receive c
  = Returned tt (Client.set__peer (snd (receive CHUNK_SIZE (_peer c))) c).
Proof.
  unfold perform, bind, Client.peer_receive.
  destruct (receive CHUNK_SIZE (_peer c)). reflexivity.
Qed.

Lemma listen_step_steps (c : client P) :
  Client.listen_step CHUNK_SIZE c
  = run CHUNK_SIZE
      (Receive
         :: fst (round (listener_data c) (fst (receive CHUNK_SIZE (_peer c))))
         ++ [Keep (snd (round (listener_data c)
                          (fst (receive CHUNK_SIZE (_peer c)))))])
      c.
Proof.
  unfold Client.listen_step. unfold bind at 1. unfold get at 1.
  unfold bind at 1. rewrite listen_round_steps.
  rewrite run_cons, (bind_returned _ _ _ _ _ (perform_receive c)).
  rewrite run_app. unfold bind.
  destruct (run CHUNK_SIZE _ _) as [[] c1|e c1|c1]; reflexivity.
Qed.

End StepFacts.

Section RoundsFacts.
Import Client.

Lemma preserves_try_except {P A B} (field : client P -> B) (body : M P A)
  (e0 : exn) (handler : M P A) :
  preserves field body -> preserves field handler ->
  preserves field (try_except body e0 handler).
Proof.
  intros Hb Hh c. unfold try_except. specialize (Hb c).
  destruct (body c) as [a c'|e c'|c']; simpl in *; try exact Hb.
  destruct (exn_eqb e e0); [rewrite (Hh c')|]; exact Hb.
Qed.

Lemma preserves_finally_return {P B} (field : client P -> B)
  (body : M P unit) :
  preserves field body -> preserves field (finally_return body).
Proof.
  intros Hb c. unfold finally_return. specialize (Hb c).
  destruct (body c) as [a c'|e c'|c']; exact Hb.
Qed.

Lemma handle_preserves {P B} `{AbstractPeer P} (field : client P -> B)
  (t : unwrapped) :
  beside_handler field -> preserves field (handle t).
Proof.
  intros (Hsend & Hev & Hth & Hch & Hack & Hrec).
  destruct t as [[[[message message_id] stream_id] acked] redundant].
  unfold handle, _handle_unwrapped_message.
  destruct (truthy acked) as [a|].
  - apply preserves_finally_return, preserves_try_except.
    + apply preserves_modify. intros c. apply Hack.
    + apply emit_preserves, Hev.
  - destruct message_id as [m|].
    + apply preserves_bind; [apply preserves_lift|]. intros ack.
      apply preserves_bind; [apply preserves_modify; intros c; apply Hsend|].
      intros _. apply preserves_bind; [apply preserves_get|]. intros c0.
      destruct (_ !! _); [apply preserves_ret|].
      apply preserves_bind; [apply preserves_modify; intros c; apply Hrec|].
      intros _. apply deliver_reliable_preserves; assumption.
    + destruct stream_id; apply emit_preserves, Hev.
Qed.

Lemma run_inner_preserves {P B} `{AbstractPeer P} (CHUNK_SIZE : Z)
  (field : client P -> B) (steps : list step) :
  beside_handler field -> Forall inner steps ->
  preserves field (run CHUNK_SIZE steps).
Proof.
  intros Hf Hs. induction Hs as [|s steps Hs _ IH].
  - apply preserves_ret.
  - unfold run. cbn [for_each]. apply preserves_bind; [|intros _; exact IH].
    destruct s; try contradiction.
    + apply emit_preserves, Hf.
    + apply handle_preserves, Hf.
Qed.

Lemma packet_steps_inner (packet : bytes) : Forall inner (packet_steps packet).
Proof.
  unfold packet_steps.
  destruct (Protocol.unwrap packet) as [[arguments [|x xs]]|e];
    repeat constructor.
Qed.

Lemma round_inner (data new_data : bytes) :
  Forall inner (fst (round data new_data)).
Proof.
  unfold round. destruct new_data as [|x xs]; [constructor|].
  destruct (Bytes.find _ _ _); [|repeat constructor].
  unfold process.
  assert (Hs : forall packets, Forall inner (flat_map packet_steps packets)).
  { induction packets as [|p ps IH]; [constructor|]. cbn [flat_map].
    apply Forall_app. split; [apply packet_steps_inner|exact IH]. }
  destruct (Protocol.unwrap _) as [[arguments redundant]|e]; cbn [fst].
  - apply Forall_app. split; [apply Hs|repeat constructor].
  - apply Hs.
Qed.

End RoundsFacts.

Section ScriptFacts.
Import Client.
Variable CHUNK_SIZE : Z.

Lemma bind_ext_returned {P A B} (m m' : M P A) (k k' : A -> M P B)
  (c : client P) :
  m c = m' c -> (forall a c', m' c = Returned a c' -> k a c' = k' a c') ->
  bind m k c = bind m' k' c.
Proof.
  intros Hm Hk. unfold bind. rewrite Hm.
  destruct (m' c) as [a c'|e c'|c']; [apply Hk|..]; reflexivity.
Qed.

Lemma preserved {P A B} (field : client P -> B) (m : M P A) (c c' : client P)
  (a : A) :
  preserves field m -> m c = Returned a c' -> field c' = field c.
Proof. intros Hp Hm. specialize (Hp c). rewrite Hm in Hp. exact Hp. Qed.

Lemma beside_incoming : beside_handler (fun c : client link => incoming (_peer c)).
Proof. repeat split. Qed.

Lemma beside_listener_data {P} `{AbstractPeer P} :
  beside_handler (@listener_data P).
Proof. repeat split. Qed.

Lemma receive_piece (piece : bytes) (pieces : list bytes) (l : link) :
  incoming l = piece :: pieces -> Z.of_nat (length piece) <= CHUNK_SIZE ->
  fst (receive CHUNK_SIZE l) = piece
  /\ incoming (snd (receive CHUNK_SIZE l)) = pieces.
Proof.
  intros Hl Hp. cbn [receive link_peer]. rewrite Hl. cbn [fst snd incoming].
  rewrite take_ge, drop_ge by lia. split; reflexivity.
Qed.

Lemma script_cons (data piece : bytes) (pieces : list bytes) :
  script data (piece :: pieces)
  = (Receive :: fst (round data piece) ++ [Keep (snd (round data piece))])
      ++ script (snd (round data piece)) pieces.
Proof. cbn [script app]. rewrite <- app_assoc. reflexivity. Qed.

(** What a round leaves: the pieces still to read and the buffer kept. *)
Lemma round_leaves (data piece : bytes) (pieces : list bytes)
  (c c' : client link) :
  listener_data c = data ->
  incoming (_peer c) = piece :: pieces ->
  Z.of_nat (length piece) <= CHUNK_SIZE ->
  run CHUNK_SIZE
    (Receive :: fst (round data piece) ++ [Keep (snd (round data piece))]) c
  = Returned tt c' ->
  incoming (_peer c') = pieces /\ listener_data c' = snd (round data piece).
Proof.
  intros Hd Hin Hp.
  destruct (receive_piece piece pieces (_peer c) Hin Hp) as [Hr Hrest].
  rewrite run_cons, (bind_returned _ _ _ _ _ (perform_receive CHUNK_SIZE c)).
  rewrite run_app. unfold bind.
  destruct (run CHUNK_SIZE (fst (round data piece)) _) as [[] c1|e c1|c1]
    eqn:Hrun; try discriminate.
  rewrite run_one. cbn [perform modify]. intros E. inversion E; subst c'.
  cbn [_peer listener_data set_listener_data]. split; [|reflexivity].
  rewrite (preserved (fun c : client link => incoming (_peer c)) _ _ _ _
             (run_inner_preserves CHUNK_SIZE _ _ beside_incoming
                (round_inner data piece)) Hrun).
  exact Hrest.
Qed.

(** The rounds in which the listener reads the pieces that have arrived,
    one piece in each round, are the steps of [script]. *)
Lemma rounds_script (pieces : list bytes) (c : client link) :
  incoming (_peer c) = pieces ->
  Forall (fun piece => Z.of_nat (length piece) <= CHUNK_SIZE) pieces ->
  rounds CHUNK_SIZE (length pieces) c
  = run CHUNK_SIZE (script (listener_data c) pieces) c.
Proof.
  intros Hin Hfit. revert c Hin.
  induction Hfit as [|piece pieces Hp _ IH]; intros c Hin; [reflexivity|].
  destruct (receive_piece piece pieces (_peer c) Hin Hp) as [Hr Hrest].
  cbn [length rounds]. rewrite script_cons, run_app.
  apply bind_ext_returned.
  - rewrite listen_step_steps, Hr. reflexivity.
  - intros [] c' Hrun.
    destruct (round_leaves _ _ _ _ _ eq_refl Hin Hp Hrun) as [Hin' Hd'].
    rewrite <- Hd'. apply IH, Hin'.
Qed.

End ScriptFacts.

Section FramePieces.
Import Protocol.

Lemma startswith_app_l (p a b : bytes) :
  Bytes.startswith p a = true -> Bytes.startswith p (a ++ b) = true.
Proof.
  intros Hs. apply startswith_inv in Hs. rewrite Hs, <- app_assoc.
  apply startswith_app.
Qed.

Lemma startswith_app_inv (p a b : bytes) :
  Bytes.startswith p (a ++ b) = true -> (length p <= length a)%nat ->
  Bytes.startswith p a = true.
Proof.
  revert a. induction p as [|x p IH]; intros a Hs Hl; [reflexivity|].
  destruct a as [|y a]; [simpl in Hl; lia|].
  simpl in Hs |- *. apply andb_true_iff in Hs as [-> Hs]. simpl.
  apply IH; [exact Hs|simpl in Hl; lia].
Qed.

(** The Barkers of a prefix are the Barkers of the whole that end in the
    prefix. *)
Lemma barker_at_prefix (X rest : bytes) (i : nat) :
  barker_at X i = true
  <-> barker_at (X ++ rest) i = true /\ (i + 8 <= length X)%nat.
Proof.
  split.
  - intros Hs. pose proof (barker_at_length X i Hs) as Hl.
    split; [|exact Hl]. unfold barker_at in *.
    rewrite drop_app_le by lia. apply startswith_app_l, Hs.
  - intros [Hs Hl]. unfold barker_at in *.
    rewrite drop_app_le in Hs by lia.
    apply (startswith_app_inv _ _ _ Hs). rewrite length_drop.
    change (length BARKER) with 8%nat. lia.
Qed.

Lemma frame_type_byte (p : packet) :
  type_byte (frame p) = Some (packet_type p).
Proof. destruct p; reflexivity. Qed.

Lemma header_length_offset (p : packet) :
  header_length (packet_type p) = Z.of_nat (payload_offset p).
Proof. destruct p; reflexivity. Qed.

Lemma frame_size_field (p : packet) :
  well_formed p -> is_data p = true ->
  size_field (frame p) (packet_type p) = Z.of_nat (length (stuffed p)).
Proof.
  intros Hwf Hd.
  assert (Hn : u32 (Z.of_nat (length (stuffed p)))).
  { apply (proj1 (List.Forall_forall _ _) Hwf).
    destruct p; try discriminate; cbn [fields List.In]; tauto. }
  rewrite <- (le32_le_bytes _ Hn).
  destruct p; try discriminate; reflexivity.
Qed.

Lemma frame_length_data (p : packet) :
  is_data p = true ->
  length (frame p) = (payload_offset p + length (stuffed p) + 4)%nat.
Proof.
  intros Hd. unfold frame. rewrite length_app, length_header.
  destruct p; try discriminate; cbn [trailer]; rewrite length_app;
    rewrite length_le_bytes; lia.
Qed.

Lemma field_at_take (data : bytes) (i : Z) (j : nat) :
  0 <= i -> i + 4 <= Z.of_nat j ->
  field_at (take j data) i = field_at data i.
Proof.
  intros Hi Hj. unfold field_at.
  assert (E : drop (Z.to_nat i) (take j data)
              = take (j - Z.to_nat i) (drop (Z.to_nat i) data)).
  { rewrite take_drop_commute. do 2 f_equal. lia. }
  rewrite E, take_take. f_equal. lia.
Qed.

(** A frame that has not arrived whole is a bad packet. *)
Lemma unwrap_prefix (p : packet) (j : nat) :
  well_formed p -> (j < length (frame p))%nat ->
  unwrap (take j (frame p)) = Raised ValueError.
Proof.
  intros Hwf Hj. rewrite unwrap_spec.
  destruct (negb _); [reflexivity|].
  unfold type_byte. destruct (le_lt_dec j 8) as [H8|H8].
  { rewrite lookup_take_ge by lia. reflexivity. }
  rewrite lookup_take_lt by lia.
  change (Bytes.to_Z <$> frame p !! 8%nat) with (type_byte (frame p)).
  rewrite frame_type_byte. cbv zeta.
  assert (Ht : 0 <= packet_type p <= 4) by (destruct p; simpl; lia).
  destruct (Z.leb_spec 0 (packet_type p)); [|lia].
  destruct (Z.leb_spec (packet_type p) 4); [|lia]. cbn [andb negb].
  rewrite length_take, header_length_offset.
  destruct (Z.ltb_spec (Z.of_nat (j `min` length (frame p)))
              (Z.of_nat (payload_offset p))) as [|Hh]; [reflexivity|].
  destruct (is_data p) eqn:Hd.
  - assert (Hne : packet_type p <> 4) by (destruct p; discriminate).
    destruct (Z.eqb_spec (packet_type p) 4); [contradiction|].
    unfold size_field. rewrite field_at_take;
      [|destruct p; simpl; lia|rewrite header_length_offset; lia].
    fold (size_field (frame p) (packet_type p)).
    rewrite (frame_size_field p Hwf Hd).
    rewrite (frame_length_data p Hd) in *.
    destruct (Z.ltb_spec (Z.of_nat (j `min` (payload_offset p
                                               + length (stuffed p) + 4)))
                (Z.of_nat (payload_offset p)
                 + Z.of_nat (length (stuffed p)) + 4)); [reflexivity|lia].
  - destruct p; try discriminate. simpl in Hj, Hh. lia.
Qed.

(** A frame followed by other bytes is unwrapped, and the other bytes are
    the redundant bytes. *)
Lemma unwrap_frame_tail (p : packet) (tail : bytes) :
  well_formed p ->
  unwrap (frame p ++ tail) = Done (arguments_of p, tail).
Proof.
  intros Hwf. destruct (is_data p) eqn:Hd.
  - unfold frame.
    replace (trailer p (le_bytes (Zlib.crc32 (stuffed p))))
      with (stuffed p ++ le_bytes (Zlib.crc32 (stuffed p)))
      by (destruct p; try discriminate; reflexivity).
    rewrite <- !app_assoc.
    rewrite unwrap_laid_out by (try reflexivity; assumption).
    rewrite le32_le_bytes by apply crc32_u32.
    rewrite Z.eqb_refl.
    destruct p; try discriminate; cbn [stuffed]; rewrite unstuff_stuff;
      reflexivity.
  - destruct p; try discriminate.
    unfold frame, header.
    cbn [fields packet_type concat map trailer].
    rewrite !app_nil_r, <- !app_assoc.
    apply unwrap_ack_frame.
    apply (proj1 (List.Forall_forall _ _) Hwf). cbn [fields List.In]. tauto.
Qed.

End FramePieces.

Section ProcessFacts.
Import Client.

Lemma extract_one (X : bytes) :
  (forall j, (8 <= j)%nat -> barker_at X j = false) ->
  _extract_packets X = [X].
Proof.
  intros Hno. unfold _extract_packets.
  assert (Hloop : barker_indexes_loop (length X) X [0] = [0]).
  { destruct (length X); [reflexivity|].
    cbn [barker_indexes_loop List.last].
    change (0 + Protocol.BARKER_LENGTH) with (Z.of_nat 8).
    rewrite find_None; [reflexivity|]. intros j Hj. apply Hno. lia. }
  rewrite Hloop. cbn [packets_between List.last app].
  rewrite slice_from_drop by lia. reflexivity.
Qed.

Lemma unwrap_whole (p : packet) :
  well_formed p -> Protocol.unwrap (frame p) = Done (arguments_of p, []).
Proof.
  intros Hwf. rewrite <- (app_nil_r (frame p)) at 1.
  apply unwrap_frame_tail, Hwf.
Qed.

(** A frame that has no other Barker than its own, and that has not
    arrived whole, is kept. *)
Lemma process_partial (p : packet) (j : nat) :
  well_formed p ->
  (forall i, barker_at (frame p) i = true -> i = 0%nat) ->
  (j < length (frame p))%nat ->
  process (take j (frame p)) = ([], take j (frame p)).
Proof.
  intros Hwf Hocc Hj. unfold process.
  rewrite extract_one.
  - cbn [removelast last_packet List.last flat_map].
    rewrite (unwrap_prefix p j Hwf Hj). reflexivity.
  - intros i Hi. apply not_true_false. intros E.
    rewrite <- (take_drop j (frame p)) in Hocc.
    apply (barker_at_prefix _ (drop j (frame p))) in E as [E _].
    apply Hocc in E. lia.
Qed.

(** Such a frame, arrived whole, is dispatched. *)
Lemma process_whole (p : packet) :
  well_formed p ->
  (forall i, barker_at (frame p) i = true -> i = 0%nat) ->
  process (frame p) = ([Dispatch (arguments_of p)], []).
Proof.
  intros Hwf Hocc. unfold process.
  rewrite extract_one.
  - cbn [removelast last_packet List.last flat_map].
    rewrite (unwrap_whole p Hwf). reflexivity.
  - intros i Hi. apply not_true_false. intros E. apply Hocc in E. lia.
Qed.

Lemma packet_steps_whole (p : packet) :
  well_formed p -> packet_steps (frame p) = [Dispatch (arguments_of p)].
Proof.
  intros Hwf. unfold packet_steps. rewrite (unwrap_whole p Hwf). reflexivity.
Qed.

End ProcessFacts.

Section ShapeFacts.

Lemma dispatched_app (xs ys : list step) :
  dispatched (xs ++ ys) = dispatched xs ++ dispatched ys.
Proof.
  induction xs as [|[] xs IH]; cbn [app dispatched]; rewrite ?IH; reflexivity.
Qed.

Lemma calls_exactly_app (xs ys : list step) (cx cy : list call) :
  calls_exactly xs cx -> calls_exactly ys cy ->
  calls_exactly (xs ++ ys) (cx ++ cy).
Proof.
  intros [Hx Fx] [Hy Fy]. split.
  - rewrite dispatched_app, Hx, Hy. reflexivity.
  - apply Forall_app. split; assumption.
Qed.

Lemma calls_exactly_quiet (s : step) (steps : list step) (calls : list call) :
  quiet s -> calls_exactly steps calls -> calls_exactly (s :: steps) calls.
Proof.
  intros Hs [Hd Hc]. split.
  - destruct s; try contradiction; exact Hd.
  - constructor; [|exact Hc]. destruct s as [|[]| |]; try contradiction; exact I.
Qed.

Lemma round_empty (data : bytes) : round data [] = ([], data).
Proof. reflexivity. Qed.

Lemma slice_from_last7 (X : bytes) :
  Bytes.slice_from X (- (Protocol.BARKER_LENGTH - 1)) = drop (length X - 7) X.
Proof.
  unfold Bytes.slice_from, Bytes.bound.
  change (- (Protocol.BARKER_LENGTH - 1)) with (-7). cbn [Z.ltb Z.compare].
  f_equal. lia.
Qed.

(** A round that finds no Barker. *)
Lemma round_none (data piece : bytes) :
  piece <> [] -> (forall i, barker_at (data ++ piece) i = false) ->
  round data piece
  = ([Log (Bad_data (data ++ piece))],
     drop (length (data ++ piece) - 7) (data ++ piece)).
Proof.
  intros Hp Hno. unfold round. destruct piece as [|x xs]; [contradiction|].
  rewrite (find_None _ _ 0); [|intros j _; apply Hno].
  rewrite slice_from_last7. reflexivity.
Qed.

(** A round that finds its first Barker at [k]. *)
Lemma round_found (data piece : bytes) (k : nat) :
  piece <> [] -> barker_at (data ++ piece) k = true ->
  (forall j, (j < k)%nat -> barker_at (data ++ piece) j = false) ->
  round data piece = process (drop k (data ++ piece)).
Proof.
  intros Hp Hk Hno. unfold round. destruct piece as [|x xs]; [contradiction|].
  pose proof (barker_at_length _ _ Hk) as Hl.
  rewrite (find_Some _ _ 0 k); [|lia|exact Hk|intros j Hj; apply Hno; lia].
  rewrite slice_from_drop by lia. rewrite Nat2Z.id. reflexivity.
Qed.

End ShapeFacts.

Lemma piece_advances (W piece rest : bytes) (k : nat) :
  (k <= length W)%nat -> piece ++ rest = drop k W ->
  take k W ++ piece = take (k + length piece) W
  /\ rest = drop (k + length piece) W
  /\ (k + length piece <= length W)%nat.
Proof.
  intros Hk Hd.
  assert (HW : W = (take k W ++ piece) ++ rest).
  { rewrite <- app_assoc, Hd, take_drop. reflexivity. }
  assert (Hl : length (take k W ++ piece) = (k + length piece)%nat).
  { rewrite length_app, length_take. lia. }
  split; [|split].
  - rewrite HW at 2. rewrite <- Hl, take_app_length. reflexivity.
  - rewrite HW at 1. rewrite <- Hl, drop_app_length. reflexivity.
  - apply (f_equal length) in HW. rewrite length_app, Hl in HW. lia.
Qed.

Lemma frame_barker (p : packet) (rest : bytes) :
  barker_at (frame p ++ rest) 0 = true.
Proof.
  unfold barker_at, frame, header. rewrite drop_0, <- !app_assoc.
  apply startswith_app.
Qed.

(** ** File transfer *)

(** C8. File transfer end to end, with [CHUNK_SIZE = 2] and a file
    [hello.txt] that holds [b"ABC"].
    The sender: [send_file] starts the thread of [_handle_file_send]; this
    thread, the ACK of each frame arriving while it sleeps, gives the peer
    exactly the four frames of [hello_frames], all on the file-transfer
    stream 7771: chunk 0 with the name and flag ['0'], chunk 1 with
    [b"AB"], chunk 2 with [b"C"], chunk 3 with flag ['1'] and no data.
    The receiver: its listener, reading these four frames, answers with
    the four ACKs that the sender was given, stores the three chunks and
    starts the thread of [_handle_file_chunks] for stream 7771 and 3
    chunks, without any upcall; this thread calls
    [on_file("hello.txt", b"ABC")], once, and leaves the chunk table of
    the stream empty. *)
Theorem file_transfer_end_to_end :
  exists A1 A2 B1 B2 : client link,
    Client.send_file hello_files (text "hello.txt")
      (new_client_awaiting hello_acks)
    = Returned tt A1
    /\ threads A1
       = [_listen_thread; _handle_file_send_thread (text "hello.txt")]
    /\ Client._handle_file_send 2 (arrival_and_listener 2 7) hello_files 8
         (text "hello.txt") A1
       = Returned tt A2
    /\ sent (_peer A2) = hello_frames
    /\ Client._listen 2 66 (new_client (concat hello_frames)) = Running B1
    /\ sent (_peer B1) = hello_acks
    /\ upcalls B1 = []
    /\ _file_stream_id_to_chunks B1 !! 7771
       = Some (list_to_map [(0, ascii_bytes "hello.txt");
                            (1, ascii_bytes "AB"); (2, ascii_bytes "C")])
    /\ threads B1 = [_listen_thread; _handle_file_chunks_thread 7771 3]
    /\ Client._handle_file_chunks undisturbed 0 7771 3 B1 = Returned tt B2
    /\ upcalls B2 = [on_file (text "hello.txt") (ascii_bytes "ABC")]
    /\ _file_stream_id_to_chunks B2 !! 7771 = Some ∅.
Proof.
  do 4 eexists.
  split; [vm_compute; reflexivity|].
  split; [vm_compute; reflexivity|].
  split; [vm_compute; reflexivity|].
  split; [vm_compute; reflexivity|].
  split; [vm_compute; reflexivity|].
  split; [vm_compute; reflexivity|].
  split; [vm_compute; reflexivity|].
  split; [vm_compute; reflexivity|].
  split; [vm_compute; reflexivity|].
  split; [vm_compute; reflexivity|].
  split; vm_compute; reflexivity.
Qed.

(** * Further properties of the code *)

(** ** The codec *)

Section StuffedFacts.
Import Bytes Protocol.

Lemma stuffed_no_barker (data : bytes) (i : nat) :
  barker_at (_stuff_data data) i = false.
Proof.
  remember (length data) as n eqn:Hn. revert data Hn i.
  induction n as [n IH] using lt_wf_ind. intros data Hn i.
  destruct data as [|d data].
  { unfold barker_at. rewrite stuff_nil, drop_nil. reflexivity. }
  rewrite stuff_cons.
  destruct (startswith BEFORE_STUFF (d :: data)) eqn:Hb.
  - destruct (le_lt_dec 8 i) as [Hi|Hi].
    + replace i with (length AFTER_STUFF + (i - 8))%nat
        by (change (length AFTER_STUFF) with 8%nat; lia).
      rewrite <- barker_at_drop, drop_app_length.
      apply (IH (length (drop 7 (d :: data)))); [|reflexivity].
      subst n. rewrite length_drop. simpl. lia.
    + unfold barker_at.
      do 8 (destruct i as [|i]; [reflexivity|]). lia.
  - destruct i as [|i].
    + apply not_true_false. intros E. unfold barker_at in E.
      rewrite drop_0 in E. simpl in E.
      apply andb_true_iff in E as [Hd E].
      change (startswith (ascii_bytes "ADFDADF") (_stuff_data data) = true)
        in E.
      apply startswith_stuff_inv in E.
      * apply startswith_inv in E. rewrite E in Hb.
        apply Byte.byte_dec_bl in Hd. subst d.
        simpl in Hb. discriminate.
      * repeat constructor; discriminate.
    + change (barker_at (d :: _stuff_data data) (S i))
        with (barker_at (_stuff_data data) i).
      apply (IH (length data)); [subst n; simpl; lia|reflexivity].
Qed.

End StuffedFacts.

(** X1. Byte stuffing is undone by unstuffing, for every payload. *)
Theorem stuffing_round_trip (data : bytes) :
  Protocol._unstuff_data (Protocol._stuff_data data) = data.
Proof. apply unstuff_stuff. Qed.

(** X2. A stuffed payload holds no Barker: no Barker starts at any place
    of [_stuff_data data], and the search of the listener,
    [find(BARKER)], finds none in it. *)
Theorem stuffed_payload_has_no_barker (data : bytes) :
  barker_positions (Protocol._stuff_data data) = []
  /\ Bytes.find Protocol.BARKER (Protocol._stuff_data data) 0 = None.
Proof.
  split.
  - destruct (barker_positions (Protocol._stuff_data data)) as [|i l] eqn:E;
      [reflexivity|].
    assert (Hin : In i (barker_positions (Protocol._stuff_data data)))
      by (rewrite E; left; reflexivity).
    apply barker_at_positions in Hin.
    rewrite stuffed_no_barker in Hin. discriminate.
  - apply (find_None _ _ 0). intros j _. apply stuffed_no_barker.
Qed.

(** X3. Two packets that a [wrap_*] function gives the same frame are the
    same packet: the type, the ids and the payload can be read back from
    the frame. *)
Theorem frames_are_distinct (p q : packet) (f : bytes) :
  wrap p = Done f -> wrap q = Done f -> p = q.
Proof.
  intros Hp Hq.
  apply wrap_inv in Hp as [Hwp ->]. apply wrap_inv in Hq as [Hwq Hf].
  pose proof (unwrap_frame p Hwp) as Up.
  pose proof (unwrap_frame q Hwq) as Uq.
  rewrite <- Hf in Uq. rewrite Up in Uq.
  destruct p, q; cbn [unwrapped_of] in Uq; congruence.
Qed.

Lemma frames_are_distinct_witness :
  wrap (UnreliableStream (ascii_bytes "BADFDADF") 7) = Done
    (frame (UnreliableStream (ascii_bytes "BADFDADF") 7))
  /\ UnreliableStream (ascii_bytes "BADFDADF") 7
     = UnreliableStream (ascii_bytes "BADFDADF") 7.
Proof.
  assert (Hw : wrap (UnreliableStream (ascii_bytes "BADFDADF") 7)
               = Done (frame (UnreliableStream (ascii_bytes "BADFDADF") 7)))
    by (vm_compute; reflexivity).
  split; [exact Hw|].
  exact (frames_are_distinct _ _ _ Hw Hw).
Defined.


(** X4. Bytes that follow a frame do not change what [unwrap] reads from
    it: the call returns the contents of the packet, and what follows the
    frame as the redundant bytes. *)
Theorem unwrap_returns_what_follows_the_frame (p : packet) (f tail : bytes) :
  wrap p = Done f ->
  Protocol.unwrap (f ++ tail) = Done (arguments_of p, tail).
Proof.
  intros Hp. apply wrap_inv in Hp as [Hwf ->].
  apply unwrap_frame_tail, Hwf.
Qed.

Lemma unwrap_returns_what_follows_the_frame_witness :
  wrap (Reliable (ascii_bytes "hi") 3)
  = Done (frame (Reliable (ascii_bytes "hi") 3))
  /\ Protocol.unwrap (frame (Reliable (ascii_bytes "hi") 3)
                        ++ ascii_bytes "BADF")
     = Done (Some (ascii_bytes "hi"), Some 3, None, None, ascii_bytes "BADF").
Proof.
  assert (Hw : wrap (Reliable (ascii_bytes "hi") 3)
               = Done (frame (Reliable (ascii_bytes "hi") 3)))
    by (vm_compute; reflexivity).
  split; [exact Hw|].
  exact (unwrap_returns_what_follows_the_frame _ _ (ascii_bytes "BADF") Hw).
Defined.


(** X5. A frame that is cut short is never accepted: on every proper
    prefix of a frame, [unwrap] raises [ValueError]. *)
Theorem unwrap_rejects_truncated_frame (p : packet) (f : bytes) (j : nat) :
  wrap p = Done f -> (j < length f)%nat ->
  Protocol.unwrap (take j f) = Raised ValueError.
Proof.
  intros Hp Hj. apply wrap_inv in Hp as [Hwf ->].
  apply unwrap_prefix; assumption.
Qed.

Lemma unwrap_rejects_truncated_frame_witness :
  wrap (Unreliable (ascii_bytes "hello"))
  = Done (frame (Unreliable (ascii_bytes "hello")))
  /\ (21 < length (frame (Unreliable (ascii_bytes "hello"))))%nat
  /\ Protocol.unwrap (take 21 (frame (Unreliable (ascii_bytes "hello"))))
     = Raised ValueError.
Proof.
  assert (Hw : wrap (Unreliable (ascii_bytes "hello"))
               = Done (frame (Unreliable (ascii_bytes "hello"))))
    by (vm_compute; reflexivity).
  assert (Hl : (21 < length (frame (Unreliable (ascii_bytes "hello"))))%nat)
    by (vm_compute; lia).
  split; [exact Hw|]. split; [exact Hl|].
  exact (unwrap_rejects_truncated_frame _ _ 21 Hw Hl).
Defined.

(** ** Cutting the buffer into packets *)

Section ExtractFacts.
Import Bytes Client.

Lemma find_at_inv (sub data : bytes) (i k : Z) :
  find_at sub data i = Some k ->
  exists n : nat,
    k = i + Z.of_nat n /\ (n <= length data)%nat
    /\ startswith sub (drop n data) = true
    /\ forall j : nat, (j < n)%nat -> startswith sub (drop j data) = false.
Proof.
  revert i. induction data as [|d data IH]; intros i Hf; cbn [find_at] in Hf.
  - destruct (startswith sub []) eqn:Hs; [|discriminate].
    exists 0%nat. injection Hf as <-. repeat split; [lia|lia|exact Hs|lia].
  - destruct (startswith sub (d :: data)) eqn:Hs.
    + exists 0%nat. injection Hf as <-.
      repeat split; [lia|simpl; lia|exact Hs|lia].
    + apply IH in Hf as (n & -> & Hn & Hat & Hno).
      exists (S n). repeat split; [lia|simpl; lia|exact Hat|].
      intros [|j] Hj; [exact Hs|]. apply Hno. lia.
Qed.

Lemma find_at_None_inv (sub data : bytes) (i : Z) (j : nat) :
  find_at sub data i = None -> (j <= length data)%nat ->
  startswith sub (drop j data) = false.
Proof.
  revert i j. induction data as [|d data IH]; intros i j Hf Hj;
    cbn [find_at] in Hf.
  - rewrite drop_nil. destruct (startswith sub []); [discriminate|reflexivity].
  - destruct (startswith sub (d :: data)) eqn:Hs; [discriminate|].
    destruct j as [|j]; [exact Hs|]. apply (IH (i + 1)); [exact Hf|].
    simpl in Hj. lia.
Qed.

Lemma find_barker_Some (data : bytes) (start k : Z) :
  0 <= start -> find Protocol.BARKER data start = Some k ->
  start <= k
  /\ barker_at data (Z.to_nat k) = true
  /\ forall j : nat, start <= Z.of_nat j < k -> barker_at data j = false.
Proof.
  intros Hs Hf. unfold find in Hf.
  destruct (Z.leb_spec start (Z.of_nat (length data))); [|discriminate].
  apply find_at_inv in Hf as (n & -> & Hn & Hat & Hno).
  rewrite drop_drop in Hat. split; [lia|]. split.
  - unfold barker_at.
    replace (Z.to_nat (start + Z.of_nat n)) with (Z.to_nat start + n)%nat
      by lia.
    exact Hat.
  - intros j Hj. unfold barker_at.
    replace (drop j data)
      with (drop (j - Z.to_nat start) (drop (Z.to_nat start) data))
      by (rewrite drop_drop; f_equal; lia).
    apply Hno. lia.
Qed.

Lemma find_barker_None (data : bytes) (start : Z) (j : nat) :
  0 <= start -> find Protocol.BARKER data start = None ->
  start <= Z.of_nat j -> barker_at data j = false.
Proof.
  intros Hs Hf Hj. apply not_true_false. intros E.
  pose proof (barker_at_length _ _ E) as Hl.
  unfold find in Hf.
  destruct (Z.leb_spec start (Z.of_nat (length data))); [|lia].
  apply (find_at_None_inv _ _ _ (j - Z.to_nat start)%nat) in Hf.
  - rewrite drop_drop in Hf. unfold barker_at in E.
    replace (Z.to_nat start + (j - Z.to_nat start))%nat with j in Hf by lia.
    congruence.
  - rewrite length_drop. lia.
Qed.

Lemma barker_chain_last (data : bytes) (a : Z) (rest : list Z) :
  barker_chain data a rest -> a <= List.last (a :: rest) 0.
Proof.
  revert a. induction rest as [|b rest IH]; intros a Hc; [simpl; lia|].
  destruct Hc as [(Hab & _) Hc]. apply IH in Hc.
  change (List.last (a :: b :: rest) 0) with (List.last (b :: rest) 0). lia.
Qed.

Lemma barker_chain_snoc (data : bytes) (a : Z) (rest : list Z) (k : Z) :
  barker_chain data a rest ->
  List.last (a :: rest) 0 + 8 <= k ->
  barker_at data (Z.to_nat k) = true ->
  (forall j : nat, List.last (a :: rest) 0 + 8 <= Z.of_nat j < k ->
                   barker_at data j = false) ->
  barker_chain data a (rest ++ [k]).
Proof.
  revert a. induction rest as [|b rest IH]; intros a Hc Hk Hat Hno.
  - simpl in *. repeat split; assumption.
  - destruct Hc as [Hab Hc]. split; [exact Hab|].
    apply IH; assumption.
Qed.

Lemma barker_indexes_loop_spec (data : bytes) (fuel : nat) (a : Z)
  (rest : list Z) :
  0 <= a -> barker_chain data a rest ->
  Z.of_nat (length data) <= Z.of_nat fuel + List.last (a :: rest) 0 ->
  exists rest',
    barker_indexes_loop fuel data (a :: rest) = a :: rest'
    /\ barker_chain data a rest'
    /\ forall j : nat, List.last (a :: rest') 0 + 8 <= Z.of_nat j ->
                       barker_at data j = false.
Proof.
  revert rest. induction fuel as [|fuel IH]; intros rest Ha Hc Hf.
  - exists rest. split; [reflexivity|]. split; [exact Hc|].
    intros j Hj. apply not_true_false. intros E.
    apply barker_at_length in E. lia.
  - pose proof (barker_chain_last _ _ _ Hc) as Hl.
    cbn [barker_indexes_loop].
    change Protocol.BARKER_LENGTH with 8.
    destruct (find Protocol.BARKER data (List.last (a :: rest) 0 + 8))
      as [k|] eqn:Hfind.
    + apply find_barker_Some in Hfind as (Hk & Hat & Hno); [|lia].
      change ((a :: rest) ++ [k]) with (a :: (rest ++ [k])).
      apply IH; [exact Ha|apply barker_chain_snoc; assumption|].
      change (a :: rest ++ [k]) with ((a :: rest) ++ [k]).
      rewrite List.last_last. lia.
    + exists rest. split; [reflexivity|]. split; [exact Hc|].
      intros j Hj.
      apply (find_barker_None data (List.last (a :: rest) 0 + 8) j);
        [lia|exact Hfind|exact Hj].
Qed.

Lemma packets_concat (data : bytes) (a : Z) (rest : list Z) :
  0 <= a -> barker_chain data a rest ->
  concat (packets_between data (a :: rest))
    ++ slice_from data (List.last (a :: rest) 0)
  = drop (Z.to_nat a) data.
Proof.
  revert a. induction rest as [|b rest IH]; intros a Ha Hc.
  - simpl. apply slice_from_drop. exact Ha.
  - destruct Hc as [(Hab & _) Hc].
    change (packets_between data (a :: b :: rest))
      with (slice data a b :: packets_between data (b :: rest)).
    change (List.last (a :: b :: rest) 0) with (List.last (b :: rest) 0).
    cbn [concat]. rewrite <- app_assoc, IH by (lia || assumption).
    rewrite slice_take_drop by lia.
    rewrite <- (take_drop (Z.to_nat (b - a)) (drop (Z.to_nat a) data)) at 2.
    f_equal. rewrite drop_drop. f_equal. lia.
Qed.

(** The Barker does not overlap itself. *)
Lemma barker_alone (X : bytes) (i : nat) :
  barker_at X 0 = true -> barker_at X i = true -> (i < 8)%nat -> i = 0%nat.
Proof.
  unfold barker_at. rewrite drop_0. intros H0 Hi Hlt.
  apply startswith_inv in H0. rewrite H0 in Hi.
  do 8 (destruct i as [|i]; [reflexivity || discriminate Hi|]). lia.
Qed.

Lemma barker_at_slice (data : bytes) (a b : Z) (i : nat) :
  0 <= a <= b ->
  barker_at (slice data a b) i = true
  <-> barker_at data (Z.to_nat a + i) = true
      /\ Z.of_nat i + 8 <= b - a
      /\ Z.of_nat i + 8 <= Z.of_nat (length data) - a.
Proof.
  intros Hab. rewrite slice_take_drop by exact Hab.
  rewrite (barker_at_prefix (take _ _) (drop (Z.to_nat (b - a))
                                          (drop (Z.to_nat a) data))).
  rewrite take_drop, barker_at_drop, length_take, length_drop. split.
  - intros [E Hl]. split; [exact E|lia].
  - intros (E & H1 & H2). split; [exact E|lia].
Qed.

Lemma packets_barkers (data : bytes) (a : Z) (rest : list Z) :
  0 <= a -> barker_chain data a rest ->
  barker_at data (Z.to_nat a) = true ->
  (forall j : nat, List.last (a :: rest) 0 + 8 <= Z.of_nat j ->
                   barker_at data j = false) ->
  Forall (fun packet => forall i, barker_at packet i = true <-> i = 0%nat)
    (packets_between data (a :: rest)
       ++ [slice_from data (List.last (a :: rest) 0)]).
Proof.
  revert a. induction rest as [|b rest IH]; intros a Ha Hc Hat Hno.
  - simpl in *. apply List.Forall_cons; [|apply List.Forall_nil].
    rewrite slice_from_drop by exact Ha. intros i. rewrite barker_at_drop.
    split.
    + intros E. destruct (le_lt_dec 8 i) as [Hi|Hi].
      * rewrite Hno in E by lia. discriminate.
      * apply (barker_alone (drop (Z.to_nat a) data)); [| |exact Hi].
        -- rewrite barker_at_drop, Nat.add_0_r. exact Hat.
        -- rewrite barker_at_drop. exact E.
    + intros ->. rewrite Nat.add_0_r. exact Hat.
  - destruct Hc as [(Hab & Hb & Hnone) Hc].
    change (packets_between data (a :: b :: rest))
      with (slice data a b :: packets_between data (b :: rest)).
    change (List.last (a :: b :: rest) 0) with (List.last (b :: rest) 0)
      in *.
    cbn [app]. apply List.Forall_cons; [|apply IH; (lia || assumption)].
    intros i. rewrite barker_at_slice by lia.
    pose proof (barker_at_length _ _ Hb) as Hlb. split.
    + intros (E & H1 & H2). destruct (le_lt_dec 8 i) as [Hi|Hi].
      * rewrite Hnone in E by lia. discriminate.
      * apply (barker_alone (drop (Z.to_nat a) data)); [| |exact Hi].
        -- rewrite barker_at_drop, Nat.add_0_r. exact Hat.
        -- rewrite barker_at_drop. exact E.
    + intros ->. rewrite Nat.add_0_r. split; [exact Hat|lia].
Qed.

End ExtractFacts.

(** X6. [_extract_packets] loses nothing: the packets, end to end, are the
    buffer. *)
Theorem extract_packets_partition (data : bytes) :
  concat (Client._extract_packets data) = data.
Proof.
  unfold Client._extract_packets.
  destruct (barker_indexes_loop_spec data (length data) 0 [])
    as (rest & -> & Hc & _); [lia|exact I|simpl; lia|].
  rewrite concat_app. cbn [concat]. rewrite app_nil_r.
  rewrite packets_concat by (lia || assumption). apply drop_0.
Qed.

(** X7. On a buffer that starts with a Barker, every packet that
    [_extract_packets] returns starts with a Barker and holds no other. *)
Theorem extract_packets_one_barker_each (data : bytes) :
  Bytes.startswith Protocol.BARKER data = true ->
  Forall (fun packet => forall i, barker_at packet i = true <-> i = 0%nat)
    (Client._extract_packets data).
Proof.
  intros Hs. unfold Client._extract_packets.
  destruct (barker_indexes_loop_spec data (length data) 0 [])
    as (rest & -> & Hc & Hno); [lia|exact I|simpl; lia|].
  apply packets_barkers; [lia|exact Hc| |exact Hno].
  unfold barker_at. rewrite drop_0. exact Hs.
Qed.

Lemma extract_packets_one_barker_each_witness :
  Bytes.startswith Protocol.BARKER
    (frame (Ack 1) ++ frame (Unreliable (ascii_bytes "x")) ++ ascii_bytes "BAD")
  = true
  /\ Client._extract_packets
       (frame (Ack 1) ++ frame (Unreliable (ascii_bytes "x"))
          ++ ascii_bytes "BAD")
     = [frame (Ack 1); frame (Unreliable (ascii_bytes "x")) ++ ascii_bytes "BAD"]
  /\ Forall (fun packet => forall i, barker_at packet i = true <-> i = 0%nat)
       (Client._extract_packets
          (frame (Ack 1) ++ frame (Unreliable (ascii_bytes "x"))
             ++ ascii_bytes "BAD")).
Proof.
  split; [reflexivity|]. split; [vm_compute; reflexivity|].
  apply (extract_packets_one_barker_each
           (frame (Ack 1) ++ frame (Unreliable (ascii_bytes "x"))
              ++ ascii_bytes "BAD")).
  reflexivity.
Defined.

(** ** The file branch of the handler *)

Section FileFrameFacts.
Context {P : Type} `{AbstractPeer P}.
Import Client.

Lemma unwrap_reliable_message (f : bytes) (message : option bytes) (m : Z)
  (stream_id acked : option Z) (redundant : bytes) :
  Protocol.unwrap f = Done (message, Some m, stream_id, acked, redundant) ->
  is_Some message.
Proof.
  rewrite unwrap_spec.
  destruct (negb _); [discriminate|].
  destruct (type_byte f) as [t|]; [|discriminate]. cbv zeta.
  destruct (Z.leb_spec 0 t); [destruct (Z.leb_spec t 4)|]; cbn [andb negb];
    try discriminate.
  destruct (Z.ltb_spec (Z.of_nat (length f)) (header_length t)) as [|Hlen];
    [discriminate|].
  assert (Hp : parsed f t = (message, Some m, stream_id, acked, redundant) ->
               is_Some message).
  { assert (Hc : t = 0 \/ t = 1 \/ t = 2 \/ t = 3 \/ t = 4) by lia.
    unfold parsed.
    destruct Hc as [->|[->|[->|[->| ->]]]]; intros E; inversion E; subst;
      eexists; reflexivity. }
  destruct (t =? 4); [intros E; apply Hp; congruence|].
  destruct (_ <? _); [discriminate|].
  destruct (_ =? _); [intros E; apply Hp; congruence|discriminate].
Qed.

Lemma file_frame_short (data : bytes) (stream_id : Z) (c : client P) :
  (length data < 5)%nat ->
  file_frame (Some data) stream_id c
  = Raises (if (length data <? 4)%nat then StructError else IndexError) c.
Proof.
  intros Hl.
  do 5 (destruct data as [|? data]; [reflexivity|]).
  simpl in Hl. lia.
Qed.

Lemma file_frame_returns (data : bytes) (stream_id : Z) (c : client P) :
  (5 <= length data)%nat ->
  is_Some (_file_stream_id_to_chunks c !! stream_id) ->
  exists c', file_frame (Some data) stream_id c = Returned tt c'.
Proof.
  intros Hl [chunks Hs].
  do 5 (destruct data as [|? data]; [simpl in Hl; lia|]).
  unfold file_frame. unfold bind at 1. cbn [lift subscriptable obind].
  change (Bytes.slice (b :: b0 :: b1 :: b2 :: b3 :: data) 0 4)
    with (Bytes.slice ([] ++ [b; b0; b1; b2] ++ b3 :: data) 0 4).
  rewrite slice_middle by reflexivity. cbn [Struct.unpack_L].
  unfold bind at 1.
  change (Bytes.index (b :: b0 :: b1 :: b2 :: b3 :: data) 4)
    with (Done (A:=Z) (Bytes.to_Z b3)).
  cbn [lift].
  destruct (Bytes.to_Z b3 =? 48).
  - unfold chunks_of. unfold bind, get. cbv beta iota. rewrite Hs.
    unfold ret, lift, modify. cbv beta iota. eexists. reflexivity.
  - destruct (Bytes.to_Z b3 =? 49); eexists; reflexivity.
Qed.

Lemma tables_ready_init (peer : P) : tables_ready (__init__ peer).
Proof.
  intros s Hs. unfold FILE_TRANSFER_STREAMS in Hs.
  repeat (apply elem_of_cons in Hs as [->|Hs]);
    [..|apply elem_of_nil in Hs; contradiction]; eexists; reflexivity.
Qed.

Lemma wrap_ack_u32 (m : Z) :
  u32 m -> Protocol.wrap_ack m = Done (frame (Ack m)).
Proof.
  intros Hm. apply (wrap_frame (Ack m)).
  apply List.Forall_cons; [exact Hm|apply List.Forall_nil].
Qed.

Lemma handler_on_unreliable (message : option bytes)
  (stream_id acked : option Z) (c : client P) :
  exists c',
    _handle_unwrapped_message message None stream_id acked c = Returned tt c'.
Proof.
  unfold _handle_unwrapped_message.
  destruct (truthy acked); [eexists; reflexivity|].
  destruct stream_id; eexists; reflexivity.
Qed.

(** What the handler does with what [unwrap] returned. *)
Lemma handler_cases (packet : bytes) (message : option bytes)
  (message_id stream_id acked : option Z) (redundant : bytes)
  (c : client P) :
  tables_ready c ->
  Protocol.unwrap packet
  = Done (message, message_id, stream_id, acked, redundant) ->
  match _handle_unwrapped_message message message_id stream_id acked c with
  | Returned _ _ => ~ short_file_chunk packet c
  | Raises e _ =>
      short_file_chunk packet c /\ (e = StructError \/ e = IndexError)
  | Running _ => False
  end.
Proof.
  intros Hready Hu.
  assert (Hnot : forall data m s r,
             Protocol.unwrap packet = Done (Some data, Some m, Some s, None, r)
             -> message = Some data /\ message_id = Some m
                /\ stream_id = Some s).
  { intros data m s r E. rewrite E in Hu. inversion Hu. auto. }
  destruct message_id as [m|].
  2:{ destruct (handler_on_unreliable message stream_id acked c) as [c' ->].
      intros (data & m & s & r & E & _). apply Hnot in E as (_ & E & _).
      discriminate. }
  destruct (unwrap_reliable_inv _ _ _ _ _ _ Hu) as [-> Hm].
  destruct (unwrap_reliable_message _ _ _ _ _ _ Hu) as [data ->].
  destruct (_messages_ids_that_have_been_received c !! m) as [x|] eqn:Hseen.
  { rewrite (handle_again _ _ _ _ _ (wrap_ack_u32 m Hm))
      by (rewrite Hseen; eexists; reflexivity).
    intros (data' & m' & s & r & E & _ & Hn & _).
    apply Hnot in E as (_ & E & _). injection E as <-. congruence. }
  rewrite (handle_first _ _ _ _ _ (wrap_ack_u32 m Hm) Hseen).
  unfold deliver_reliable.
  destruct stream_id as [s|].
  2:{ intros (data' & m' & s & r & E & _). apply Hnot in E as (_ & _ & E).
      discriminate. }
  destruct (bool_decide_reflect (s ∈ FILE_TRANSFER_STREAMS)) as [Hs|Hs].
  2:{ intros (data' & m' & s' & r & E & Hin & _).
      apply Hnot in E as (_ & _ & E). injection E as <-. contradiction. }
  destruct (le_lt_dec 5 (length data)) as [Hl|Hl].
  - destruct (file_frame_returns data s
                (recorded m (acked_with (frame (Ack m)) c)) Hl (Hready s Hs))
      as [c' ->].
    intros (data' & m' & s' & r & E & _ & _ & Hshort).
    apply Hnot in E as (E & _). injection E as <-. lia.
  - rewrite (file_frame_short _ _ _ Hl). split.
    + exists data, m, s, redundant. auto.
    + destruct (length data <? 4)%nat; auto.
Qed.

End FileFrameFacts.

(** X8. What makes the body of the listener's loop raise. On every packet
    and every client whose chunk table has its four streams,
    [handle_packet] returns, or it raises [struct.error] or [IndexError];
    it raises exactly when the packet is a reliable message on a
    file-transfer stream, with an id not seen before, whose payload has
    less than five bytes. *)
Theorem handle_packet_raises_on_short_file_chunk {P : Type} `{AbstractPeer P}
  (packet : bytes) (c : client P) :
  tables_ready c ->
  match Client.handle_packet packet c with
  | Returned _ _ => ~ short_file_chunk packet c
  | Raises e _ =>
      short_file_chunk packet c /\ (e = StructError \/ e = IndexError)
  | Running _ => False
  end.
Proof.
  intros Hready. unfold Client.handle_packet.
  destruct (Protocol.unwrap packet)
    as [[[[[message message_id] stream_id] acked] redundant]|e] eqn:Hu.
  - assert (Hc : forall c1 : client P,
               _file_stream_id_to_chunks c1 = _file_stream_id_to_chunks c ->
               _messages_ids_that_have_been_received c1
               = _messages_ids_that_have_been_received c ->
               match Client._handle_unwrapped_message message message_id
                       stream_id acked c1 with
               | Returned _ _ => ~ short_file_chunk packet c
               | Raises e _ =>
                   short_file_chunk packet c
                   /\ (e = StructError \/ e = IndexError)
               | Running _ => False
               end).
    { intros c1 E1 E2.
      assert (Hs : short_file_chunk packet c1 <-> short_file_chunk packet c).
      { unfold short_file_chunk. rewrite E2. reflexivity. }
      assert (Hr : tables_ready c1)
        by (unfold tables_ready; rewrite E1; exact Hready).
      pose proof (handler_cases packet message message_id stream_id acked
                    redundant c1 Hr Hu) as Hh.
      destruct (Client._handle_unwrapped_message _ _ _ _ c1).
      - intros X. apply Hh, Hs, X.
      - destruct Hh as [X Y]. split; [apply Hs, X|exact Y].
      - exact Hh. }
    destruct redundant; apply Hc; reflexivity.
  - pose proof (unwrap_raises _ _ Hu) as He. subst e.
    intros (data & m & s & r & E & _). rewrite Hu in E. discriminate.
Qed.

Lemma handle_packet_raises_on_short_file_chunk_witness :
  tables_ready (new_client [])
  /\ match Client.handle_packet
             (frame (ReliableStream (ascii_bytes "abcd") 1 7771))
             (new_client [])
     with
     | Returned _ _ =>
         ~ short_file_chunk
             (frame (ReliableStream (ascii_bytes "abcd") 1 7771))
             (new_client [])
     | Raises e _ =>
         short_file_chunk (frame (ReliableStream (ascii_bytes "abcd") 1 7771))
           (new_client [])
         /\ (e = StructError \/ e = IndexError)
     | Running _ => False
     end.
Proof.
  split; [apply tables_ready_init|].
  apply handle_packet_raises_on_short_file_chunk, tables_ready_init.
Defined.

Section ShortChunkFrame.
Import Bytes Protocol.

Lemma stuff_short (data : bytes) :
  (length data < 7)%nat -> _stuff_data data = data.
Proof.
  induction data as [|d data IH]; intros Hl; [reflexivity|].
  rewrite stuff_cons.
  destruct (startswith BEFORE_STUFF (d :: data)) eqn:Hs.
  - apply startswith_length in Hs.
    change (length BEFORE_STUFF) with 7%nat in Hs. lia.
  - f_equal. apply IH. simpl in Hl. lia.
Qed.

Lemma barker_window (X : bytes) (i k : nat) :
  barker_at X i = true -> (k < 8)%nat -> X !! (i + k)%nat = BARKER !! k.
Proof.
  intros E Hk. unfold barker_at in E. apply startswith_inv in E.
  rewrite <- lookup_drop, E. apply lookup_app_l.
  change (length BARKER) with 8%nat. exact Hk.
Qed.

(** A frame whose type byte is [2] and in which a byte that is no letter
    of the Barker stands at the offsets 13, 16 and 20 holds a Barker after
    its start only in its last eight bytes. *)
Lemma barker_behind_header (m0 m1 m2 m3 s0 s1 s2 s3 n0 n1 n2 n3 : byte)
  (tail : bytes) (i : nat) :
  let X := BARKER ++ [x02; m0; m1; m2; m3; s0; s1; s2; s3;
                      n0; n1; n2; n3] ++ tail in
  (forall k : nat, BARKER !! k <> Some s0) ->
  s3 = x00 -> n3 = x00 ->
  barker_at X i = true -> i = 0%nat \/ (21 <= i)%nat.
Proof.
  intros X Hs0 -> -> E.
  assert (W : forall k, (k < 8)%nat -> X !! (i + k)%nat = BARKER !! k)
    by (intros k; apply barker_window; exact E).
  destruct (le_lt_dec 21 i) as [|Hi]; [right; assumption|].
  destruct i as [|i]; [left; reflexivity|]. exfalso.
  destruct (le_lt_dec (S i) 8) as [H8|H8].
  { specialize (W (8 - S i)%nat ltac:(lia)).
    replace (S i + (8 - S i))%nat with 8%nat in W by lia.
    do 8 (destruct i as [|i]; [discriminate W|]). lia. }
  destruct (le_lt_dec (S i) 13) as [H13|H13].
  { specialize (W (13 - S i)%nat ltac:(lia)).
    replace (S i + (13 - S i))%nat with 13%nat in W by lia.
    apply (Hs0 (13 - S i)%nat). symmetry. exact W. }
  destruct (le_lt_dec (S i) 16) as [H16|H16].
  { specialize (W (16 - S i)%nat ltac:(lia)).
    replace (S i + (16 - S i))%nat with 16%nat in W by lia.
    do 16 (destruct i as [|i]; [discriminate W || lia|]). lia. }
  specialize (W (20 - S i)%nat ltac:(lia)).
  replace (S i + (20 - S i))%nat with 20%nat in W by lia.
  do 20 (destruct i as [|i]; [discriminate W || lia|]). lia.
Qed.

End ShortChunkFrame.

Section PoisonFrame.
Import Bytes Protocol.

Lemma file_stream_low_byte (s : Z) (k : nat) :
  s ∈ Client.FILE_TRANSFER_STREAMS -> BARKER !! k <> Some (of_Z s).
Proof.
  intros Hs. unfold Client.FILE_TRANSFER_STREAMS in Hs.
  repeat (apply elem_of_cons in Hs as [->|Hs]);
    [..|apply elem_of_nil in Hs; contradiction];
    do 9 (destruct k as [|k]; [discriminate|]); discriminate.
Qed.

Lemma file_stream_high_byte (s : Z) :
  s ∈ Client.FILE_TRANSFER_STREAMS -> of_Z (s / 2 ^ 24) = x00.
Proof.
  intros Hs. unfold Client.FILE_TRANSFER_STREAMS in Hs.
  repeat (apply elem_of_cons in Hs as [->|Hs]);
    [..|apply elem_of_nil in Hs; contradiction]; reflexivity.
Qed.

Lemma short_chunk_one_barker (data : bytes) (m s : Z) (i : nat) :
  s ∈ Client.FILE_TRANSFER_STREAMS -> (length data < 5)%nat ->
  barker_at (frame (ReliableStream data m s)) i = true -> i = 0%nat.
Proof.
  intros Hs Hl E.
  assert (Hf : frame (ReliableStream data m s)
               = BARKER
                   ++ [x02; of_Z m; of_Z (m / 2 ^ 8); of_Z (m / 2 ^ 16);
                       of_Z (m / 2 ^ 24);
                       of_Z s; of_Z (s / 2 ^ 8); of_Z (s / 2 ^ 16);
                       of_Z (s / 2 ^ 24);
                       of_Z (Z.of_nat (length data));
                       of_Z (Z.of_nat (length data) / 2 ^ 8);
                       of_Z (Z.of_nat (length data) / 2 ^ 16);
                       of_Z (Z.of_nat (length data) / 2 ^ 24)]
                   ++ (data ++ le_bytes (Zlib.crc32 data))).
  { unfold frame, header, trailer, fields. cbn [stuffed].
    rewrite !stuff_short by lia. rewrite <- !app_assoc. reflexivity. }
  pose proof (barker_at_length _ _ E) as Hlen.
  rewrite Hf in E, Hlen.
  assert (Hn3 : of_Z (Z.of_nat (length data) / 2 ^ 24) = x00).
  { clear -Hl. do 5 (destruct data as [|? data]; [reflexivity|]).
    simpl in Hl. lia. }
  destruct (barker_behind_header _ _ _ _ _ _ _ _ _ _ _ _ _ _
              (fun k => file_stream_low_byte s k Hs)
              (file_stream_high_byte s Hs) Hn3 E) as [E0|E21];
    [exact E0|exfalso].
  rewrite !length_app, length_le_bytes in Hlen.
  change (length BARKER) with 8%nat in Hlen. cbn [length] in Hlen.
  assert (Hi : i = 21%nat) by lia. subst i.
  pose proof (barker_window _ _ 0 E ltac:(lia)) as W0.
  pose proof (barker_window _ _ 1 E ltac:(lia)) as W1.
  pose proof (barker_window _ _ 2 E ltac:(lia)) as W2.
  pose proof (barker_window _ _ 3 E ltac:(lia)) as W3.
  pose proof (barker_window _ _ 4 E ltac:(lia)) as W4.
  clear E Hf Hn3.
  do 5 (destruct data as [|? data]; [cbn [length] in Hlen; try lia|]);
    [|simpl in Hl; lia].
  cbn in W0, W1, W2, W3. injection W0 as ->. injection W1 as ->.
  injection W2 as ->. injection W3 as ->.
  vm_compute in W4. discriminate W4.
Qed.

End PoisonFrame.

(** X9. One frame ends the listener. The frame that
    [wrap_reliable_stream] returns for a payload of less than five bytes
    on a file-transfer stream, read whole by a listener whose buffer is
    empty and that has not seen the id: the handler sends the ACK and
    records the id, then [struct.unpack] or [message[4]] raises, nothing
    catches the exception, and [_listen] ends with it. *)
Theorem listener_dies_on_short_file_chunk {P : Type} `{AbstractPeer P}
  (CHUNK_SIZE : Z) (fuel : nat) (c : client P) (data f : bytes) (m s : Z) :
  Protocol.wrap_reliable_stream (PyBytes data) m s = Done f ->
  s ∈ Client.FILE_TRANSFER_STREAMS -> (length data < 5)%nat ->
  listener_data c = [] ->
  fst (receive CHUNK_SIZE (_peer c)) = f ->
  _messages_ids_that_have_been_received c !! m = None ->
  exists ack,
    Protocol.wrap_ack m = Done ack
    /\ Client._listen CHUNK_SIZE (S fuel) c
       = Raises (if (length data <? 4)%nat then StructError else IndexError)
           (recorded m
              (acked_with ack
                 (Client.set__peer (snd (receive CHUNK_SIZE (_peer c))) c))).
Proof.
  intros Hw Hs Hl Hd Hr Hseen.
  apply (wrap_inv (ReliableStream data m s)) in Hw as [Hwf ->].
  assert (Hm : u32 m).
  { unfold well_formed in Hwf. cbn [fields] in Hwf.
    apply List.Forall_inv in Hwf. exact Hwf. }
  exists (frame (Ack m)). split; [apply wrap_ack_u32, Hm|].
  pose proof (length_frame (ReliableStream data m s)) as Hlf.
  cbn [Client._listen]. unfold bind at 1.
  rewrite listen_step_steps, Hd, Hr.
  rewrite (round_found [] _ 0).
  2:{ intros E. rewrite E in Hlf. simpl in Hlf. lia. }
  2:{ cbn [app]. rewrite <- (app_nil_r (frame _)). apply frame_barker. }
  2:{ intros j Hj. lia. }
  cbn [app]. rewrite drop_0.
  rewrite (process_whole _ Hwf)
    by (intros i; apply short_chunk_one_barker; assumption).
  cbn [fst snd app].
  rewrite run_cons, (bind_returned _ _ _ _ _ (perform_receive CHUNK_SIZE c)).
  rewrite run_cons. unfold bind at 1.
  cbn [perform handle arguments_of unwrapped_of fst].
  rewrite (handle_first _ _ _ _ _ (wrap_ack_u32 m Hm)) by exact Hseen.
  unfold Client.deliver_reliable.
  rewrite bool_decide_eq_true_2 by exact Hs.
  rewrite file_frame_short by exact Hl. reflexivity.
Qed.

Lemma listener_dies_on_short_file_chunk_witness :
  Protocol.wrap_reliable_stream (PyBytes (ascii_bytes "abc")) 1 7771
  = Done (frame (ReliableStream (ascii_bytes "abc") 1 7771))
  /\ exists ack,
       Protocol.wrap_ack 1 = Done ack
       /\ Client._listen 1024 5
            (new_client (frame (ReliableStream (ascii_bytes "abc") 1 7771)))
          = Raises StructError
              (recorded 1
                 (acked_with ack
                    (Client.set__peer
                       (snd (receive 1024
                               (_peer (new_client
                                         (frame (ReliableStream
                                                   (ascii_bytes "abc") 1
                                                   7771))))))
                       (new_client
                          (frame (ReliableStream (ascii_bytes "abc") 1
                                    7771)))))).
Proof.
  assert (Hw : Protocol.wrap_reliable_stream (PyBytes (ascii_bytes "abc")) 1
                 7771
               = Done (frame (ReliableStream (ascii_bytes "abc") 1 7771)))
    by (vm_compute; reflexivity).
  split; [exact Hw|].
  apply (listener_dies_on_short_file_chunk 1024 4
           (new_client (frame (ReliableStream (ascii_bytes "abc") 1 7771)))
           (ascii_bytes "abc")
           (frame (ReliableStream (ascii_bytes "abc") 1 7771)) 1 7771 Hw).
  - unfold Client.FILE_TRANSFER_STREAMS. apply elem_of_cons. left. reflexivity.
  - vm_compute. lia.
  - reflexivity.
  - vm_compute. reflexivity.
  - vm_compute. reflexivity.
Defined.

(** ** The file-transfer streams *)

Section LockFacts.
Context {P : Type} `{AbstractPeer P}.
Import Client.

Lemma first_available_inv (streams : list Z) (available : gmap Z bool)
  (s : Z) :
  first_available streams available = Done (Some s) ->
  exists before after,
    streams = before ++ s :: after
    /\ Forall (fun t => available !! t = Some false) before
    /\ available !! s = Some true.
Proof.
  induction streams as [|t streams IH]; intros Hf; [discriminate|].
  cbn [first_available] in Hf.
  destruct (available !! t) as [[|]|] eqn:Ht; [|apply IH in Hf|discriminate].
  - injection Hf as <-. exists [], streams.
    split; [reflexivity|]. split; [apply List.Forall_nil|exact Ht].
  - destruct Hf as (before & after & -> & Hb & Hs).
    exists (t :: before), after. split; [reflexivity|].
    split; [apply List.Forall_cons; assumption|exact Hs].
Qed.

Lemma first_available_none (streams : list Z) (available : gmap Z bool) :
  Forall (fun t => available !! t = Some false) streams ->
  first_available streams available = Done None.
Proof.
  induction 1 as [|t streams Ht _ IH]; [reflexivity|].
  cbn [first_available]. rewrite Ht. exact IH.
Qed.

Lemma lock_file_stream_inv (c c' : client P) (s : Z) :
  _lock_file_stream c = Returned s c' ->
  _file_streams_lock c = false
  /\ first_available FILE_TRANSFER_STREAMS
       (_file_stream_id_to_is_available c) = Done (Some s)
  /\ c' = set__file_stream_id_to_is_available
            (<[s := false]> (_file_stream_id_to_is_available c)) c.
Proof.
  unfold _lock_file_stream. unfold bind at 1. unfold get at 1.
  destruct (_file_streams_lock c) eqn:Hlock; [discriminate|].
  unfold bind at 1. unfold modify at 1. unfold bind at 1.
  destruct (first_available _ _) as [[t|]|e]; cbn [lift];
    try discriminate.
  unfold bind, modify, ret. cbn. intros E. injection E as <- <-.
  split; [reflexivity|]. split; [reflexivity|].
  destruct c. cbn in *. subst. reflexivity.
Qed.

End LockFacts.

(** X10. [_lock_file_stream] returns the first of the file-transfer
    streams that is available, marks it as taken and leaves the lock
    free; nothing else of the client changes. *)
Theorem lock_file_stream_takes_the_first_free {P : Type} `{AbstractPeer P}
  (c c' : client P) (s : Z) :
  Client._lock_file_stream c = Returned s c' ->
  (exists before after,
     Client.FILE_TRANSFER_STREAMS = before ++ s :: after
     /\ Forall (fun t => _file_stream_id_to_is_available c !! t = Some false)
          before
     /\ _file_stream_id_to_is_available c !! s = Some true)
  /\ _file_streams_lock c' = false
  /\ c' = Client.set__file_stream_id_to_is_available
            (<[s := false]> (_file_stream_id_to_is_available c)) c.
Proof.
  intros Hl. apply lock_file_stream_inv in Hl as (Hlock & Hf & ->).
  split; [apply first_available_inv, Hf|]. split; [exact Hlock|reflexivity].
Qed.

Lemma lock_file_stream_takes_the_first_free_witness :
  Client._lock_file_stream (new_client [])
  = Returned 7771
      (Client.set__file_stream_id_to_is_available
         (<[7771 := false]>
            (_file_stream_id_to_is_available (new_client [])))
         (new_client []))
  /\ exists before after,
       Client.FILE_TRANSFER_STREAMS = before ++ 7771 :: after
       /\ Forall (fun t => _file_stream_id_to_is_available (new_client [])
                           !! t = Some false) before
       /\ _file_stream_id_to_is_available (new_client []) !! 7771
          = Some true.
Proof.
  assert (Hl : Client._lock_file_stream (new_client [])
               = Returned 7771
                   (Client.set__file_stream_id_to_is_available
                      (<[7771 := false]>
                         (_file_stream_id_to_is_available (new_client [])))
                      (new_client [])))
    by (vm_compute; reflexivity).
  split; [exact Hl|].
  exact (proj1 (lock_file_stream_takes_the_first_free _ _ _ Hl)).
Defined.


(** X11. Two calls of [_lock_file_stream], one after the other, never
    return the same stream. *)
Theorem file_streams_are_exclusive {P : Type} `{AbstractPeer P}
  (c c1 c2 : client P) (s1 s2 : Z) :
  Client._lock_file_stream c = Returned s1 c1 ->
  Client._lock_file_stream c1 = Returned s2 c2 ->
  s1 <> s2.
Proof.
  intros H1 H2.
  apply lock_file_stream_inv in H1 as (_ & _ & ->).
  apply lock_file_stream_inv in H2 as (_ & Hf & _).
  apply first_available_inv in Hf as (_ & _ & _ & _ & Hs2).
  cbn in Hs2. intros ->. rewrite lookup_insert_eq in Hs2. discriminate.
Qed.

Lemma file_streams_are_exclusive_witness :
  Client._lock_file_stream (new_client [])
  = Returned 7771
      (Client.set__file_stream_id_to_is_available
         (<[7771 := false]>
            (_file_stream_id_to_is_available (new_client [])))
         (new_client []))
  /\ Client._lock_file_stream
       (Client.set__file_stream_id_to_is_available
          (<[7771 := false]>
             (_file_stream_id_to_is_available (new_client [])))
          (new_client []))
     = Returned 7772
         (Client.set__file_stream_id_to_is_available
            (<[7772 := false]>
               (<[7771 := false]>
                  (_file_stream_id_to_is_available (new_client []))))
            (new_client []))
  /\ 7771 <> 7772.
Proof.
  assert (H1 : Client._lock_file_stream (new_client [])
               = Returned 7771
                   (Client.set__file_stream_id_to_is_available
                      (<[7771 := false]>
                         (_file_stream_id_to_is_available (new_client [])))
                      (new_client [])))
    by (vm_compute; reflexivity).
  assert (H2 : Client._lock_file_stream
                 (Client.set__file_stream_id_to_is_available
                    (<[7771 := false]>
                       (_file_stream_id_to_is_available (new_client [])))
                    (new_client []))
               = Returned 7772
                   (Client.set__file_stream_id_to_is_available
                      (<[7772 := false]>
                         (<[7771 := false]>
                            (_file_stream_id_to_is_available (new_client []))))
                      (new_client [])))
    by (vm_compute; reflexivity).
  split; [exact H1|]. split; [exact H2|].
  exact (file_streams_are_exclusive _ _ _ _ _ H1 H2).
Defined.


(** X12. With the lock free and none of the streams available,
    [_lock_file_stream] takes the lock and spins: it does not return by
    what it does itself, and the lock stays held. *)
Theorem lock_file_stream_spins_with_the_lock {P : Type} `{AbstractPeer P}
  (c : client P) :
  _file_streams_lock c = false ->
  Forall (fun t => _file_stream_id_to_is_available c !! t = Some false)
    Client.FILE_TRANSFER_STREAMS ->
  Client._lock_file_stream c
  = Running (Client.set__file_streams_lock true c).
Proof.
  intros Hlock Hnone. unfold Client._lock_file_stream.
  unfold bind at 1. unfold get at 1. rewrite Hlock.
  unfold bind at 1. unfold modify at 1. unfold bind at 1.
  rewrite (first_available_none _ _ Hnone). reflexivity.
Qed.

Lemma lock_file_stream_spins_with_the_lock_witness :
  Client._lock_file_stream
    (Client.set__file_stream_id_to_is_available
       (list_to_map [(7771, false); (7772, false); (7773, false);
                     (7774, false)])
       (new_client []))
  = Running
      (Client.set__file_streams_lock true
         (Client.set__file_stream_id_to_is_available
            (list_to_map [(7771, false); (7772, false); (7773, false);
                          (7774, false)])
            (new_client []))).
Proof.
  apply lock_file_stream_spins_with_the_lock; [reflexivity|].
  repeat (apply List.Forall_cons; [reflexivity|]). apply List.Forall_nil.
Defined.

(** ** What the listener never undoes *)

Section Advances.
Context {P : Type} (R : client P -> client P -> Prop).
Hypothesis R_refl : forall c, R c c.
Hypothesis R_trans : forall c1 c2 c3, R c1 c2 -> R c2 c3 -> R c1 c3.

Lemma advances_ret {A} (a : A) : advances R (ret a).
Proof. intros c. apply R_refl. Qed.

Lemma advances_get : advances R get.
Proof. intros c. apply R_refl. Qed.

Lemma advances_lift {A} (o : outcome A) : advances R (lift o).
Proof. intros c. destruct o; apply R_refl. Qed.

Lemma advances_diverge {A} : advances R (@diverge P A).
Proof. intros c. apply R_refl. Qed.

Lemma advances_modify (f : client P -> client P) :
  (forall c, R c (f c)) -> advances R (modify f).
Proof. intros Hf c. apply Hf. Qed.

Lemma advances_bind {A B} (m : M P A) (k : A -> M P B) :
  advances R m -> (forall a, advances R (k a)) -> advances R (bind m k).
Proof.
  intros Hm Hk c. unfold bind. specialize (Hm c).
  destruct (m c) as [a c'|e c'|c']; [|exact Hm..].
  apply (R_trans _ c'); [exact Hm|apply Hk].
Qed.

Lemma advances_try_except {A} (body : M P A) (e0 : exn) (handler : M P A) :
  advances R body -> advances R handler ->
  advances R (try_except body e0 handler).
Proof.
  intros Hb Hh c. unfold try_except. specialize (Hb c).
  destruct (body c) as [a c'|e c'|c']; [exact Hb| |exact Hb].
  destruct (exn_eqb e e0); [|exact Hb].
  apply (R_trans _ c'); [exact Hb|apply Hh].
Qed.

Lemma advances_finally_return (body : M P unit) :
  advances R body -> advances R (finally_return body).
Proof.
  intros Hb c. unfold finally_return. specialize (Hb c).
  destruct (body c) as [a c'|e c'|c']; exact Hb.
Qed.

Lemma advances_for_each {A} (xs : list A) (body : A -> M P unit) :
  (forall x, advances R (body x)) -> advances R (for_each xs body).
Proof.
  intros Hb. induction xs as [|x xs IH]; [apply advances_ret|].
  cbn [for_each]. apply advances_bind; [apply Hb|intros _; exact IH].
Qed.

End Advances.

Section OnlyAdds.
Context {P : Type} `{AbstractPeer P}.
Import Client.

Lemma only_adds_refl (c : client P) : only_adds c c.
Proof.
  repeat split; auto; exists []; rewrite app_nil_r; reflexivity.
Qed.

Lemma only_adds_trans (c1 c2 c3 : client P) :
  only_adds c1 c2 -> only_adds c2 c3 -> only_adds c1 c3.
Proof.
  intros (A1 & A2 & A3 & A4 & A5 & A6 & [es1 A7] & [ts1 A8])
         (B1 & B2 & B3 & B4 & B5 & B6 & [es2 B7] & [ts2 B8]).
  repeat split; auto; try congruence.
  - exists (es1 ++ es2). rewrite B7, A7, app_assoc. reflexivity.
  - exists (ts1 ++ ts2). rewrite B8, A8, app_assoc. reflexivity.
Qed.

Lemma oa_ret {A} (a : A) : advances (@only_adds P) (ret a).
Proof. apply advances_ret, only_adds_refl. Qed.

Lemma oa_get : advances (@only_adds P) get.
Proof. apply advances_get, only_adds_refl. Qed.

Lemma oa_lift {A} (o : outcome A) : advances (@only_adds P) (lift o).
Proof. apply advances_lift, only_adds_refl. Qed.

Lemma oa_bind {A B} (m : M P A) (k : A -> M P B) :
  advances only_adds m -> (forall a, advances only_adds (k a)) ->
  advances only_adds (bind m k).
Proof. apply advances_bind, only_adds_trans. Qed.

Lemma only_adds_emit (e : event) : advances (@only_adds P) (emit e).
Proof.
  apply advances_modify. intros c.
  repeat split; auto; cbn; [eexists; reflexivity|].
  exists []. rewrite app_nil_r. reflexivity.
Qed.

Lemma only_adds_start_thread (t : thread) :
  advances (@only_adds P) (start_thread t).
Proof.
  apply advances_modify. intros c.
  repeat split; auto; cbn; [|eexists; reflexivity].
  exists []. rewrite app_nil_r. reflexivity.
Qed.

Lemma only_adds_set_peer (p : P) (c : client P) :
  only_adds c (set__peer p c).
Proof.
  repeat split; auto; exists []; rewrite app_nil_r; reflexivity.
Qed.

Lemma only_adds_peer_send (data : bytes) :
  advances (@only_adds P) (peer_send data).
Proof. apply advances_modify. intros c. apply only_adds_set_peer. Qed.

Lemma only_adds_peer_receive (n : Z) :
  advances (@only_adds P) (peer_receive n).
Proof.
  intros c. unfold peer_receive. destruct (receive n (_peer c)).
  apply only_adds_set_peer.
Qed.

Lemma only_adds_chunks_of (s : Z) : advances (@only_adds P) (chunks_of s).
Proof.
  unfold chunks_of.
  apply oa_bind; [apply oa_get|].
  intros c. destruct (_ !! _); [apply oa_ret|apply oa_lift].
Qed.

Lemma only_adds_file_frame (message : option bytes) (s : Z) :
  advances (@only_adds P) (file_frame message s).
Proof.
  unfold file_frame.
  apply oa_bind; [apply oa_lift|].
  intros chunk_index.
  apply oa_bind; [apply oa_lift|].
  intros flag. destruct (flag =? 48).
  - apply oa_bind; [apply only_adds_chunks_of|].
    intros chunks.
    apply oa_bind; [apply oa_lift|].
    intros chunk. apply advances_modify. intros c.
    repeat split; auto; cbn; try (exists []; rewrite app_nil_r; reflexivity).
    intros s' Hs'. destruct (decide (s' = s)) as [->|Hne].
    + rewrite lookup_insert_eq. eexists. reflexivity.
    + rewrite lookup_insert_ne by congruence. exact Hs'.
  - destruct (flag =? 49);
      [apply only_adds_start_thread|apply only_adds_emit].
Qed.

Lemma only_adds_handler (message : option bytes)
  (message_id stream_id acked : option Z) :
  advances (@only_adds P)
    (_handle_unwrapped_message message message_id stream_id acked).
Proof.
  unfold _handle_unwrapped_message.
  destruct (truthy acked) as [a|].
  - apply advances_finally_return,
      (advances_try_except _ only_adds_trans); [|apply only_adds_emit].
    apply advances_modify. intros c.
    repeat split; auto; cbn; try (exists []; rewrite app_nil_r; reflexivity).
    intros m Hm. destruct (decide (m = a)) as [->|Hne].
    + apply lookup_insert_eq.
    + rewrite lookup_insert_ne by congruence. exact Hm.
  - destruct message_id as [m|];
      [|destruct stream_id; apply only_adds_emit].
    apply oa_bind; [apply oa_lift|].
    intros ack.
    apply oa_bind; [apply only_adds_peer_send|].
    intros _.
    apply oa_bind; [apply oa_get|].
    intros c0. destruct (_ !! _); [apply oa_ret|].
    apply oa_bind; [ |].
    + apply advances_modify. intros c.
      repeat split; auto; cbn;
        try (exists []; rewrite app_nil_r; reflexivity).
      intros m' Hm'. destruct (decide (m' = m)) as [->|Hne].
      * rewrite lookup_insert_eq. eexists. reflexivity.
      * rewrite lookup_insert_ne by congruence. exact Hm'.
    + intros _. unfold deliver_reliable.
      destruct stream_id as [s|]; [|apply only_adds_emit].
      destruct (bool_decide _);
        [apply only_adds_file_frame|apply only_adds_emit].
Qed.

Lemma only_adds_handle_packet (packet : bytes) :
  advances (@only_adds P) (handle_packet packet).
Proof.
  unfold handle_packet.
  destruct (Protocol.unwrap packet)
    as [[[[[message message_id] stream_id] acked] redundant]|e].
  - apply oa_bind; [ |].
    + destruct redundant; [apply oa_ret|apply only_adds_emit].
    + intros _. apply only_adds_handler.
  - destruct e; try apply oa_lift. apply only_adds_emit.
Qed.

Lemma only_adds_listen_step (CHUNK_SIZE : Z) :
  advances (@only_adds P) (listen_step CHUNK_SIZE).
Proof.
  unfold listen_step.
  apply oa_bind; [apply oa_get|].
  intros c0.
  apply oa_bind; [ |].
  2:{ intros data. apply advances_modify. intros c.
      repeat split; auto; exists []; rewrite app_nil_r; reflexivity. }
  unfold listen_round.
  apply oa_bind; [apply only_adds_peer_receive|].
  intros new_data. destruct new_data as [|x xs]; [apply oa_ret|].
  destruct (Bytes.find _ _ _) as [i|].
  - apply oa_bind; [ |].
    + apply (advances_for_each _ only_adds_refl only_adds_trans).
      apply only_adds_handle_packet.
    + intros _.
      destruct (Protocol.unwrap _)
        as [[[[[message message_id] stream_id] acked] redundant]|e].
      * apply oa_bind; [apply only_adds_handler|].
        intros _. apply oa_ret.
      * destruct e; try apply oa_lift. apply oa_ret.
  - apply oa_bind; [apply only_adds_emit|].
    intros _. apply oa_ret.
Qed.

End OnlyAdds.

(** X13. The listener thread only adds. However long [_listen] runs and
    however it ends, on any transport and any input: every id that was in
    the set of received ids is still there, every message that was marked
    as acked still is, the chunk table still has its streams, the events
    and the threads of before are a prefix of those of after, and the
    counter of message ids, the table of available streams and the lock are
    as they were. *)
Theorem listener_only_adds {P : Type} `{AbstractPeer P} (CHUNK_SIZE : Z)
  (fuel : nat) (c : client P) :
  only_adds c (state_of (Client._listen CHUNK_SIZE fuel c)).
Proof.
  revert c. change (advances (@only_adds P) (Client._listen CHUNK_SIZE fuel)).
  induction fuel as [|fuel IH].
  - apply advances_diverge, only_adds_refl.
  - cbn [Client._listen].
    apply oa_bind; [apply only_adds_listen_step|intros _; exact IH].
Qed.

(** ** The payload of a file chunk, and the assembly of the file *)

Section ChunkFacts.
Context {P : Type} `{AbstractPeer P}.
Import Client.

(** The file branch on the payload that [_handle_file_send] builds:
    [struct.pack('L', chunk_index) + flag + data]. *)
Lemma file_frame_payload (chunk_index : Z) (flag : byte) (data : bytes)
  (s : Z) (chunks : gmap Z bytes) (c : client P) :
  u32 chunk_index ->
  _file_stream_id_to_chunks c !! s = Some chunks ->
  file_frame (Some (le_bytes chunk_index ++ flag :: data)) s c
  = Returned tt
      (if Bytes.to_Z flag =? 48
       then set__file_stream_id_to_chunks
              (<[s := <[chunk_index := data]> chunks]>
                 (_file_stream_id_to_chunks c)) c
       else if Bytes.to_Z flag =? 49
            then set_threads
                   (threads c ++ [_handle_file_chunks_thread s chunk_index]) c
            else set_events
                   (events c
                      ++ [print (Error_Invalid_unicode_value_for_is_last_chunk
                                   (Bytes.to_Z flag))]) c).
Proof.
  intros Hi Hs. unfold file_frame.
  unfold bind at 1. cbn [lift subscriptable obind].
  change (Bytes.slice (le_bytes chunk_index ++ flag :: data) 0 4)
    with (Bytes.slice ([] ++ le_bytes chunk_index ++ flag :: data) 0 4).
  rewrite slice_middle by reflexivity.
  rewrite (unpack_L_le_bytes _ Hi).
  unfold bind at 1.
  change (Bytes.index (le_bytes chunk_index ++ flag :: data) 4)
    with (Done (A:=Z) (Bytes.to_Z flag)).
  cbn [lift].
  destruct (Bytes.to_Z flag =? 48).
  - unfold chunks_of. unfold bind, get. cbv beta iota. rewrite Hs.
    unfold ret, lift, modify. cbv beta iota.
    change (le_bytes chunk_index ++ flag :: data)
      with ((le_bytes chunk_index ++ [flag]) ++ data).
    rewrite slice_from_end by reflexivity. reflexivity.
  - destruct (Bytes.to_Z flag =? 49); reflexivity.
Qed.

Lemma handler_file_payload (chunk_index m s : Z) (flag : byte)
  (data : bytes) (chunks : gmap Z bytes) (c : client P) :
  u32 chunk_index -> u32 m ->
  s ∈ FILE_TRANSFER_STREAMS ->
  _messages_ids_that_have_been_received c !! m = None ->
  _file_stream_id_to_chunks c !! s = Some chunks ->
  _handle_unwrapped_message (Some (le_bytes chunk_index ++ flag :: data))
    (Some m) (Some s) None c
  = Returned tt
      (let c0 := recorded m (acked_with (frame (Ack m)) c) in
       if Bytes.to_Z flag =? 48
       then set__file_stream_id_to_chunks
              (<[s := <[chunk_index := data]> chunks]>
                 (_file_stream_id_to_chunks c0)) c0
       else if Bytes.to_Z flag =? 49
            then set_threads
                   (threads c0 ++ [_handle_file_chunks_thread s chunk_index])
                   c0
            else set_events
                   (events c0
                      ++ [print (Error_Invalid_unicode_value_for_is_last_chunk
                                   (Bytes.to_Z flag))]) c0).
Proof.
  intros Hi Hm Hs Hseen Hc.
  rewrite (handle_first _ _ _ _ _ (wrap_ack_u32 m Hm) Hseen).
  unfold deliver_reliable.
  rewrite bool_decide_eq_true_2 by exact Hs.
  apply file_frame_payload; [exact Hi|exact Hc].
Qed.

End ChunkFacts.

(** X14. The payload of a file chunk, from the sender to the chunk table.
    The handler is given, as a reliable message with a new id on a
    file-transfer stream, the payload that [_handle_file_send] builds:
    the packed chunk index, the flag and the data. It sends the ACK,
    records the id, and then: with the flag ['0'] it stores the data under
    the chunk index; with the flag ['1'] it starts [_handle_file_chunks]
    with the chunk index as the number of chunks, whatever the data; with
    any other flag it prints an error and stores nothing. *)
Theorem file_chunk_payload_is_parsed {P : Type} `{AbstractPeer P}
  (c : client P) (chunk_index m s : Z) (flag : byte) (data : bytes)
  (chunks : gmap Z bytes) :
  u32 chunk_index -> u32 m ->
  s ∈ Client.FILE_TRANSFER_STREAMS ->
  _messages_ids_that_have_been_received c !! m = None ->
  _file_stream_id_to_chunks c !! s = Some chunks ->
  exists index ack,
    Struct.pack_L chunk_index = Done index
    /\ Protocol.wrap_ack m = Done ack
    /\ Client._handle_unwrapped_message (Some (index ++ flag :: data))
         (Some m) (Some s) None c
       = Returned tt
           (let c0 := recorded m (acked_with ack c) in
            if Bytes.to_Z flag =? 48
            then Client.set__file_stream_id_to_chunks
                   (<[s := <[chunk_index := data]> chunks]>
                      (_file_stream_id_to_chunks c0)) c0
            else if Bytes.to_Z flag =? 49
                 then Client.set_threads
                        (threads c0
                           ++ [_handle_file_chunks_thread s chunk_index]) c0
                 else Client.set_events
                        (events c0
                           ++ [print
                                 (Error_Invalid_unicode_value_for_is_last_chunk
                                    (Bytes.to_Z flag))]) c0).
Proof.
  intros Hi Hm Hs Hseen Hc.
  exists (le_bytes chunk_index), (frame (Ack m)).
  split; [apply pack_L_u32, Hi|]. split; [apply wrap_ack_u32, Hm|].
  apply handler_file_payload; assumption.
Qed.

Lemma file_chunk_payload_is_parsed_witness :
  _messages_ids_that_have_been_received (new_client []) !! 5 = None
  /\ _file_stream_id_to_chunks (new_client []) !! 7771 = Some ∅
  /\ exists index ack,
       Struct.pack_L 2 = Done index
       /\ Protocol.wrap_ack 5 = Done ack
       /\ Client._handle_unwrapped_message
            (Some (index ++ "0"%byte :: ascii_bytes "AB"))
            (Some 5) (Some 7771) None (new_client [])
          = Returned tt
              (Client.set__file_stream_id_to_chunks
                 (<[7771 := <[2 := ascii_bytes "AB"]> ∅]>
                    (_file_stream_id_to_chunks
                       (recorded 5 (acked_with ack (new_client [])))))
                 (recorded 5 (acked_with ack (new_client [])))).
Proof.
  split; [reflexivity|]. split; [reflexivity|].
  apply (file_chunk_payload_is_parsed (new_client []) 2 5 7771 "0"%byte
           (ascii_bytes "AB") ∅).
  - unfold u32. lia.
  - unfold u32. lia.
  - unfold Client.FILE_TRANSFER_STREAMS. apply elem_of_cons. left.
    reflexivity.
  - reflexivity.
  - reflexivity.
Defined.

Section AssemblyFacts.
Context {P : Type} `{AbstractPeer P}.
Variable sleep : duration -> client P -> client P.
Import Client.

Lemma size_map_seqZ (start : Z) (xs : list bytes) :
  size (map_seqZ (M:=gmap Z bytes) start xs) = length xs.
Proof.
  revert start. induction xs as [|x xs IH]; intros start.
  - apply map_size_empty.
  - cbn [map_seqZ length]. rewrite map_size_insert_None; [f_equal; apply IH|].
    apply lookup_map_seqZ_None. lia.
Qed.

Lemma chunks_of_at (s : Z) (chunks : gmap Z bytes) (c : client P) :
  _file_stream_id_to_chunks c !! s = Some chunks ->
  chunks_of s c = Returned chunks c.
Proof. intros Hs. unfold chunks_of, bind, get. rewrite Hs. reflexivity. Qed.

Lemma chunk_of_at (s i : Z) (chunks : gmap Z bytes) (chunk : bytes)
  (c : client P) :
  _file_stream_id_to_chunks c !! s = Some chunks ->
  chunks !! i = Some chunk ->
  chunk_of s i c = Returned chunk c.
Proof.
  intros Hs Hi. unfold chunk_of. unfold bind at 1.
  rewrite (chunks_of_at _ _ _ Hs), Hi. reflexivity.
Qed.

Lemma chunk_of_missing (s i : Z) (chunks : gmap Z bytes) (c : client P) :
  _file_stream_id_to_chunks c !! s = Some chunks ->
  chunks !! i = None ->
  chunk_of s i c = Raises KeyError c.
Proof.
  intros Hs Hi. unfold chunk_of. unfold bind at 1.
  rewrite (chunks_of_at _ _ _ Hs), Hi. reflexivity.
Qed.

Lemma wait_for_chunks_ready (fuel : nat) (s : Z) (chunks : gmap Z bytes)
  (c : client P) :
  _file_stream_id_to_chunks c !! s = Some chunks ->
  wait_for_chunks sleep fuel s (Z.of_nat (size chunks)) c = Returned tt c.
Proof.
  intros Hs.
  destruct fuel; cbn [wait_for_chunks]; unfold bind at 1;
    rewrite (chunks_of_at _ _ _ Hs), Z.eqb_refl; reflexivity.
Qed.

Lemma extend_file_data_seq (s : Z) (chunks : gmap Z bytes) (c : client P)
  (parts : list bytes) (start : Z) (file_data : bytes) :
  _file_stream_id_to_chunks c !! s = Some chunks ->
  (forall i part, parts !! i = Some part ->
                  chunks !! (start + Z.of_nat i) = Some part) ->
  extend_file_data (seqZ start (Z.of_nat (length parts))) s file_data c
  = Returned (file_data ++ concat parts) c.
Proof.
  intros Hs. revert start file_data.
  induction parts as [|part parts IH]; intros start file_data Hp.
  - cbn. rewrite app_nil_r. reflexivity.
  - replace (Z.of_nat (length (part :: parts)))
      with (Z.succ (Z.of_nat (length parts))) by (cbn [length]; lia).
    rewrite seqZ_cons by lia. rewrite Z.pred_succ.
    cbn [extend_file_data]. unfold bind at 1.
    rewrite (chunk_of_at s start chunks part c Hs).
    2:{ specialize (Hp 0%nat part eq_refl).
        rewrite Z.add_0_r in Hp. exact Hp. }
    rewrite IH.
    + cbn [concat]. rewrite app_assoc. reflexivity.
    + intros i p Hi. specialize (Hp (S i) p Hi).
      rewrite <- Hp. f_equal. lia.
Qed.

Lemma handle_file_chunks_assembles (fuel : nat) (c : client P) (s : Z)
  (name : bytes) (parts : list bytes) (filename : str) :
  _file_stream_id_to_chunks c !! s = Some (map_seqZ 0 (name :: parts)) ->
  Utf8.decode name = Done filename ->
  _handle_file_chunks sleep fuel s (Z.of_nat (length (name :: parts))) c
  = Returned tt
      (set_events (events c ++ [on_file filename (concat parts)])
         (set__file_stream_id_to_chunks
            (<[s := ∅]> (_file_stream_id_to_chunks c)) c)).
Proof.
  intros Hs Hname. unfold _handle_file_chunks.
  unfold bind at 1.
  rewrite <- (size_map_seqZ 0 (name :: parts)).
  rewrite (wait_for_chunks_ready fuel s _ c Hs).
  unfold bind at 1.
  rewrite (chunk_of_at s 0 _ name c Hs)
    by (cbn [map_seqZ]; apply lookup_insert_eq).
  unfold bind at 1. rewrite Hname. cbn [lift].
  unfold bind at 1.
  rewrite size_map_seqZ.
  replace (Z.of_nat (length (name :: parts)) - 1)
    with (Z.of_nat (length parts)) by (cbn [length]; lia).
  rewrite (extend_file_data_seq s _ c parts 1 [] Hs).
  - reflexivity.
  - intros i part Hi. rewrite lookup_map_seqZ.
    rewrite option_guard_True by lia.
    replace (Z.to_nat (1 + Z.of_nat i - 0)) with (S i) by lia. exact Hi.
Qed.

End AssemblyFacts.

(** X15. The assembly of a file. When [_handle_file_chunks] is started for
    [n] chunks on a stream whose table holds exactly the chunks [0] to
    [n - 1], chunk [0] being valid UTF-8, it calls [on_file] once, with
    the decoded chunk [0] as the name and the chunks [1] to [n - 1], in
    order, as the data; it leaves the table of the stream empty and
    touches nothing else; it never sleeps. *)
Theorem file_chunks_are_assembled {P : Type} `{AbstractPeer P}
  (sleep : duration -> client P -> client P) (fuel : nat) (c : client P)
  (s : Z) (name : bytes) (parts : list bytes) (filename : str) :
  _file_stream_id_to_chunks c !! s = Some (map_seqZ 0 (name :: parts)) ->
  Utf8.decode name = Done filename ->
  Client._handle_file_chunks sleep fuel s (Z.of_nat (length (name :: parts)))
    c
  = Returned tt
      (Client.set_events (events c ++ [on_file filename (concat parts)])
         (Client.set__file_stream_id_to_chunks
            (<[s := ∅]> (_file_stream_id_to_chunks c)) c)).
Proof. apply handle_file_chunks_assembles. Qed.


Lemma file_chunks_are_assembled_witness :
  Utf8.decode (ascii_bytes "n.txt") = Done (text "n.txt")
  /\ let c :=
       Client.set__file_stream_id_to_chunks
         (<[7771 := map_seqZ 0 [ascii_bytes "n.txt"; ascii_bytes "AB";
                                ascii_bytes "C"]]>
            (_file_stream_id_to_chunks (new_client [])))
         (new_client []) in
     Client._handle_file_chunks undisturbed 0 7771 3 c
     = Returned tt
         (Client.set_events
            (events c ++ [on_file (text "n.txt") (ascii_bytes "ABC")])
            (Client.set__file_stream_id_to_chunks
               (<[7771 := ∅]> (_file_stream_id_to_chunks c)) c)).
Proof.
  assert (Hn : Utf8.decode (ascii_bytes "n.txt") = Done (text "n.txt"))
    by (vm_compute; reflexivity).
  split; [exact Hn|]. intros c.
  apply (file_chunks_are_assembled undisturbed 0 c 7771 (ascii_bytes "n.txt")
           [ascii_bytes "AB"; ascii_bytes "C"] (text "n.txt")).
  - apply lookup_insert_eq.
  - exact Hn.
Defined.

(** X16. The assembly without a chunk [0]. When the table of the stream
    holds as many chunks as [_handle_file_chunks] waits for, and none with
    the index [0], the lookup of the file name raises [KeyError]: the
    thread ends, [on_file] is not called and the table is not cleared. So
    it is when a frame with the flag ['1'] and the chunk index [0] comes
    on a stream whose table is empty. *)
Theorem file_assembly_without_chunk_0 {P : Type} `{AbstractPeer P}
  (sleep : duration -> client P -> client P) (fuel : nat) (c : client P)
  (s : Z) (chunks : gmap Z bytes) :
  _file_stream_id_to_chunks c !! s = Some chunks ->
  chunks !! 0 = None ->
  Client._handle_file_chunks sleep fuel s (Z.of_nat (size chunks)) c
  = Raises KeyError c.
Proof.
  intros Hs H0. unfold Client._handle_file_chunks.
  unfold bind at 1. rewrite (wait_for_chunks_ready sleep fuel s _ c Hs).
  unfold bind at 1. rewrite (chunk_of_missing s 0 chunks c Hs H0).
  reflexivity.
Qed.


Lemma file_assembly_without_chunk_0_witness :
  _file_stream_id_to_chunks (new_client []) !! 7771 = Some ∅
  /\ Client._handle_file_chunks undisturbed 0 7771
       (Z.of_nat (size (∅ : gmap Z bytes))) (new_client [])
     = Raises KeyError (new_client []).
Proof.
  split; [reflexivity|].
  apply (file_assembly_without_chunk_0 undisturbed 0 (new_client []) 7771 ∅);
    reflexivity.
Defined.

(** ** A stream of frames, read in pieces *)

Section ExtractCons.
Import Bytes Client.

Lemma barker_chain_unique (data : bytes) (a : Z) (r1 r2 : list Z) :
  0 <= a ->
  barker_chain data a r1 -> barker_chain_ends data a r1 ->
  barker_chain data a r2 -> barker_chain_ends data a r2 ->
  r1 = r2.
Proof.
  revert a r2. induction r1 as [|b1 r1 IH]; intros a r2 Ha C1 E1 C2 E2.
  - destruct r2 as [|b2 r2]; [reflexivity|].
    destruct C2 as [(Hab & Hat & _) _].
    rewrite (E1 (Z.to_nat b2)) in Hat by (simpl; lia). discriminate.
  - destruct C1 as [(Hab1 & Hat1 & Hno1) C1].
    destruct r2 as [|b2 r2].
    { rewrite (E2 (Z.to_nat b1)) in Hat1 by (simpl; lia). discriminate. }
    destruct C2 as [(Hab2 & Hat2 & Hno2) C2].
    assert (b1 = b2).
    { destruct (Z.lt_trichotomy b1 b2) as [Hlt|[Heq|Hlt]]; [|exact Heq|].
      - rewrite (Hno2 (Z.to_nat b1)) in Hat1 by lia. discriminate.
      - rewrite (Hno1 (Z.to_nat b2)) in Hat2 by lia. discriminate. }
    subst b2. f_equal. apply (IH b1); [lia|assumption..].
Qed.

Lemma barker_at_app_r (F rest : bytes) (j : nat) :
  barker_at (F ++ rest) (length F + j) = barker_at rest j.
Proof. rewrite <- barker_at_drop, drop_app_length. reflexivity. Qed.

Lemma barker_chain_shift (F rest : bytes) (a : Z) (r : list Z) :
  0 <= a -> barker_chain rest a r ->
  barker_chain (F ++ rest) (Z.of_nat (length F) + a)
    (map (Z.add (Z.of_nat (length F))) r).
Proof.
  revert a. induction r as [|b r IH]; intros a Ha Hc; [exact I|].
  destruct Hc as [(Hab & Hat & Hno) Hc]. cbn [map barker_chain].
  split; [|apply IH; [lia|exact Hc]]. split; [lia|]. split.
  - replace (Z.to_nat (Z.of_nat (length F) + b))
      with (length F + Z.to_nat b)%nat by lia.
    rewrite barker_at_app_r. exact Hat.
  - intros j Hj.
    replace j with (length F + (j - length F))%nat by lia.
    rewrite barker_at_app_r. apply Hno. lia.
Qed.

Lemma last_shift (k a : Z) (r : list Z) :
  List.last ((k + a) :: map (Z.add k) r) 0 = k + List.last (a :: r) 0.
Proof.
  revert a. induction r as [|b r IH]; intros a; [reflexivity|].
  change (List.last ((k + a) :: map (Z.add k) (b :: r)) 0)
    with (List.last ((k + b) :: map (Z.add k) r) 0).
  change (List.last (a :: b :: r) 0) with (List.last (b :: r) 0).
  apply IH.
Qed.

Lemma barker_chain_ends_shift (F rest : bytes) (a : Z) (r : list Z) :
  0 <= a -> barker_chain rest a r -> barker_chain_ends rest a r ->
  barker_chain_ends (F ++ rest) (Z.of_nat (length F) + a)
    (map (Z.add (Z.of_nat (length F))) r).
Proof.
  intros Ha Hc He j Hj. rewrite last_shift in Hj.
  pose proof (barker_chain_last _ _ _ Hc).
  replace j with (length F + (j - length F))%nat by lia.
  rewrite barker_at_app_r. apply He. lia.
Qed.

Lemma slice_shift (F rest : bytes) (a b : Z) :
  0 <= a -> 0 <= b ->
  slice (F ++ rest) (Z.of_nat (length F) + a) (Z.of_nat (length F) + b)
  = slice rest a b.
Proof.
  intros Ha Hb. unfold slice, bound. rewrite length_app.
  destruct (Z.ltb_spec (Z.of_nat (length F) + a) 0); [lia|].
  destruct (Z.ltb_spec (Z.of_nat (length F) + b) 0); [lia|].
  destruct (Z.ltb_spec a 0); [lia|]. destruct (Z.ltb_spec b 0); [lia|].
  replace (Z.to_nat (Z.min (Z.of_nat (length F) + a)
                       (Z.of_nat (length F + length rest))))
    with (length F + Z.to_nat (Z.min a (Z.of_nat (length rest))))%nat by lia.
  rewrite <- drop_drop, drop_app_length. f_equal. lia.
Qed.

Lemma slice_from_shift (F rest : bytes) (a : Z) :
  0 <= a ->
  slice_from (F ++ rest) (Z.of_nat (length F) + a) = slice_from rest a.
Proof.
  intros Ha. rewrite !slice_from_drop by lia.
  replace (Z.to_nat (Z.of_nat (length F) + a))
    with (length F + Z.to_nat a)%nat by lia.
  rewrite <- drop_drop, drop_app_length. reflexivity.
Qed.

Lemma packets_between_shift (F rest : bytes) (a : Z) (r : list Z) :
  0 <= a -> barker_chain rest a r ->
  packets_between (F ++ rest)
    ((Z.of_nat (length F) + a) :: map (Z.add (Z.of_nat (length F))) r)
  = packets_between rest (a :: r).
Proof.
  revert a. induction r as [|b r IH]; intros a Ha Hc; [reflexivity|].
  destruct Hc as [(Hab & _) Hc].
  change (packets_between rest (a :: b :: r))
    with (slice rest a b :: packets_between rest (b :: r)).
  rewrite <- (IH b) by (lia || assumption).
  cbn [map packets_between]. rewrite slice_shift by lia. reflexivity.
Qed.

Lemma extract_packets_nonempty (data : bytes) : _extract_packets data <> [].
Proof.
  unfold _extract_packets. intros E. apply app_eq_nil in E as [_ E].
  discriminate.
Qed.

(** A first piece that ends where the next Barker starts is the first
    packet. *)
Lemma extract_cons (F rest : bytes) :
  (8 <= length F)%nat -> barker_at rest 0 = true ->
  (forall i, (8 <= i < length F)%nat -> barker_at (F ++ rest) i = false) ->
  _extract_packets (F ++ rest) = F :: _extract_packets rest.
Proof.
  intros HF Hrest Hno.
  destruct (barker_indexes_loop_spec rest (length rest) 0 [])
    as (r & Er & Hc & He); [lia|exact I|simpl; lia|].
  destruct (barker_indexes_loop_spec (F ++ rest) (length (F ++ rest)) 0 [])
    as (r' & Er' & Hc' & He'); [lia|exact I|simpl; lia|].
  assert (Hr' : r' = Z.of_nat (length F)
                     :: map (Z.add (Z.of_nat (length F))) r).
  { apply (barker_chain_unique (F ++ rest) 0); [lia|exact Hc'|exact He'| |].
    - split.
      + split; [lia|]. split.
        * rewrite Nat2Z.id, <- (Nat.add_0_r (length F)), barker_at_app_r.
          exact Hrest.
        * intros j Hj. apply Hno. lia.
      + pose proof (barker_chain_shift F rest 0 r ltac:(lia) Hc) as X.
        rewrite Z.add_0_r in X. exact X.
    - unfold barker_chain_ends.
      change (List.last (0 :: Z.of_nat (length F)
                           :: map (Z.add (Z.of_nat (length F))) r) 0)
        with (List.last (Z.of_nat (length F)
                           :: map (Z.add (Z.of_nat (length F))) r) 0).
      pose proof (barker_chain_ends_shift F rest 0 r ltac:(lia) Hc He) as X.
      unfold barker_chain_ends in X. rewrite Z.add_0_r in X. exact X. }
  unfold _extract_packets. rewrite Er', Er, Hr'.
  change (packets_between (F ++ rest)
            (0 :: Z.of_nat (length F)
               :: map (Z.add (Z.of_nat (length F))) r))
    with (slice (F ++ rest) 0 (Z.of_nat (length F))
            :: packets_between (F ++ rest)
                 (Z.of_nat (length F)
                    :: map (Z.add (Z.of_nat (length F))) r)).
  change (List.last (0 :: Z.of_nat (length F)
                       :: map (Z.add (Z.of_nat (length F))) r) 0)
    with (List.last (Z.of_nat (length F)
                       :: map (Z.add (Z.of_nat (length F))) r) 0).
  cbn [app]. f_equal.
  - change (F ++ rest) with ([] ++ F ++ rest). apply slice_middle; reflexivity.
  - pose proof (packets_between_shift F rest 0 r ltac:(lia) Hc) as X.
    pose proof (last_shift (Z.of_nat (length F)) 0 r) as Y.
    rewrite Z.add_0_r in X, Y. rewrite X, Y.
    rewrite slice_from_shift; [reflexivity|].
    pose proof (barker_chain_last _ _ _ Hc). lia.
Qed.

End ExtractCons.


Section StreamFacts.
Import Client.

Lemma frame_starts_ge (a i : nat) (Ws : list bytes) :
  In i (frame_starts a Ws) -> (a <= i)%nat.
Proof.
  revert a. induction Ws as [|W Ws IH]; intros a Hi; [contradiction|].
  destruct Hi as [<-|Hi]; [lia|]. apply IH in Hi. lia.
Qed.

Lemma frame_starts_shift (a i : nat) (Ws : list bytes) :
  In (a + i)%nat (frame_starts a Ws) -> In i (frame_starts 0 Ws).
Proof.
  assert (Hg : forall b, In (a + i)%nat (frame_starts (a + b) Ws) ->
                         In i (frame_starts b Ws)).
  { induction Ws as [|W Ws IH]; intros b Hi; [contradiction|].
    destruct Hi as [E|Hi]; [left; lia|]. right. apply IH.
    replace (a + (b + length W))%nat with (a + b + length W)%nat by lia.
    exact Hi. }
  intros Hi. apply Hg. rewrite Nat.add_0_r. exact Hi.
Qed.

Lemma stream_cons (x : item) (xs : list item) :
  stream (x :: xs) = bytes_of x ++ stream xs.
Proof. reflexivity. Qed.

Lemma stream_app (xs ys : list item) :
  stream (xs ++ ys) = stream xs ++ stream ys.
Proof. unfold stream. rewrite map_app, concat_app. reflexivity. Qed.

Lemma sound_tail (x : item) (xs : list item) : sound (x :: xs) -> sound xs.
Proof. destruct x; cbn [sound]; tauto. Qed.

Lemma sound_app (xs ys : list item) : sound (xs ++ ys) -> sound ys.
Proof.
  induction xs as [|x xs IH]; intros Hs; [exact Hs|].
  apply IH, (sound_tail x), Hs.
Qed.

Lemma item_length (x : item) (xs : list item) :
  sound (x :: xs) -> (8 <= length (bytes_of x))%nat.
Proof.
  destruct x as [p|J]; cbn [sound bytes_of].
  - intros _. pose proof (length_frame p). lia.
  - intros [Hb _]. apply barker_at_length in Hb. lia.
Qed.

Lemma item_barker (x : item) (xs : list item) :
  sound (x :: xs) -> barker_at (stream (x :: xs)) 0 = true.
Proof.
  rewrite stream_cons. destruct x as [p|J]; cbn [sound bytes_of].
  - intros _. apply frame_barker.
  - intros [Hb _]. apply (barker_at_prefix J (stream xs)) in Hb. tauto.
Qed.

Lemma item_unwrap (J : bytes) (xs : list item) :
  sound (Junk J :: xs) ->
  (forall k, (8 <= k)%nat -> barker_at J k = false) ->
  Protocol.unwrap J = Raised ValueError.
Proof.
  intros (_ & Hu & _) Hno. specialize (Hu (length J)).
  rewrite take_app_length in Hu. apply Hu, Hno.
Qed.

Lemma stream_length (xs : list item) :
  sound xs -> xs <> [] -> (8 <= length (stream xs))%nat.
Proof.
  destruct xs as [|x xs]; [congruence|]. intros Hs _.
  pose proof (item_length x xs Hs). rewrite stream_cons, length_app. lia.
Qed.

Lemma clean_head (x : item) (xs : list item) (i : nat) :
  clean (x :: xs) -> barker_at (stream (x :: xs)) i = true ->
  i = 0%nat \/ (length (bytes_of x) <= i)%nat.
Proof.
  intros Hc E. apply Hc in E. destruct E as [<-|E]; [left; reflexivity|].
  right. apply frame_starts_ge in E. lia.
Qed.

Lemma clean_tail (x : item) (xs : list item) :
  (0 < length (bytes_of x))%nat -> clean (x :: xs) -> clean xs.
Proof.
  intros Hl Hc i E.
  rewrite <- (barker_at_app_r (bytes_of x)) in E.
  apply Hc in E. destruct E as [E|E]; [lia|].
  apply frame_starts_shift in E. exact E.
Qed.

Lemma clean_app (xs ys : list item) :
  sound (xs ++ ys) -> clean (xs ++ ys) -> clean ys.
Proof.
  induction xs as [|x xs IH]; intros Hs Hc; [exact Hc|].
  pose proof (item_length x _ Hs).
  apply IH; [apply (sound_tail x), Hs|apply (clean_tail x); [lia|exact Hc]].
Qed.

Lemma clean_frame (p : packet) (xs : list item) (i : nat) :
  clean (Good p :: xs) -> barker_at (frame p) i = true -> i = 0%nat.
Proof.
  intros Hc E.
  apply (barker_at_prefix _ (stream xs)) in E as [E Hl].
  apply (clean_head (Good p) xs i Hc) in E. cbn [bytes_of] in E. lia.
Qed.

Lemma ends_well_app (xs ys : list item) : ends_well (xs ++ ys) -> ends_well ys.
Proof.
  intros Hw xs' J E. apply (Hw (xs ++ xs') J).
  rewrite E, app_assoc. reflexivity.
Qed.

Lemma calls_of_app (xs ys : list item) :
  calls_of (xs ++ ys) = calls_of xs ++ calls_of ys.
Proof. unfold calls_of. rewrite flat_map_app, dispatched_app. reflexivity. Qed.

Lemma calls_of_good (ps : list packet) :
  calls_of (map Good ps) = map arguments_of ps.
Proof.
  induction ps as [|p ps IH]; [reflexivity|].
  unfold calls_of in *. cbn [map flat_map steps_of app dispatched].
  f_equal. exact IH.
Qed.

Lemma calls_exactly_items (xs : list item) :
  calls_exactly (flat_map steps_of xs) (calls_of xs).
Proof.
  split; [reflexivity|].
  induction xs as [|[p|J] xs IH]; cbn [flat_map steps_of app];
    [constructor|constructor; [exact I|exact IH]..].
Qed.

Lemma calls_exactly_quiets (noise steps : list step) (calls : list call) :
  Forall quiet noise -> calls_exactly steps calls ->
  calls_exactly (noise ++ steps) calls.
Proof.
  intros Hn Hs. induction Hn as [|s noise Hq _ IH]; [exact Hs|].
  cbn [app]. apply calls_exactly_quiet; assumption.
Qed.

(** One more piece is read: the steps of the round, and then the steps of
    the rounds that follow. *)
Lemma read_piece (data piece : bytes) (pieces : list bytes)
  (steps : list step) (buffer : bytes) (c1 c2 : list call) (W : Prop) :
  round data piece = (steps, buffer) ->
  calls_exactly steps c1 ->
  calls_exactly (script buffer pieces) c2
  /\ (W -> kept buffer pieces = []) ->
  calls_exactly (script data (piece :: pieces)) (c1 ++ c2)
  /\ (W -> kept data (piece :: pieces) = []).
Proof.
  intros Hr H1 [H2 Hk]. cbn [script kept]. rewrite Hr. cbn [fst snd].
  split; [|exact Hk].
  apply calls_exactly_quiet; [exact I|].
  apply calls_exactly_app; [exact H1|].
  apply calls_exactly_quiet; [exact I|exact H2].
Qed.

Lemma read_nothing (data : bytes) (pieces : list bytes) (calls : list call)
  (W : Prop) :
  calls_exactly (script data pieces) calls /\ (W -> kept data pieces = []) ->
  calls_exactly (script data ([] :: pieces)) calls
  /\ (W -> kept data ([] :: pieces) = []).
Proof.
  intros HI.
  apply (read_piece data [] pieces [] data [] calls W (round_empty data));
    [split; constructor|exact HI].
Qed.

Lemma process_cons (x : item) (xs : list item) (rest : bytes) :
  sound (x :: xs) -> barker_at rest 0 = true ->
  (forall i, (8 <= i < length (bytes_of x))%nat ->
             barker_at (bytes_of x ++ rest) i = false) ->
  process (bytes_of x ++ rest)
  = (steps_of x ++ fst (process rest), snd (process rest)).
Proof.
  intros Hs Hrest Hno. pose proof (item_length x xs Hs) as Hl.
  assert (Hx : packet_steps (bytes_of x) = steps_of x).
  { destruct x as [p|J]; cbn [bytes_of steps_of].
    - apply packet_steps_whole, Hs.
    - unfold packet_steps. rewrite (item_unwrap J xs Hs); [reflexivity|].
      intros k Hk. apply not_true_false. intros E.
      apply (barker_at_prefix J rest) in E as [E Hlk].
      cbn [bytes_of] in Hno. rewrite Hno in E by lia. discriminate. }
  unfold process. rewrite extract_cons by (lia || assumption).
  pose proof (extract_packets_nonempty rest) as Hne.
  destruct (_extract_packets rest) as [|q qs]; [contradiction|].
  change (removelast (bytes_of x :: q :: qs))
    with (bytes_of x :: removelast (q :: qs)).
  change (last_packet (bytes_of x :: q :: qs)) with (last_packet (q :: qs)).
  cbn [flat_map]. rewrite Hx.
  destruct (Protocol.unwrap (last_packet (q :: qs)))
    as [[arguments redundant]|e]; cbn [fst snd];
    rewrite <- ?app_assoc; reflexivity.
Qed.

Lemma process_tail (p : packet) (tail : bytes) :
  well_formed p ->
  (forall i, (8 <= i)%nat -> barker_at (frame p ++ tail) i = false) ->
  process (frame p ++ tail) = ([Dispatch (arguments_of p)], tail).
Proof.
  intros Hwf Hno. unfold process. rewrite extract_one by exact Hno.
  cbn [removelast last_packet List.last flat_map].
  rewrite (unwrap_frame_tail p _ Hwf). reflexivity.
Qed.

Lemma process_junk (X : bytes) :
  (forall i, (8 <= i)%nat -> barker_at X i = false) ->
  Protocol.unwrap X = Raised ValueError ->
  process X = ([], X).
Proof.
  intros Hno Hu. unfold process. rewrite extract_one by exact Hno.
  cbn [removelast last_packet List.last flat_map].
  rewrite Hu. reflexivity.
Qed.

(** The listener has found a Barker at the start of its buffer, which is
    the first [L] bytes of the stream of the items: it handles the items
    that another Barker, or the end of a frame, shows to be whole, and
    keeps the rest. *)
Lemma process_take (xs : list item) (L : nat) :
  sound xs -> clean xs ->
  (8 <= L <= length (stream xs))%nat ->
  exists xs1 xs2 j,
    xs = xs1 ++ xs2
    /\ L = (length (stream xs1) + j)%nat
    /\ resting xs2 j
    /\ process (take L (stream xs))
       = (flat_map steps_of xs1, take j (stream xs2)).
Proof.
  revert L. induction xs as [|x xs IH]; intros L Hs Hc HL.
  { cbn in HL. lia. }
  pose proof (item_length x xs Hs) as Hl.
  rewrite stream_cons, length_app in HL.
  assert (Hocc : forall i,
             barker_at (take L (stream (x :: xs))) i = true ->
             (i = 0%nat \/ (length (bytes_of x) <= i)%nat)
             /\ (i + 8 <= L)%nat).
  { intros i E.
    apply (barker_at_prefix _ (drop L (stream (x :: xs)))) in E as [E Hi].
    rewrite take_drop in E. split; [apply (clean_head x xs i Hc E)|].
    rewrite length_take in Hi. lia. }
  destruct (le_lt_dec (length (bytes_of x) + 8) L) as [H8|H8].
  - (* the next Barker is whole in the buffer *)
    destruct (IH (L - length (bytes_of x))%nat (sound_tail x xs Hs)
                (clean_tail x xs ltac:(lia) Hc) ltac:(lia))
      as (xs1 & xs2 & j & Exs & HLj & Hj & Hproc).
    exists (x :: xs1), xs2, j. split; [rewrite Exs; reflexivity|].
    split; [rewrite stream_cons, length_app; lia|]. split; [exact Hj|].
    rewrite stream_cons, take_app_ge by lia.
    rewrite (process_cons x xs), Hproc; [reflexivity|exact Hs| |].
    + apply (barker_at_prefix _ (drop (L - length (bytes_of x)) (stream xs))).
      rewrite take_drop, length_take. split; [|lia].
      destruct xs as [|y ys];
        [unfold stream in HL; cbn [map concat length] in HL; lia|].
      apply item_barker, (sound_tail x), Hs.
    + intros i Hi. apply not_true_false. intros E.
      rewrite <- take_app_ge, <- stream_cons in E by lia.
      apply Hocc in E. lia.
  - destruct x as [p|J]; cbn [bytes_of] in *.
    + destruct (le_lt_dec (length (frame p)) L) as [Hge|Hlt].
      * (* the frame is whole, and less than a Barker follows *)
        exists [Good p], xs, (L - length (frame p))%nat.
        split; [reflexivity|].
        split; [unfold stream; cbn [map concat bytes_of];
                rewrite app_nil_r; lia|].
        split.
        { destruct xs as [|[q|J'] ys]; cbn [resting].
          - unfold stream in HL. cbn [map concat length] in HL. lia.
          - pose proof (length_frame q). lia.
          - lia. }
        rewrite stream_cons. cbn [bytes_of]. rewrite take_app_ge by lia.
        apply process_tail; [apply Hs|].
        intros i Hi. apply not_true_false. intros E.
        rewrite <- take_app_ge in E by lia.
        change (frame p ++ stream xs) with (stream (Good p :: xs)) in E.
        apply Hocc in E. lia.
      * (* the frame is not whole *)
        exists [], (Good p :: xs), L. split; [reflexivity|].
        split; [reflexivity|]. split; [exact Hlt|].
        rewrite stream_cons. cbn [bytes_of]. rewrite take_app_le by lia.
        apply process_partial; [apply Hs| |exact Hlt].
        intros i. apply (clean_frame p xs i Hc).
    + (* junk, and the next Barker is not whole *)
      exists [], (Junk J :: xs), L. split; [reflexivity|].
      split; [reflexivity|]. split; [exact H8|].
      assert (Hnb : forall i, (8 <= i)%nat ->
                      barker_at (take L (stream (Junk J :: xs))) i = false).
      { intros i Hi. apply not_true_false. intros E. apply Hocc in E. lia. }
      apply process_junk; [exact Hnb|].
      rewrite stream_cons in Hnb |- *. apply Hs, Hnb.
Qed.

(** The listener's buffer rests on the first [j] bytes of the stream of
    the items, and a piece of the rest arrives. *)
Lemma round_items (xs : list item) (j : nat) (piece rest : bytes) :
  sound xs -> clean xs -> resting xs j ->
  (j <= length (stream xs))%nat -> piece <> [] ->
  piece ++ rest = drop j (stream xs) ->
  exists noise xs1 xs2 j',
    xs = xs1 ++ xs2
    /\ resting xs2 j' /\ (j' <= length (stream xs2))%nat
    /\ rest = drop j' (stream xs2)
    /\ Forall quiet noise
    /\ round (take j (stream xs)) piece
       = (noise ++ flat_map steps_of xs1, take j' (stream xs2)).
Proof.
  intros Hs Hc Hj Hjle Hne Hcat.
  destruct (piece_advances (stream xs) piece rest j Hjle Hcat)
    as (HX & Hrest & HL).
  set (L := (j + length piece)%nat) in *.
  assert (Hpl : (0 < length piece)%nat)
    by (destruct piece; [contradiction|simpl; lia]).
  destruct (le_lt_dec 8 L) as [H8|H8].
  - destruct (process_take xs L Hs Hc ltac:(lia))
      as (xs1 & xs2 & j' & Exs & HLj & Hj' & Hproc).
    assert (Hlen : length (stream xs)
                   = (length (stream xs1) + length (stream xs2))%nat).
    { rewrite Exs, stream_app, length_app. reflexivity. }
    exists [], xs1, xs2, j'. split; [exact Exs|]. split; [exact Hj'|].
    split; [lia|]. split.
    { rewrite Hrest, Exs, stream_app, HLj, drop_app_ge by lia.
      f_equal. lia. }
    split; [constructor|].
    rewrite (round_found _ _ 0 Hne), drop_0, HX; [exact Hproc| |].
    + rewrite HX. apply (barker_at_prefix _ (drop L (stream xs))).
      rewrite take_drop, length_take. split; [|lia].
      destruct xs as [|x xs'];
        [unfold stream in HL; cbn [map concat length] in HL; lia|].
      apply item_barker, Hs.
    + intros i Hi. lia.
  - exists [Log (Bad_data (take L (stream xs)))], [], xs, L.
    split; [reflexivity|]. split.
    { destruct xs as [|[p|J] xs']; cbn [resting].
      - unfold stream in HL. cbn [map concat length] in HL. lia.
      - pose proof (length_frame p). lia.
      - lia. }
    split; [exact HL|]. split; [exact Hrest|].
    split; [constructor; [exact I|constructor]|].
    rewrite (round_none _ _ Hne), HX.
    + rewrite length_take.
      replace (L `min` length (stream xs) - 7)%nat with 0%nat by lia.
      rewrite drop_0. reflexivity.
    + intros i. apply not_true_false. intros E. rewrite HX in E.
      apply barker_at_length in E. rewrite length_take in E. lia.
Qed.

(** The listener's buffer rests on the first [j] bytes of the stream of
    the items, and the rest arrives in pieces. *)
Lemma script_items (pieces : list bytes) (xs : list item) (j : nat) :
  sound xs -> clean xs -> resting xs j ->
  (j <= length (stream xs))%nat ->
  concat pieces = drop j (stream xs) ->
  calls_exactly (script (take j (stream xs)) pieces) (calls_of xs)
  /\ (ends_well xs -> kept (take j (stream xs)) pieces = []).
Proof.
  revert xs j. induction pieces as [|piece pieces IH];
    intros xs j Hs Hc Hj Hjle Hcat.
  { cbn [concat] in Hcat. apply (f_equal length) in Hcat.
    rewrite length_drop in Hcat. cbn [length] in Hcat.
    destruct xs as [|[p|J] xs']; cbn [resting] in Hj.
    - subst j. split; [split; constructor|reflexivity].
    - rewrite stream_cons, length_app in Hcat. cbn [bytes_of] in Hcat. lia.
    - rewrite stream_cons, length_app in Hcat, Hjle. cbn [bytes_of] in *.
      destruct xs' as [|y ys].
      + split; [split; constructor|]. intros Hw. exfalso.
        apply (Hw [] J). reflexivity.
      + pose proof (stream_length (y :: ys) (sound_tail _ _ Hs)
                      ltac:(discriminate)).
        lia. }
  destruct (decide (piece = [])) as [->|Hne].
  { apply read_nothing, IH; assumption. }
  cbn [concat] in Hcat.
  destruct (round_items xs j piece (concat pieces) Hs Hc Hj Hjle Hne Hcat)
    as (noise & xs1 & xs2 & j' & Exs & Hj' & Hjle' & Hrest & Hq & Hround).
  rewrite Exs in Hs, Hc.
  destruct (IH xs2 j' (sound_app _ _ Hs) (clean_app _ _ Hs Hc) Hj' Hjle' Hrest)
    as [IH1 IH2].
  rewrite Exs at 2 3. rewrite calls_of_app.
  apply (read_piece _ _ _ _ _ _ _ _ Hround).
  - apply calls_exactly_quiets; [exact Hq|apply calls_exactly_items].
  - split; [exact IH1|]. intros Hw. apply IH2, (ends_well_app xs1), Hw.
Qed.

End StreamFacts.

Section GarbageThenItems.
Variables (G : bytes) (xs : list item).
Hypothesis Hs : sound xs.
Hypothesis Hpos :
  forall i, barker_at (G ++ stream xs) i = true ->
            In i (frame_starts (length G) (map bytes_of xs)).

Lemma clean_behind_garbage : clean xs.
Proof.
  intros i E. rewrite <- (barker_at_app_r G) in E.
  apply Hpos, frame_starts_shift in E. exact E.
Qed.

(** The listener has read [C], in which no Barker is whole, and has kept
    its last seven bytes; the rest arrives. *)
Lemma script_garbage_items (pieces : list bytes) (C : bytes) :
  C ++ concat pieces = G ++ stream xs ->
  (length C < length G + 8)%nat ->
  calls_exactly (script (drop (length C - 7) C) pieces) (calls_of xs)
  /\ (xs <> [] /\ ends_well xs ->
      kept (drop (length C - 7) C) pieces = []).
Proof.
  revert C. induction pieces as [|piece pieces IH]; intros C HS HC.
  { cbn [concat] in HS. rewrite app_nil_r in HS.
    apply (f_equal length) in HS. rewrite length_app in HS.
    destruct (decide (xs = [])) as [E|Hne].
    - rewrite E. split; [split; constructor|]. intros [Hne _]. congruence.
    - pose proof (stream_length xs Hs Hne). lia. }
  destruct (decide (piece = [])) as [->|Hne].
  { apply read_nothing, IH; assumption. }
  cbn [concat] in HS. rewrite app_assoc in HS.
  set (C' := C ++ piece) in *. set (m := (length C - 7)%nat).
  assert (HX : drop m C ++ piece = drop m C').
  { unfold C'. rewrite drop_app_le by lia. reflexivity. }
  assert (HlC' : length C' = (length C + length piece)%nat)
    by apply length_app.
  assert (Hocc : forall i, barker_at C' i = true ->
                           (length G <= i)%nat /\ (i + 8 <= length C')%nat).
  { intros i E. apply (barker_at_prefix C' (concat pieces)) in E as [E Hi].
    rewrite HS in E. apply Hpos, frame_starts_ge in E. lia. }
  assert (Hle : (length C' <= length G + length (stream xs))%nat).
  { apply (f_equal length) in HS. rewrite !length_app in HS. lia. }
  replace (calls_of xs) with ([] ++ calls_of xs) by reflexivity.
  destruct (le_lt_dec (length G + 8) (length C')) as [Hin|Hout].
  - assert (Hb : barker_at (stream xs) 0 = true).
    { destruct (decide (xs = [])) as [E|Hxs].
      - exfalso. clear -Hle Hin E. rewrite E in Hle.
        unfold stream in Hle. cbn [map concat length] in Hle. lia.
      - clear -Hs Hxs. destruct xs as [|x xs']; [congruence|].
        apply item_barker, Hs. }
    assert (Htake : drop (length G) C'
                    = take (length C' - length G) (stream xs)).
    { assert (E : C' = take (length C') (G ++ stream xs))
        by (rewrite <- HS, take_app_length; reflexivity).
      rewrite E at 1. rewrite take_app_ge by lia.
      rewrite drop_app_length. reflexivity. }
    assert (Hrest : concat pieces = drop (length C' - length G) (stream xs)).
    { rewrite <- (drop_app_length C' (concat pieces)), HS.
      rewrite drop_app_ge by lia. reflexivity. }
    assert (Hround : round (drop m C) piece = process (drop (length G) C')).
    { rewrite (round_found _ _ (length G - m) Hne).
      - rewrite HX, drop_drop. f_equal. f_equal. lia.
      - rewrite HX, barker_at_drop.
        replace (m + (length G - m))%nat with (length G) by lia.
        apply (barker_at_prefix C' (concat pieces)). split; [|lia].
        rewrite HS, <- (Nat.add_0_r (length G)), barker_at_app_r.
        exact Hb.
      - intros i Hi. rewrite HX, barker_at_drop. apply not_true_false.
        intros E. apply Hocc in E. lia. }
    destruct (process_take xs (length C' - length G) Hs
                clean_behind_garbage ltac:(lia))
      as (xs1 & xs2 & j & E12 & HLj & Hj & Hproc).
    rewrite Htake, Hproc in Hround.
    pose proof Hs as Hs'. pose proof clean_behind_garbage as Hc'.
    rewrite E12 in Hs', Hc'.
    assert (Hlen : length (stream xs)
                   = (length (stream xs1) + length (stream xs2))%nat).
    { rewrite E12, stream_app, length_app. reflexivity. }
    destruct (script_items pieces xs2 j (sound_app _ _ Hs')
                (clean_app _ _ Hs' Hc') Hj ltac:(lia)) as [S1 S2].
    { rewrite Hrest, E12, stream_app, HLj, drop_app_ge by lia.
      f_equal. lia. }
    replace ([] ++ calls_of xs) with (calls_of xs1 ++ calls_of xs2)
      by (rewrite E12, calls_of_app; reflexivity).
    apply (read_piece _ _ _ _ _ _ _ _ Hround); [apply calls_exactly_items|].
    split; [exact S1|]. intros [_ Hw]. apply S2, (ends_well_app xs1).
    rewrite <- E12. exact Hw.
  - assert (Hround : round (drop m C) piece
                     = ([Log (Bad_data (drop m C'))],
                        drop (length C' - 7) C')).
    { rewrite (round_none _ _ Hne), HX.
      - f_equal. rewrite drop_drop, length_drop. f_equal. lia.
      - intros i. rewrite HX, barker_at_drop. apply not_true_false.
        intros E. apply Hocc in E. lia. }
    apply (read_piece _ _ _ _ _ _ _ _ Hround).
    + split; [reflexivity|constructor; [exact I|constructor]].
    + apply IH; [exact HS|lia].
Qed.

End GarbageThenItems.

Section GarbageItems.

Lemma frame_starts_S (a i : nat) (Ws : list bytes) :
  In i (frame_starts a Ws) -> In (S i) (frame_starts (S a) Ws).
Proof.
  revert a. induction Ws as [|W Ws IH]; intros a Hi; [contradiction|].
  destruct Hi as [<-|Hi]; [left; reflexivity|]. right.
  apply (IH (a + length W)%nat), Hi.
Qed.

Lemma frame_starts_app (a : nat) (Ws Vs : list bytes) :
  frame_starts a (Ws ++ Vs)
  = frame_starts a Ws ++ frame_starts (a + length (concat Ws)) Vs.
Proof.
  revert a. induction Ws as [|W Ws IH]; intros a.
  - cbn [app concat length frame_starts]. rewrite Nat.add_0_r. reflexivity.
  - cbn [app concat frame_starts]. rewrite IH, length_app. f_equal.
    f_equal. f_equal. lia.
Qed.

(** Garbage is bytes in which no Barker is whole, and then junk: from each
    Barker in it to the next, bytes that the listener cuts out and that
    [unwrap] does not accept. *)
Lemma garbage_items (G : bytes) (xs : list item) :
  sound xs -> xs <> [] ->
  (forall i n, (i < length G)%nat ->
               barker_at (G ++ stream xs) i = true ->
               (forall k, (8 <= k)%nat ->
                          barker_at (take n (drop i (G ++ stream xs))) k
                          = false) ->
               Protocol.unwrap (take n (drop i (G ++ stream xs)))
               = Raised ValueError) ->
  exists G0 js,
    G = G0 ++ stream js
    /\ sound (js ++ xs)
    /\ calls_of js = []
    /\ (forall i, (i < length G)%nat ->
                  barker_at (G ++ stream xs) i = true ->
                  In i (frame_starts (length G0) (map bytes_of js))).
Proof.
  intros Hs Hne. induction G as [|g G' IH]; intros Hjunk.
  { exists [], []. split; [reflexivity|]. split; [exact Hs|].
    split; [reflexivity|]. intros i Hi. cbn [length] in Hi. lia. }
  destruct IH as (G0 & js & EG & Hsj & Hcj & Hin).
  { intros i n Hi E Hk.
    apply (Hjunk (S i) n); [cbn [length]; lia|exact E|exact Hk]. }
  destruct (barker_at ((g :: G') ++ stream xs) 0) eqn:E0.
  - exists [], (Junk (g :: G0) :: js).
    assert (ES : (g :: G') ++ stream xs
                 = (g :: G0) ++ stream (js ++ xs)).
    { rewrite EG, stream_app. cbn [app]. rewrite <- app_assoc.
      reflexivity. }
    split; [rewrite EG; reflexivity|]. split.
    + change ((Junk (g :: G0) :: js) ++ xs)
        with (Junk (g :: G0) :: (js ++ xs)).
      cbn [sound]. split; [|split; [|exact Hsj]].
      * apply (barker_at_prefix _ (stream (js ++ xs))).
        rewrite <- ES. split; [exact E0|].
        destruct (le_lt_dec 8 (length (g :: G0))) as [Hl|Hl]; [lia|].
        exfalso.
        assert (Eb : barker_at ((g :: G') ++ stream xs) (length (g :: G0))
                     = true).
        { rewrite ES, <- (Nat.add_0_r (length (g :: G0))), barker_at_app_r.
          destruct (js ++ xs) as [|y ys] eqn:Ey.
          - apply app_eq_nil in Ey as [_ Ey]. congruence.
          - apply item_barker, Hsj. }
        pose proof (barker_alone _ _ E0 Eb Hl) as Hz. cbn [length] in Hz. lia.
      * intros n Hk. rewrite <- ES in Hk |- *.
        apply (Hjunk 0%nat n); [cbn [length]; lia|exact E0|exact Hk].
    + split; [exact Hcj|].
      intros [|i] Hi E; [left; reflexivity|]. right.
      cbn [length] in Hi. change (0 + length (g :: G0))%nat with (S (length G0)).
      apply frame_starts_S, Hin; [lia|exact E].
  - exists (g :: G0), js. split; [rewrite EG; reflexivity|].
    split; [exact Hsj|]. split; [exact Hcj|].
    intros [|i] Hi E; [rewrite E0 in E; discriminate|].
    cbn [length] in Hi |- *. apply frame_starts_S, Hin; [lia|exact E].
Qed.

End GarbageItems.

Section FramesOnly.

Lemma ends_well_good (xs : list item) (p : packet) :
  ends_well (xs ++ [Good p]).
Proof.
  intros xs' J E. apply app_inj_tail in E as [_ E]. discriminate.
Qed.

Lemma stream_good (ps : list packet) :
  map bytes_of (map Good ps) = map frame ps.
Proof. induction ps as [|p ps IH]; [reflexivity|]. cbn [map]. f_equal. exact IH. Qed.

Lemma sound_good (ps : list packet) :
  Forall well_formed ps -> sound (map Good ps).
Proof.
  induction 1 as [|p ps Hp _ IH]; [exact I|]. cbn [map sound]. tauto.
Qed.

(** Garbage in which no Barker is whole, and then frames. *)
Lemma script_garbage_frames (G : bytes) (ps : list packet)
  (pieces : list bytes) :
  Forall well_formed ps ->
  (forall i, barker_at (G ++ concat (map frame ps)) i = true ->
             In i (frame_starts (length G) (map frame ps))) ->
  concat pieces = G ++ concat (map frame ps) ->
  calls_exactly (script [] pieces) (map arguments_of ps).
Proof.
  intros Hwf Hpos Hcat. rewrite <- calls_of_good.
  apply (script_garbage_items G (map Good ps) (sound_good ps Hwf))
    with (C := []); [|unfold stream; rewrite stream_good; exact Hcat
                     |cbn [length]; lia].
  unfold stream. rewrite stream_good. exact Hpos.
Qed.

Lemma wrapped_frames (ps : list packet) (frames : list bytes) :
  Forall2 (fun p W => wrap p = Done W) ps frames ->
  Forall well_formed ps /\ frames = map frame ps.
Proof.
  induction 1 as [|p W ps frames Hw _ [IH1 IH2]].
  - split; [constructor|reflexivity].
  - apply wrap_inv in Hw as [Hwf ->]. split; [constructor; assumption|].
    cbn [map]. f_equal. exact IH2.
Qed.

End FramesOnly.

(** ** The listener returns from its rounds *)

Section RunReturns.
Context {P : Type} `{AbstractPeer P}.
Variable CHUNK_SIZE : Z.
Import Client.

Lemma survives_mono (seen seen' : Z -> Prop) (ps : list packet) :
  (forall m, seen m -> seen' m) -> survives seen ps -> survives seen' ps.
Proof.
  revert seen seen'. induction ps as [|p ps IH]; intros seen seen' Hm Hs;
    [exact I|].
  destruct Hs as [Hp Hs]. split.
  - intros Ht. destruct (Hp Ht) as (m & E & Hsm). exists m. auto.
  - apply (IH _ _ (fun m Hx => match Hx with
                               | or_introl a => or_introl (Hm m a)
                               | or_intror b => or_intror b
                               end) Hs).
Qed.

Lemma only_adds_deliver_reliable (message : option bytes)
  (stream_id : option Z) :
  advances (@only_adds P) (deliver_reliable message stream_id).
Proof.
  unfold deliver_reliable.
  destruct stream_id as [s|]; [|apply only_adds_emit].
  destruct (bool_decide _);
    [apply only_adds_file_frame|apply only_adds_emit].
Qed.

(** The handler records the id of a reliable message, however it ends. *)
Lemma handler_records (message : option bytes) (m : Z)
  (stream_id : option Z) (c : client P) :
  u32 m ->
  seen_by
    (state_of (_handle_unwrapped_message message (Some m) stream_id None c))
    m.
Proof.
  intros Hm. pose proof (wrap_ack_u32 m Hm) as Hack. unfold seen_by.
  destruct (_messages_ids_that_have_been_received c !! m) as [b|] eqn:E.
  - rewrite (handle_again message m stream_id _ c Hack)
      by (rewrite E; eexists; reflexivity).
    cbn [state_of]. unfold acked_with. cbn. rewrite E. eexists. reflexivity.
  - rewrite (handle_first message m stream_id _ c Hack E).
    apply (only_adds_deliver_reliable message stream_id).
    unfold recorded. cbn. rewrite lookup_insert_eq. eexists. reflexivity.
Qed.

Lemma tables_ready_only_adds (c c' : client P) :
  only_adds c c' -> tables_ready c -> tables_ready c'.
Proof.
  intros (_ & _ & Hk & _) Hr s Hs. apply Hk, Hr, Hs.
Qed.

Lemma seen_by_only_adds (c c' : client P) (m : Z) :
  only_adds c c' -> seen_by c m -> seen_by c' m.
Proof. intros (Hk & _). apply Hk. Qed.

Lemma message_id_u32 (p : packet) (m : Z) :
  well_formed p -> message_id_of p = Some m -> u32 m.
Proof.
  intros Hwf E. destruct p; try discriminate; inversion E; subst;
    apply Forall_inv in Hwf; exact Hwf.
Qed.

(** The handler returns on a packet that is no truncated chunk with a new
    id. *)
Lemma handle_returns (p : packet) (c : client P) :
  well_formed p -> tables_ready c ->
  (truncated_chunk p -> exists m, message_id_of p = Some m /\ seen_by c m) ->
  exists c',
    handle (arguments_of p, []) c = Returned tt c'
    /\ only_adds c c'
    /\ (forall m, message_id_of p = Some m -> seen_by c' m).
Proof.
  intros Hwf Hready Hp.
  pose proof (unwrap_frame p Hwf) as Hu.
  destruct (unwrapped_of p) as [[[[message message_id] stream_id] acked] r]
    eqn:Eu.
  assert (Ea : arguments_of p = (message, message_id, stream_id, acked)).
  { unfold arguments_of. rewrite Eu. reflexivity. }
  rewrite Ea. cbn [handle].
  pose proof (handler_cases (frame p) _ _ _ _ _ c Hready Hu) as Hcases.
  pose proof (only_adds_handler message message_id stream_id acked c) as Hoa.
  assert (Hrec : forall m, message_id_of p = Some m ->
                  seen_by (state_of (_handle_unwrapped_message message
                                       message_id stream_id acked c)) m).
  { intros m Em. pose proof (message_id_u32 p m Hwf Em) as Hm.
    destruct p; try discriminate; inversion Em; subst;
      cbn [unwrapped_of] in Eu; inversion Eu; subst;
      apply handler_records, Hm. }
  destruct (_handle_unwrapped_message message message_id stream_id acked c)
    as [[] c'|e c'|c'].
  - exists c'. split; [reflexivity|]. split; [exact Hoa|exact Hrec].
  - exfalso. destruct Hcases as [(data & m & s & r' & E & Hs & Hnew & Hl) _].
    rewrite Hu in E. inversion E; subst.
    destruct p; cbn [unwrapped_of] in Eu; inversion Eu; subst.
    destruct Hp as (m' & Em & Hseen); [split; assumption|].
    cbn [message_id_of] in Em. inversion Em; subst.
    unfold seen_by in Hseen. rewrite Hnew in Hseen.
    destruct Hseen as [? ?]. discriminate.
  - contradiction.
Qed.

(** The steps, whose calls of the handler are those for the packets,
    return. *)
Lemma run_survives (steps : list step) (ps : list packet) (c : client P)
  (seen : Z -> Prop) :
  dispatched steps = map arguments_of ps ->
  Forall well_formed ps -> tables_ready c ->
  (forall m, seen m -> seen_by c m) -> survives seen ps ->
  exists c', run CHUNK_SIZE steps c = Returned tt c' /\ only_adds c c'.
Proof.
  revert ps c seen.
  induction steps as [|s steps IH]; intros ps c seen Hd Hwf Hready Hseen Hs.
  { exists c. split; [reflexivity|apply only_adds_refl]. }
  rewrite run_cons.
  assert (Hstep : forall c1 ps1 (seen1 : Z -> Prop),
             perform CHUNK_SIZE s c = Returned tt c1 -> only_adds c c1 ->
             dispatched steps = map arguments_of ps1 ->
             Forall well_formed ps1 ->
             (forall m, seen1 m -> seen_by c1 m) -> survives seen1 ps1 ->
             exists c', bind (perform CHUNK_SIZE s)
                          (fun _ => run CHUNK_SIZE steps) c
                        = Returned tt c'
                        /\ only_adds c c').
  { intros c1 ps1 seen1 E Hoa Hd1 Hwf1 Hseen1 Hs1.
    destruct (IH ps1 c1 seen1 Hd1 Hwf1 (tables_ready_only_adds _ _ Hoa Hready)
                Hseen1 Hs1) as (c' & Hrun & Hoa').
    exists c'. split; [|apply (only_adds_trans _ _ _ Hoa Hoa')].
    unfold bind. rewrite E. exact Hrun. }
  destruct s as [|what|a|data]; cbn [dispatched] in Hd.
  - apply (Hstep _ ps seen (perform_receive CHUNK_SIZE c));
      try assumption; apply only_adds_set_peer.
  - apply (Hstep (state_of (emit (print what) c)) ps seen);
      try assumption; [reflexivity|apply only_adds_emit].
  - destruct ps as [|p ps']; [discriminate|].
    cbn [map] in Hd. inversion Hd as [[Ea Hd']]. subst a.
    destruct Hs as [Hp Hs].
    pose proof (List.Forall_inv Hwf) as Hwfp.
    pose proof (List.Forall_inv_tail Hwf) as Hwfps.
    destruct (handle_returns p c Hwfp Hready) as (c1 & E & Hoa & Hrec).
    { intros Ht. destruct (Hp Ht) as (m & Em & Hm). exists m. auto. }
    apply (Hstep c1 ps' (fun m => seen m \/ message_id_of p = Some m));
      [exact E|exact Hoa|exact Hd'|exact Hwfps| |exact Hs].
    intros m [Hm|Hm]; [apply (seen_by_only_adds c), Hseen, Hm; exact Hoa|].
    apply Hrec, Hm.
  - apply (Hstep (set_listener_data data c) ps seen);
      try assumption; [reflexivity|].
    repeat split; auto; exists []; rewrite app_nil_r; reflexivity.
Qed.

(** What the last step of a round leaves in the buffer. *)
Lemma run_script_kept (pieces : list bytes) (data : bytes) (c c' : client P) :
  listener_data c = data ->
  run CHUNK_SIZE (script data pieces) c = Returned tt c' ->
  listener_data c' = kept data pieces.
Proof.
  revert data c. induction pieces as [|piece pieces IH]; intros data c Hd Hrun.
  { inversion Hrun; subst. reflexivity. }
  rewrite script_cons, run_app in Hrun. cbn [kept]. unfold bind in Hrun.
  destruct (run CHUNK_SIZE (Receive :: _ ++ [Keep _]) c) as [[] c1|e c1|c1]
    eqn:E1; try discriminate.
  apply (IH _ c1); [|exact Hrun].
  change (Receive :: fst (round data piece) ++ [Keep (snd (round data piece))])
    with ((Receive :: fst (round data piece))
            ++ [Keep (snd (round data piece))]) in E1.
  rewrite run_app in E1. unfold bind in E1.
  destruct (run CHUNK_SIZE (Receive :: fst (round data piece)) c)
    as [[] c0|e c0|c0]; try discriminate.
  rewrite run_one in E1. cbn [perform modify] in E1.
  inversion E1; subst. reflexivity.
Qed.

End RunReturns.

(** Bytes whose ninth byte is no packet type are no frame, however many
    of them are taken. *)
Lemma unwrap_bad_type (D : bytes) (n : nat) :
  match type_byte D with
  | Some t => negb ((0 <=? t) && (t <=? 4))
  | None => true
  end = true ->
  Protocol.unwrap (take n D) = Raised ValueError.
Proof.
  intros Ht. rewrite unwrap_spec.
  destruct (negb _); [reflexivity|].
  assert (E : type_byte (take n D) = None
              \/ type_byte (take n D) = type_byte D).
  { unfold type_byte. destruct (le_lt_dec n 8) as [Hn|Hn].
    - left. rewrite lookup_take_ge by lia. reflexivity.
    - right. rewrite lookup_take_lt by lia. reflexivity. }
  destruct E as [->| ->]; [reflexivity|].
  destruct (type_byte D) as [t|]; [|reflexivity].
  cbv zeta. rewrite Ht. reflexivity.
Qed.

Section FramesBehindGarbage.
Variable CHUNK_SIZE : Z.

(** What arrives on the link is garbage and then the frames of the
    packets, cut into pieces. Behind the garbage a Barker starts only
    where a frame starts, no Barker in the garbage starts bytes without a
    second Barker that [unwrap] accepts, and no truncated chunk comes with
    a new id: the
    listener returns from every round, it has called the handler once for
    each packet, in order, and its buffer is empty. *)
Lemma reads_frames_behind_garbage (c : client link) (pieces : list bytes)
  (G : bytes) (ps : list packet) :
  Forall well_formed ps -> ps <> [] ->
  listener_data c = [] ->
  incoming (_peer c) = pieces ->
  Forall (fun piece => Z.of_nat (length piece) <= CHUNK_SIZE) pieces ->
  concat pieces = G ++ concat (map frame ps) ->
  (forall i, barker_at (G ++ concat (map frame ps)) i = true ->
             (i < length G)%nat
             \/ In i (frame_starts (length G) (map frame ps))) ->
  (forall i n, (i < length G)%nat ->
               barker_at (G ++ concat (map frame ps)) i = true ->
               (forall k, (8 <= k)%nat ->
                          barker_at
                            (take n (drop i (G ++ concat (map frame ps)))) k
                          = false) ->
               Protocol.unwrap (take n (drop i (G ++ concat (map frame ps))))
               = Raised ValueError) ->
  tables_ready c -> survives (seen_by c) ps ->
  exists c',
    rounds CHUNK_SIZE (length pieces) c = Returned tt c'
    /\ rounds CHUNK_SIZE (length pieces) c
       = run CHUNK_SIZE (script (listener_data c) pieces) c
    /\ calls_exactly (script (listener_data c) pieces) (map arguments_of ps)
    /\ listener_data c' = [].
Proof.
  intros Hwf Hne Hdata Hin Hfit Hcat Hbark Hjunk Hready Hsurv.
  assert (ES : stream (map Good ps) = concat (map frame ps)).
  { unfold stream. rewrite stream_good. reflexivity. }
  rewrite <- ES in Hcat, Hbark, Hjunk.
  destruct (garbage_items G (map Good ps) (sound_good ps Hwf))
    as (G0 & js & EG & Hsj & Hcj & Hinj); [|exact Hjunk|].
  { destruct ps; [congruence|discriminate]. }
  assert (EGS : G0 ++ stream (js ++ map Good ps) = G ++ stream (map Good ps)).
  { rewrite EG, stream_app, <- app_assoc. reflexivity. }
  assert (Hpos : forall i,
             barker_at (G0 ++ stream (js ++ map Good ps)) i = true ->
             In i (frame_starts (length G0)
                     (map bytes_of (js ++ map Good ps)))).
  { intros i E. rewrite EGS in E. rewrite map_app, frame_starts_app.
    apply in_or_app. destruct (Hbark i E) as [Hi|Hi].
    - left. apply Hinj; assumption.
    - right. rewrite stream_good.
      replace (length G0 + length (concat (map bytes_of js)))%nat
        with (length G); [exact Hi|].
      rewrite EG, length_app. reflexivity. }
  destruct (script_garbage_items G0 (js ++ map Good ps) Hsj Hpos pieces [])
    as [Hcalls Hkept]; [rewrite EGS; exact Hcat|cbn [length]; lia|].
  change (drop (length (@nil byte) - 7) []) with (@nil byte) in Hcalls, Hkept.
  rewrite calls_of_app, Hcj, calls_of_good in Hcalls. cbn [app] in Hcalls.
  pose proof (rounds_script CHUNK_SIZE pieces c Hin Hfit) as Hrounds.
  rewrite Hdata in *.
  destruct (run_survives CHUNK_SIZE (script [] pieces) ps c (seen_by c)
              (proj1 Hcalls) Hwf Hready (fun m Hm => Hm) Hsurv)
    as (c' & Hrun & _).
  exists c'. split; [rewrite Hrounds; exact Hrun|].
  split; [exact Hrounds|]. split; [exact Hcalls|].
  rewrite (run_script_kept CHUNK_SIZE pieces [] c c' Hdata Hrun).
  apply Hkept. split.
  - destruct js; destruct ps; try discriminate. congruence.
  - destruct (exists_last Hne) as (ps' & p & ->).
    rewrite map_app, app_assoc. apply ends_well_good.
Qed.

End FramesBehindGarbage.

(** X17. The listener delivers every frame. What arrives on the link is,
    end to end, garbage and then the frames that the [wrap_*] functions
    returned for one or more packets, cut into pieces of any sizes; the
    listener, its buffer empty, reads one piece in each round. Behind the
    garbage a Barker starts only where a frame starts; no Barker in the
    garbage starts bytes that [unwrap] accepts and in which no second
    Barker is whole (the listener cuts at every Barker); and no packet is
    a truncated file chunk with an id that is new when the handler sees
    it.
    Then the listener returns from every round, and has called the handler
    once for each packet, in the order of the frames, with what was
    wrapped, and for nothing else; it has printed nothing but [Bad data]
    and [Bad packet], and its buffer is empty. *)
Theorem listener_delivers_every_frame (CHUNK_SIZE : Z) (c : client link)
  (pieces : list bytes) (G : bytes) (ps : list packet)
  (frames : list bytes) :
  Forall2 (fun p W => wrap p = Done W) ps frames -> ps <> [] ->
  listener_data c = [] ->
  incoming (_peer c) = pieces ->
  Forall (fun piece => Z.of_nat (length piece) <= CHUNK_SIZE) pieces ->
  concat pieces = G ++ concat frames ->
  (forall i, barker_at (G ++ concat frames) i = true ->
             (i < length G)%nat \/ In i (frame_starts (length G) frames)) ->
  (forall i n, (i < length G)%nat ->
               barker_at (G ++ concat frames) i = true ->
               (forall k, (8 <= k)%nat ->
                          barker_at (take n (drop i (G ++ concat frames))) k
                          = false) ->
               Protocol.unwrap (take n (drop i (G ++ concat frames)))
               = Raised ValueError) ->
  tables_ready c -> survives (seen_by c) ps ->
  delivers CHUNK_SIZE c pieces (map arguments_of ps).
Proof.
  intros Hw Hne Hdata Hin Hfit Hcat Hbark Hjunk Hready Hsurv.
  apply wrapped_frames in Hw as [Hwf ->].
  apply (reads_frames_behind_garbage CHUNK_SIZE c pieces G ps); assumption.
Qed.

Lemma listener_delivers_every_frame_witness :
  Forall2 (fun p W => wrap p = Done W) noisy_packets (map frame noisy_packets)
  /\ delivers 40
       (Client.__init__
          {| sent := [];
             incoming := [take 40 noisy_stream; drop 40 noisy_stream];
             later := [] |})
       [take 40 noisy_stream; drop 40 noisy_stream]
       (map arguments_of noisy_packets).
Proof.
  assert (Hw : Forall2 (fun p W => wrap p = Done W) noisy_packets
                 (map frame noisy_packets)).
  { repeat (constructor; [vm_compute; reflexivity|]). constructor. }
  split; [exact Hw|].
  apply (listener_delivers_every_frame 40 _ _ (ascii_bytes "xxBADFDADFyy")
           noisy_packets (map frame noisy_packets) Hw).
  - discriminate.
  - reflexivity.
  - reflexivity.
  - repeat (apply List.Forall_cons; [vm_compute; congruence|]).
    apply List.Forall_nil.
  - vm_compute. reflexivity.
  - intros i E. apply barker_at_positions in E. vm_compute in E.
    destruct E as [<-|[<-|[<-|[<-|[]]]]];
      [left; vm_compute; lia|right; vm_compute; tauto..].
  - intros i n Hi E _.
    do 12 (destruct i as [|i];
           [first [discriminate E
                  |apply unwrap_bad_type; vm_compute; reflexivity]|]).
    vm_compute in Hi. lia.
  - apply tables_ready_init.
  - split; [intros []|]. split.
    + intros _. exists 1. split; [reflexivity|right; reflexivity].
    + split; [intros []|exact I].
Defined.

(** ** Framing resync *)

(** Bytes that hold a second Barker at [k], and that [unwrap] accepts
    only from the length [len] on, behind that Barker: [unwrap] accepts
    none of their prefixes without a second Barker. *)
Lemma cut_at_second_barker (D : bytes) (len k n : nat) :
  (8 <= k)%nat -> barker_at D k = true -> (k + 8 <= len <= length D)%nat ->
  (forall m, (m < len)%nat ->
             Protocol.unwrap (take m D) = Raised ValueError) ->
  (forall j, (8 <= j)%nat -> barker_at (take n D) j = false) ->
  Protocol.unwrap (take n D) = Raised ValueError.
Proof.
  intros Hk Hb Hlen Hshort Hno.
  destruct (le_lt_dec len n) as [Hn|Hn]; [|apply Hshort, Hn].
  exfalso. specialize (Hno k Hk).
  assert (E : barker_at (take n D) k = true).
  { apply (barker_at_prefix _ (drop n D)). rewrite take_drop.
    split; [exact Hb|]. rewrite length_take. lia. }
  rewrite E in Hno. discriminate.
Qed.

(** C6, as amended. Framing resync: the pieces that arrive on the link
    are, end to end, garbage, the frame of [p1] and the frame of [p2]; the
    listener, its buffer empty, reads one piece in each round. Behind the
    garbage a Barker starts only where the two frames start; no Barker in
    the garbage starts bytes that [unwrap] accepts and in which no second
    Barker is whole (the listener cuts at every Barker, so that it gives
    [unwrap] no other bytes); and neither packet is a truncated file chunk
    with an id that is new when the handler sees it. Then the listener
    returns from every round, drops the garbage, and has called the
    handler for [p1] and then for [p2], and for nothing else. *)
Theorem framing_resync (CHUNK_SIZE : Z) (c : client link)
  (pieces : list bytes) (G W1 W2 : bytes) (p1 p2 : packet) :
  wrap p1 = Done W1 -> wrap p2 = Done W2 ->
  listener_data c = [] ->
  incoming (_peer c) = pieces ->
  Forall (fun piece => Z.of_nat (length piece) <= CHUNK_SIZE) pieces ->
  concat pieces = G ++ W1 ++ W2 ->
  (forall i, barker_at (G ++ W1 ++ W2) i = true ->
             (i < length G)%nat
             \/ i = length G \/ i = (length G + length W1)%nat) ->
  (forall i n, (i < length G)%nat ->
               barker_at (G ++ W1 ++ W2) i = true ->
               (forall k, (8 <= k)%nat ->
                          barker_at (take n (drop i (G ++ W1 ++ W2))) k
                          = false) ->
               Protocol.unwrap (take n (drop i (G ++ W1 ++ W2)))
               = Raised ValueError) ->
  tables_ready c ->
  (truncated_chunk p1 ->
   exists m, message_id_of p1 = Some m /\ seen_by c m) ->
  (truncated_chunk p2 ->
   exists m, message_id_of p2 = Some m
             /\ (seen_by c m \/ message_id_of p1 = Some m)) ->
  resyncs CHUNK_SIZE c pieces p1 p2.
Proof.
  intros Hw1 Hw2 Hdata Hin Hfit Hcat Hbark Hjunk Hready Hs1 Hs2.
  apply wrap_inv in Hw1 as [Hwf1 ->]. apply wrap_inv in Hw2 as [Hwf2 ->].
  assert (ES : concat (map frame [p1; p2]) = frame p1 ++ frame p2).
  { cbn [map concat]. rewrite app_nil_r. reflexivity. }
  apply (reads_frames_behind_garbage CHUNK_SIZE c pieces G [p1; p2]);
    try assumption; rewrite ?ES; try assumption.
  - repeat constructor; assumption.
  - discriminate.
  - intros i E. destruct (Hbark i E) as [Hi|[Hi|Hi]];
      [left; exact Hi|right; left; symmetry; exact Hi|].
    right. right. left. symmetry. exact Hi.
  - split; [exact Hs1|]. split; [exact Hs2|exact I].
Qed.

Lemma framing_resync_witness :
  wrap (Reliable (ascii_bytes "P1") 1)
  = Done (frame (Reliable (ascii_bytes "P1") 1))
  /\ wrap (Unreliable (ascii_bytes "P2"))
     = Done (frame (Unreliable (ascii_bytes "P2")))
  /\ resyncs 1024
       (Client.__init__
          {| sent := [];
             incoming := [take 30 resync_stream;
                          take 30 (drop 30 resync_stream);
                          drop 60 resync_stream];
             later := [] |})
       [take 30 resync_stream; take 30 (drop 30 resync_stream);
        drop 60 resync_stream]
       (Reliable (ascii_bytes "P1") 1) (Unreliable (ascii_bytes "P2")).
Proof.
  split; [vm_compute; reflexivity|].
  split; [vm_compute; reflexivity|].
  apply (framing_resync 1024 _ _ cut_frame_garbage
           (frame (Reliable (ascii_bytes "P1") 1))
           (frame (Unreliable (ascii_bytes "P2")))).
  - vm_compute. reflexivity.
  - vm_compute. reflexivity.
  - reflexivity.
  - reflexivity.
  - repeat (apply List.Forall_cons; [vm_compute; congruence|]).
    apply List.Forall_nil.
  - vm_compute. reflexivity.
  - intros i E. apply barker_at_positions in E. vm_compute in E.
    repeat (destruct E as [<-|E]; [vm_compute; lia|]). destruct E.
  - intros i n Hi E Hk.
    assert (Hi' : (i < 40)%nat) by (vm_compute in Hi; lia). clear Hi.
    do 40 (destruct i as [|i];
           [first [vm_compute in E; discriminate E
                  |apply unwrap_bad_type; vm_compute; reflexivity
                  |apply (cut_at_second_barker _ 28 20);
                   [lia|vm_compute; reflexivity|vm_compute; lia
                   |intros m Hm;
                    do 28 (destruct m as [|m]; [vm_compute; reflexivity|]);
                    lia|exact Hk]]|]).
    lia.
  - apply tables_ready_init.
  - intros [].
  - intros [].
Defined.

(** C6, as stated, fails: the CRC field is not stuffed. The CRC-32 of
    [barker_forger] is written ["DADF"], and the payload ends with
    ["BADF"]: the frame holds a Barker that starts in the payload. The
    listener reads ["junk"] and the two frames in one piece, cuts the first
    frame there, finds two bad packets, and dispatches the second packet
    only. *)
Lemma framing_resync_counterexample :
  wrap (Unreliable barker_forger) = Done (frame (Unreliable barker_forger))
  /\ wrap (Unreliable (ascii_bytes "b"))
     = Done (frame (Unreliable (ascii_bytes "b")))
  /\ events
       (state_of
          (rounds 1024 1
             (new_client (ascii_bytes "junk" ++ frame (Unreliable barker_forger)
                            ++ frame (Unreliable (ascii_bytes "b"))))))
     = [print (Bad_packet
                 (take 20 (frame (Unreliable barker_forger))));
        print (Bad_packet Protocol.BARKER);
        on_unreliable_message (Some (ascii_bytes "b"))]
  /\ ~ resyncs 1024
         (new_client (ascii_bytes "junk" ++ frame (Unreliable barker_forger)
                        ++ frame (Unreliable (ascii_bytes "b"))))
         [ascii_bytes "junk" ++ frame (Unreliable barker_forger)
             ++ frame (Unreliable (ascii_bytes "b"))]
         (Unreliable barker_forger) (Unreliable (ascii_bytes "b")).
Proof.
  split; [vm_compute; reflexivity|].
  split; [vm_compute; reflexivity|].
  split; [vm_compute; reflexivity|].
  intros (c' & _ & _ & [Hcalls _] & _). vm_compute in Hcalls. discriminate.
Qed.

(** ** Retransmission *)

Section RetransmitFacts.
Import Client.
Variables (K : nat) (m : Z) (message : bytes).

Lemma wait_for_ack_acked (fuel : nat) (c : client link) :
  _message_id_to_was_acked c !! m = Some true ->
  wait_for_ack (ack_after K m) fuel message m c = Returned tt c.
Proof.
  intros Hm. destruct fuel; cbn [wait_for_ack]; unfold bind, get;
    rewrite Hm; reflexivity.
Qed.

Lemma wait_for_ack_counts (j fuel : nat) (c : client link) :
  _message_id_to_was_acked c !! m = Some false ->
  (1 <= j <= fuel)%nat ->
  (length (sent (_peer c)) + j)%nat = K ->
  exists c',
    wait_for_ack (ack_after K m) fuel message m c = Returned tt c'
    /\ sent (_peer c') = sent (_peer c) ++ repeat message j
    /\ _message_id_to_was_acked c' !! m = Some true
    /\ threads c' = threads c
    /\ _next_message_id c' = _next_message_id c.
Proof.
  revert fuel c. induction j as [|j IH]; intros fuel c Hm Hj HK; [lia|].
  destruct fuel as [|fuel]; [lia|].
  cbn [wait_for_ack]. unfold bind at 1. unfold get at 1. rewrite Hm.
  unfold bind at 1. unfold peer_send at 1, modify at 1.
  unfold bind at 1. unfold sleeping at 1, modify at 1.
  set (c1 := set__peer (send message (_peer c)) c).
  assert (Hs1 : sent (_peer c1) = sent (_peer c) ++ [message])
    by reflexivity.
  assert (Hl1 : length (sent (_peer c1)) = S (length (sent (_peer c))))
    by (rewrite Hs1, length_app; simpl; lia).
  destruct j as [|j].
  - assert (Hsl : ack_after K m ACK_ARRIVAL_TIME c1
                  = set__message_id_to_was_acked
                      (<[m := true]> (_message_id_to_was_acked c1)) c1).
    { unfold ack_after. rewrite Hl1, (proj2 (Nat.leb_le _ _)) by lia.
      reflexivity. }
    rewrite Hsl.
    eexists. split; [apply wait_for_ack_acked; cbn; apply lookup_insert_eq|].
    cbn. rewrite lookup_insert_eq. repeat split; reflexivity.
  - assert (Hsl : ack_after K m ACK_ARRIVAL_TIME c1 = c1).
    { unfold ack_after. rewrite Hl1, (proj2 (Nat.leb_gt _ _)) by lia.
      reflexivity. }
    rewrite Hsl.
    destruct (IH fuel c1) as (c' & Hw & Hs & Ha & Ht & Hn);
      [exact Hm|lia|lia|].
    exists c'. split; [exact Hw|]. split; [|auto].
    rewrite Hs, Hs1, <- app_assoc. reflexivity.
Qed.

End RetransmitFacts.

(** X18. Retransmission until the ACK. [send_reliable] takes the next
    message id, and its caller sends the frame once and then once more
    after every sleep in which the ACK has not come: when the ACK comes
    while the [k]-th copy is out, the call returns after exactly [k]
    copies of the frame, with the message marked as acked. *)
Theorem send_reliable_retransmits_until_acked (k fuel : nat) (data f : bytes)
  (c : client link) :
  Protocol.wrap_reliable (PyBytes data) (_next_message_id c + 1) = Done f ->
  (1 <= k <= S fuel)%nat ->
  exists c',
    Client.send_reliable
      (ack_after (length (sent (_peer c)) + k) (_next_message_id c + 1))
      fuel (PyBytes data) c
    = Returned tt c'
    /\ sent (_peer c') = sent (_peer c) ++ repeat f k
    /\ _message_id_to_was_acked c' !! (_next_message_id c + 1) = Some true
    /\ _next_message_id c' = _next_message_id c + 1
    /\ threads c' = threads c ++ [no_target].
Proof.
  intros Hw Hk.
  set (m := _next_message_id c + 1) in *.
  set (K := (length (sent (_peer c)) + k)%nat).
  unfold Client.send_reliable.
  unfold bind at 1. unfold Client._get_next_message_id.
  unfold bind at 1. unfold modify at 1. unfold bind at 1. unfold get at 1.
  unfold ret at 1. cbn [_next_message_id Client.set__next_message_id].
  fold m. unfold bind at 1. unfold modify at 1.
  unfold bind at 1. rewrite Hw. cbn [lift].
  set (c0 := Client.set__message_id_to_was_acked _ _).
  assert (Hc0 : _message_id_to_was_acked c0 !! m = Some false)
    by (unfold c0; cbn; apply lookup_insert_eq).
  assert (Hs0 : sent (_peer c0) = sent (_peer c)) by reflexivity.
  unfold bind at 1. unfold Client._send_message_and_wait_for_ack.
  unfold bind at 1. unfold Client.peer_send at 1, modify at 1.
  unfold bind at 1. unfold Client.sleeping at 1, modify at 1.
  set (c1 := Client.set__peer (send f (_peer c0)) c0).
  assert (Hs1 : sent (_peer c1) = sent (_peer c) ++ [f]) by reflexivity.
  assert (Hl1 : length (sent (_peer c1)) = S (length (sent (_peer c))))
    by (rewrite Hs1, length_app; simpl; lia).
  destruct k as [|[|k]]; [lia| |].
  - assert (Hsl : ack_after K m ACK_ARRIVAL_TIME c1
                  = Client.set__message_id_to_was_acked
                      (<[m := true]> (_message_id_to_was_acked c1)) c1).
    { unfold ack_after. rewrite Hl1. unfold K.
      rewrite (proj2 (Nat.leb_le _ _)) by lia. reflexivity. }
    rewrite Hsl.
    rewrite wait_for_ack_acked by (cbn; apply lookup_insert_eq).
    eexists. split; [reflexivity|]. cbn.
    rewrite lookup_insert_eq. repeat split; reflexivity.
  - assert (Hsl : ack_after K m ACK_ARRIVAL_TIME c1 = c1).
    { unfold ack_after. rewrite Hl1. unfold K.
      rewrite (proj2 (Nat.leb_gt _ _)) by lia. reflexivity. }
    rewrite Hsl.
    destruct (wait_for_ack_counts K m f (S k) fuel c1)
      as (c' & Hwait & Hs & Ha & Ht & Hn);
      [exact Hc0|lia|unfold K; lia|].
    rewrite Hwait. eexists. split; [reflexivity|]. cbn.
    rewrite Hs, Hs1, <- app_assoc, Ha, Ht, Hn. repeat split; reflexivity.
Qed.

Lemma send_reliable_retransmits_until_acked_witness :
  Protocol.wrap_reliable (PyBytes (ascii_bytes "hi")) 1
  = Done (frame (Reliable (ascii_bytes "hi") 1))
  /\ exists c',
       Client.send_reliable (ack_after 2 1) 3 (PyBytes (ascii_bytes "hi"))
         (new_client [])
       = Returned tt c'
       /\ sent (_peer c')
          = [] ++ repeat (frame (Reliable (ascii_bytes "hi") 1)) 2
       /\ _message_id_to_was_acked c' !! 1 = Some true
       /\ _next_message_id c' = 1
       /\ threads c' = threads (new_client []) ++ [no_target].
Proof.
  assert (Hw : Protocol.wrap_reliable (PyBytes (ascii_bytes "hi")) 1
               = Done (frame (Reliable (ascii_bytes "hi") 1)))
    by (vm_compute; reflexivity).
  split; [exact Hw|].
  assert (Hk : (1 <= 2 <= 4)%nat) by lia.
  exact (send_reliable_retransmits_until_acked 2 3 (ascii_bytes "hi")
           (frame (Reliable (ascii_bytes "hi") 1)) (new_client []) Hw Hk).
Defined.

(** ** Unreliable messages, from [send_unreliable] to the upcall *)

Section UnreliableFacts.
Import Client.
Variable CHUNK_SIZE : Z.

Lemma upcalls_emit {P} (e : event) (c : client P) :
  upcalls (set_events (events c ++ [e]) c)
  = upcalls c ++ (if is_upcall e then [e] else []).
Proof.
  unfold upcalls. cbn [events set_events]. rewrite List.filter_app.
  cbn [List.filter]. destruct (is_upcall e); reflexivity.
Qed.

Lemma sent_receive (n : Z) (l : link) : sent (snd (receive n l)) = sent l.
Proof. cbn [receive link_peer]. destruct (incoming l); reflexivity. Qed.

(** The steps of a listener that calls the handler for unreliable
    messages only: every call is an upcall, and nothing goes out. *)
Lemma run_unreliable (steps : list step) (ds : list bytes) (c : client link) :
  calls_exactly steps (map (fun d => (Some d, None, None, None)) ds) ->
  exists c',
    run CHUNK_SIZE steps c = Returned tt c'
    /\ upcalls c' = upcalls c
                    ++ map (fun d => on_unreliable_message (Some d)) ds
    /\ sent (_peer c') = sent (_peer c).
Proof.
  intros [Hd Hc]. revert ds c Hd.
  induction Hc as [|s steps Hs _ IH]; intros ds c Hd.
  - destruct ds; [|discriminate]. exists c.
    split; [reflexivity|]. cbn [map]. rewrite app_nil_r. auto.
  - rewrite run_cons. destruct s as [|what|a|data].
    + rewrite (bind_returned _ _ _ _ _ (perform_receive CHUNK_SIZE c)).
      destruct (IH ds (set__peer (snd (receive CHUNK_SIZE (_peer c))) c) Hd)
        as (c' & Hr & Hu & Hsent).
      exists c'. split; [exact Hr|]. split; [exact Hu|].
      rewrite Hsent. cbn [_peer set__peer]. apply sent_receive.
    + destruct (IH ds (set_events (events c ++ [print what]) c) Hd)
        as (c' & Hr & Hu & Hsent).
      exists c'. split; [exact Hr|]. split; [|exact Hsent].
      rewrite Hu, upcalls_emit. cbn [is_upcall]. rewrite app_nil_r.
      reflexivity.
    + cbn [dispatched] in Hd. destruct ds as [|d ds]; [discriminate|].
      cbn [map] in Hd. injection Hd as -> Hd.
      destruct (IH ds (set_events
                         (events c ++ [on_unreliable_message (Some d)]) c) Hd)
        as (c' & Hr & Hu & Hsent).
      exists c'. split; [exact Hr|]. split; [|exact Hsent].
      rewrite Hu, upcalls_emit. cbn [is_upcall map].
      rewrite <- app_assoc. reflexivity.
    + destruct (IH ds (set_listener_data data c) Hd)
        as (c' & Hr & Hu & Hsent).
      exists c'. split; [exact Hr|]. split; [exact Hu|exact Hsent].
Qed.

Lemma send_unreliable_each (ds : list bytes) (frames : list bytes)
  (c : client link) :
  Forall2 (fun d W => Protocol.wrap_unreliable (PyBytes d) = Done W)
    ds frames ->
  for_each ds (fun d => send_unreliable (PyBytes d)) c
  = Returned tt (set__peer
                   {| sent := sent (_peer c) ++ frames;
                      incoming := incoming (_peer c);
                      later := later (_peer c) |} c).
Proof.
  intros Hw. revert c. induction Hw as [|d W ds frames Hd _ IH]; intros c.
  - cbn [for_each]. rewrite app_nil_r. destruct c as [[]]. reflexivity.
  - cbn [for_each]. unfold bind at 1. unfold send_unreliable at 1.
    unfold bind at 1. rewrite Hd. cbn [lift].
    unfold peer_send, modify. rewrite IH. cbn. rewrite <- app_assoc.
    reflexivity.
Qed.

End UnreliableFacts.

(** X19. Unreliable messages arrive, in order. A client sends the payloads
    [ds] with [send_unreliable], one after the other: the frames go out
    once each, in order. The frames arrive at another client, behind any
    garbage and cut into pieces of any sizes; if a Barker starts in what
    arrives only where a frame starts, the listener of that client calls
    [on_unreliable_message] once for each payload, in the order of the
    sending and with the bytes that were sent; it makes no other upcall
    and sends nothing. *)
Theorem unreliable_messages_arrive_in_order (CHUNK_SIZE : Z)
  (A B : client link) (ds frames pieces : list bytes) (G : bytes) :
  Forall2 (fun d W => Protocol.wrap_unreliable (PyBytes d) = Done W)
    ds frames ->
  listener_data B = [] ->
  incoming (_peer B) = pieces ->
  Forall (fun piece => Z.of_nat (length piece) <= CHUNK_SIZE) pieces ->
  concat pieces = G ++ concat frames ->
  barker_positions (G ++ concat frames) = frame_starts (length G) frames ->
  (exists A',
     for_each ds (fun d => Client.send_unreliable (PyBytes d)) A
     = Returned tt A'
     /\ sent (_peer A') = sent (_peer A) ++ frames)
  /\ exists B',
       rounds CHUNK_SIZE (length pieces) B = Returned tt B'
       /\ upcalls B'
          = upcalls B ++ map (fun d => on_unreliable_message (Some d)) ds
       /\ sent (_peer B') = sent (_peer B).
Proof.
  intros Hw Hdata Hin Hfit Hcat Hpos. split.
  - eexists. split; [apply send_unreliable_each, Hw|reflexivity].
  - assert (Hps : Forall2 (fun p W => wrap p = Done W)
                    (map Unreliable ds) frames).
    { clear -Hw. induction Hw; constructor; assumption. }
    apply wrapped_frames in Hps as [Hwf ->].
    rewrite (rounds_script CHUNK_SIZE pieces B Hin Hfit), Hdata.
    apply run_unreliable.
    replace (map (fun d : bytes => (Some d, @None Z, @None Z, @None Z)) ds)
      with (map arguments_of (map Unreliable ds))
      by (rewrite map_map; reflexivity).
    apply (script_garbage_frames G _ _ Hwf); [|exact Hcat].
    intros i E. apply barker_at_positions in E.
    rewrite <- Hpos. exact E.
Qed.

Lemma unreliable_messages_arrive_in_order_witness :
  let frames := [frame (Unreliable (ascii_bytes "a"));
                 frame (Unreliable (ascii_bytes "bc"))] in
  let pieces := [ascii_bytes "zz"
                   ++ take 5 (frame (Unreliable (ascii_bytes "a")));
                 drop 5 (frame (Unreliable (ascii_bytes "a")))
                   ++ frame (Unreliable (ascii_bytes "bc"))] in
  let A := new_client [] in
  let B := Client.__init__
             {| sent := []; incoming := pieces; later := [] |} in
  barker_positions (ascii_bytes "zz" ++ concat frames)
  = frame_starts 2 frames
  /\ (exists A',
        for_each [ascii_bytes "a"; ascii_bytes "bc"]
          (fun d => Client.send_unreliable (PyBytes d)) A
        = Returned tt A'
        /\ sent (_peer A') = sent (_peer A) ++ frames)
  /\ exists B',
       rounds 64 (length pieces) B = Returned tt B'
       /\ upcalls B'
          = upcalls B
              ++ map (fun d => on_unreliable_message (Some d))
                   [ascii_bytes "a"; ascii_bytes "bc"]
       /\ sent (_peer B') = sent (_peer B).
Proof.
  intros frames pieces A B.
  assert (Hpos : barker_positions (ascii_bytes "zz" ++ concat frames)
                 = frame_starts 2 frames) by (vm_compute; reflexivity).
  split; [exact Hpos|].
  apply (unreliable_messages_arrive_in_order 64 A B
           [ascii_bytes "a"; ascii_bytes "bc"] frames pieces
           (ascii_bytes "zz")).
  - repeat (constructor; [vm_compute; reflexivity|]). constructor.
  - reflexivity.
  - reflexivity.
  - repeat (apply List.Forall_cons; [vm_compute; congruence|]).
    apply List.Forall_nil.
  - vm_compute. reflexivity.
  - exact Hpos.
Defined.

(** ** Sending a file *)

Section FileSendFacts.
Context {P : Type} `{AbstractPeer P}.
Import Client.
Variable CHUNK_SIZE : Z.
Variable files : str -> option bytes.

Lemma split_chunks_concat (fuel n : nat) (data : bytes) :
  (0 < n)%nat -> (length data <= fuel)%nat ->
  concat (split_chunks fuel n data) = data.
Proof.
  intros Hn. revert data. induction fuel as [|fuel IH]; intros data Hl.
  - destruct data; [reflexivity|simpl in Hl; lia].
  - destruct data as [|d data]; [reflexivity|].
    cbn [split_chunks concat]. rewrite IH.
    + apply take_drop.
    + rewrite length_drop. simpl in *. lia.
Qed.

Lemma split_chunks_sizes (fuel n : nat) (data : bytes) :
  (0 < n)%nat ->
  Forall (fun chunk => (0 < length chunk <= n)%nat)
    (split_chunks fuel n data).
Proof.
  intros Hn. revert data. induction fuel as [|fuel IH]; intros data;
    [constructor|].
  destruct data as [|d data]; [constructor|].
  cbn [split_chunks]. constructor; [|apply IH].
  rewrite length_take. simpl. lia.
Qed.

Lemma wait_for_ack_arrived (fuel : nat) (message : bytes) (m : Z)
  (c : client P) :
  _message_id_to_was_acked c !! m = Some true ->
  wait_for_ack acks_arrive fuel message m c = Returned tt c.
Proof.
  intros Hm. destruct fuel; cbn [wait_for_ack]; unfold bind, get;
    rewrite Hm; reflexivity.
Qed.

(** A reliable stream message when the ACKs arrive: one frame goes out,
    the next id is taken. *)
Lemma send_reliable_stream_message_acked (fuel : nat) (payload : bytes)
  (s : Z) (c : client P) :
  well_formed (ReliableStream payload (_next_message_id c + 1) s) ->
  exists c',
    send_reliable_stream_message acks_arrive fuel (PyBytes payload) s c
    = Returned tt c'
    /\ _peer c'
       = send (frame (ReliableStream payload (_next_message_id c + 1) s))
           (_peer c)
    /\ _next_message_id c' = _next_message_id c + 1
    /\ _file_stream_id_to_is_available c'
       = _file_stream_id_to_is_available c
    /\ _file_streams_lock c' = _file_streams_lock c.
Proof.
  intros Hwf.
  pose proof (wrap_frame _ Hwf) as Hw. cbn [wrap] in Hw.
  unfold send_reliable_stream_message.
  unfold bind at 1. unfold _get_next_message_id.
  unfold bind at 1. unfold modify at 1. unfold bind at 1. unfold get at 1.
  unfold ret at 1. cbn [_next_message_id set__next_message_id].
  unfold bind at 1. unfold modify at 1.
  unfold bind at 1. rewrite Hw. cbn [lift].
  unfold bind at 1. unfold _send_message_and_wait_for_ack.
  unfold bind at 1. unfold peer_send at 1, modify at 1.
  unfold bind at 1. unfold sleeping at 1, modify at 1.
  rewrite wait_for_ack_arrived.
  - eexists. split; [reflexivity|]. cbn. repeat split; reflexivity.
  - cbn. rewrite lookup_fmap, lookup_insert_eq. reflexivity.
Qed.

Lemma send_all_snoc (frames : list bytes) (f : bytes) (peer : P) :
  send_all (frames ++ [f]) peer = send f (send_all frames peer).
Proof. unfold send_all. rewrite fold_left_app. reflexivity. Qed.

Lemma send_all_cons (frames : list bytes) (f : bytes) (peer : P) :
  send_all (f :: frames) peer = send_all frames (send f peer).
Proof. reflexivity. Qed.

(** The [while chunk] loop on the rest of a file. *)
Lemma send_chunks_frames (split_fuel fuel : nat) (data : bytes)
  (index s : Z) (c : client P) :
  0 < CHUNK_SIZE ->
  (length data <= split_fuel)%nat ->
  let chunks := split_chunks split_fuel (Z.to_nat CHUNK_SIZE) data in
  (length chunks <= fuel)%nat ->
  0 <= index -> index + Z.of_nat (length chunks) < 2 ^ 32 ->
  Forall well_formed
    (chunk_packets (index + 1) (_next_message_id c + 1) s chunks) ->
  exists c',
    send_chunks CHUNK_SIZE acks_arrive fuel
      (take (Z.to_nat CHUNK_SIZE) data) (drop (Z.to_nat CHUNK_SIZE) data)
      index s c
    = Returned (index + Z.of_nat (length chunks)) c'
    /\ _peer c'
       = send_all
           (map frame
              (chunk_packets (index + 1) (_next_message_id c + 1) s chunks))
           (_peer c)
    /\ _next_message_id c'
       = _next_message_id c + Z.of_nat (length chunks)
    /\ _file_stream_id_to_is_available c'
       = _file_stream_id_to_is_available c
    /\ _file_streams_lock c' = _file_streams_lock c.
Proof.
  intros Hn. revert fuel data index c.
  induction split_fuel as [|split_fuel IH];
    intros fuel data index c Hl chunks Hfuel Hi Hmax Hwf.
  { destruct data; [|simpl in Hl; lia]. subst chunks.
    rewrite take_nil. destruct fuel; cbn [send_chunks];
      (eexists; split;
       [unfold ret; rewrite Z.add_0_r; reflexivity|];
       cbn; rewrite Z.add_0_r; repeat split; reflexivity). }
  destruct data as [|d data].
  { subst chunks. rewrite take_nil. destruct fuel; cbn [send_chunks];
      (eexists; split;
       [unfold ret; rewrite Z.add_0_r; reflexivity|];
       cbn; rewrite Z.add_0_r; repeat split; reflexivity). }
  subst chunks. cbn [split_chunks] in *.
  set (n := Z.to_nat CHUNK_SIZE) in *.
  assert (Hn1 : (1 <= n)%nat) by (unfold n; lia).
  set (rest := drop n (d :: data)) in *.
  cbn [length chunk_packets] in Hfuel, Hmax, Hwf |- *.
  destruct fuel as [|fuel]; [lia|].
  apply List.Forall_cons_iff in Hwf as [Hwf1 Hwf].
  assert (Hne : take n (d :: data) <> []).
  { intros E. apply (f_equal length) in E. rewrite length_take in E.
    simpl in E. lia. }
  destruct (take n (d :: data)) as [|t ts] eqn:Htake; [contradiction|].
  cbn [send_chunks]. unfold bind at 1.
  rewrite pack_L_u32 by (unfold u32; lia). cbn [lift].
  unfold bind at 1.
  destruct (send_reliable_stream_message_acked fuel
              (le_bytes (index + 1) ++ "0"%byte :: t :: ts) s c Hwf1)
    as (c1 & Hsend & Hp1 & Hid1 & Ha1 & Hlk1).
  change (le_bytes (index + 1) ++ ["0"%byte] ++ t :: ts)
    with (le_bytes (index + 1) ++ "0"%byte :: t :: ts).
  rewrite Hsend.
  unfold Os.read. destruct (Z.ltb_spec CHUNK_SIZE 0) as [|_]; [lia|].
  fold n.
  destruct (IH fuel rest (index + 1) c1) as (c' & Hloop & Hp & Hid & Ha & Hlk).
  - unfold rest. rewrite length_drop. cbn [length] in Hl |- *. lia.
  - lia.
  - lia.
  - lia.
  - rewrite Hid1. exact Hwf.
  - exists c'. split.
    + rewrite Hloop. f_equal. lia.
    + rewrite Hp, Hid, Ha, Hlk, Hp1, Hid1, Ha1, Hlk1.
      cbn [map]. rewrite send_all_cons.
      repeat split; try reflexivity. lia.
Qed.

End FileSendFacts.

Lemma handle_file_send_frames {P : Type} `{AbstractPeer P}
  (CHUNK_SIZE : Z) (files : str -> option bytes) (fuel : nat) (path : str)
  (content name : bytes) (s : Z) (c c1 : client P) :
  0 < CHUNK_SIZE ->
  files path = Some content ->
  Protocol.str_to_bytes (Os.basename path) = Done name ->
  Client._lock_file_stream c = Returned s c1 ->
  (length (file_chunks CHUNK_SIZE content) <= fuel)%nat ->
  Z.of_nat (length (file_chunks CHUNK_SIZE content)) + 1 < 2 ^ 32 ->
  Forall well_formed
    (file_packets (_next_message_id c) s name
       (file_chunks CHUNK_SIZE content)) ->
  exists c',
    Client._handle_file_send CHUNK_SIZE acks_arrive files fuel path c
    = Returned tt c'
    /\ _peer c'
       = send_all
           (map frame
              (file_packets (_next_message_id c) s name
                 (file_chunks CHUNK_SIZE content)))
           (_peer c)
    /\ _next_message_id c'
       = _next_message_id c
         + Z.of_nat (length (file_chunks CHUNK_SIZE content)) + 2
    /\ _file_stream_id_to_is_available c' !! s = Some true
    /\ _file_streams_lock c' = false.
Proof.
  intros Hn Hfile Hname Hlock Hfuel Hmax Hwf.
  set (chunks := file_chunks CHUNK_SIZE content) in *.
  apply lock_file_stream_inv in Hlock as Hinv.
  destruct Hinv as (Hfree & _ & Ec1).
  assert (Hp1 : _peer c1 = _peer c) by (rewrite Ec1; reflexivity).
  assert (Hid1 : _next_message_id c1 = _next_message_id c)
    by (rewrite Ec1; reflexivity).
  assert (Hlk1 : _file_streams_lock c1 = false)
    by (rewrite Ec1; exact Hfree).
  unfold file_packets in Hwf.
  apply List.Forall_cons_iff in Hwf as [Hwf0 Hwf].
  apply Forall_app in Hwf as [Hwfc Hwfl].
  apply List.Forall_cons_iff in Hwfl as [Hwfl _].
  unfold Client._handle_file_send.
  unfold bind at 1. rewrite Hlock.
  unfold bind at 1. rewrite Hname. cbn [lift].
  unfold bind at 1. rewrite pack_L_u32 by (unfold u32; lia). cbn [lift].
  unfold bind at 1.
  rewrite <- Hid1 in Hwf0.
  destruct (send_reliable_stream_message_acked fuel _ s c1 Hwf0)
    as (c2 & Hsend2 & Hp2 & Hid2 & Ha2 & Hlk2).
  change (le_bytes 0 ++ ["0"%byte] ++ name)
    with (le_bytes 0 ++ "0"%byte :: name).
  rewrite Hsend2.
  unfold bind at 1. rewrite Hfile. cbn [lift].
  unfold Os.read at 1. destruct (Z.ltb_spec CHUNK_SIZE 0) as [|_]; [lia|].
  unfold bind at 1.
  pose proof (send_chunks_frames CHUNK_SIZE (length content) fuel content 0
                s c2 Hn (le_n _)) as Hsc.
  cbv zeta in Hsc. fold (file_chunks CHUNK_SIZE content) in Hsc.
  fold chunks in Hsc.
  destruct Hsc as (c3 & Hloop & Hp3 & Hid3 & Ha3 & Hlk3);
    [exact Hfuel|lia|lia| |].
  { rewrite Hid2, Hid1.
    replace (_next_message_id c + 1 + 1) with (_next_message_id c + 2)
      by lia.
    exact Hwfc. }
  rewrite Hloop.
  unfold bind at 1. rewrite pack_L_u32 by (unfold u32; lia). cbn [lift].
  unfold bind at 1.
  assert (Hwf3 : well_formed
                   (ReliableStream
                      (le_bytes (0 + Z.of_nat (length chunks) + 1)
                         ++ ["1"%byte])
                      (_next_message_id c3 + 1) s)).
  { rewrite Hid3, Hid2, Hid1.
    replace (_next_message_id c + 1 + Z.of_nat (length chunks) + 1)
      with (_next_message_id c + Z.of_nat (length chunks) + 2) by lia.
    exact Hwfl. }
  destruct (send_reliable_stream_message_acked fuel _ s c3 Hwf3)
    as (c4 & Hsend4 & Hp4 & Hid4 & Ha4 & Hlk4).
  rewrite Hsend4.
  unfold bind at 1. unfold Client.sleeping, modify.
  eexists. split; [reflexivity|].
  cbn [_peer _next_message_id _file_stream_id_to_is_available
         _file_streams_lock acks_arrive
         Client.set__file_stream_id_to_is_available
         Client.set__message_id_to_was_acked].
  split; [|split; [|split]].
  - rewrite Hp4, Hp3, Hp2, Hp1, Hid3, Hid2, Hid1.
    unfold file_packets. fold chunks.
    cbn [map]. rewrite send_all_cons, map_app. cbn [map].
    rewrite send_all_snoc.
    replace (0 + Z.of_nat (length chunks) + 1)
      with (Z.of_nat (length chunks) + 1) by lia.
    replace (_next_message_id c + 1 + Z.of_nat (length chunks) + 1)
      with (_next_message_id c + Z.of_nat (length chunks) + 2) by lia.
    replace (_next_message_id c + 1 + 1) with (_next_message_id c + 2)
      by lia.
    reflexivity.
  - rewrite Hid4, Hid3, Hid2, Hid1. lia.
  - apply lookup_insert_eq.
  - rewrite Hlk4, Hlk3, Hlk2. exact Hlk1.
Qed.

(** X20. The frames of a file. [_handle_file_send], run for a file that
    exists, with a chunk size above zero, when a stream is free and the
    ACK of every frame arrives while the sender sleeps: it gives the peer,
    once each and in this order, the frame of the name (chunk [0], flag
    ['0']), the frames of the chunks of the content ([CHUNK_SIZE] bytes
    each, less for the last; chunk [i] has the index [i] and the flag
    ['0']) and the frame of the end marker (flag ['1'], no data, the index
    one more than the last chunk's); the message ids follow one another;
    after the last sleep the stream is available again. *)
Theorem file_send_sends_the_chunks {P : Type} `{AbstractPeer P}
  (CHUNK_SIZE : Z) (files : str -> option bytes) (fuel : nat) (path : str)
  (content name : bytes) (s : Z) (c c1 : client P) :
  0 < CHUNK_SIZE ->
  files path = Some content ->
  Protocol.str_to_bytes (Os.basename path) = Done name ->
  Client._lock_file_stream c = Returned s c1 ->
  (length (file_chunks CHUNK_SIZE content) <= fuel)%nat ->
  Z.of_nat (length (file_chunks CHUNK_SIZE content)) + 1 < 2 ^ 32 ->
  Forall well_formed
    (file_packets (_next_message_id c) s name
       (file_chunks CHUNK_SIZE content)) ->
  exists c',
    Client._handle_file_send CHUNK_SIZE acks_arrive files fuel path c
    = Returned tt c'
    /\ _peer c'
       = send_all
           (map frame
              (file_packets (_next_message_id c) s name
                 (file_chunks CHUNK_SIZE content)))
           (_peer c)
    /\ _next_message_id c'
       = _next_message_id c
         + Z.of_nat (length (file_chunks CHUNK_SIZE content)) + 2
    /\ _file_stream_id_to_is_available c' !! s = Some true
    /\ _file_streams_lock c' = false.
Proof. apply handle_file_send_frames. Qed.

Lemma file_send_sends_the_chunks_witness :
  let c := new_client [] in
  let c1 := Client.set__file_stream_id_to_is_available
              (<[7771 := false]> (_file_stream_id_to_is_available c)) c in
  let name := ascii_bytes "hello.txt" in
  let content := ascii_bytes "ABC" in
  Client._lock_file_stream c = Returned 7771 c1
  /\ exists c',
       Client._handle_file_send 2 acks_arrive hello_files 8
         (text "hello.txt") c
       = Returned tt c'
       /\ _peer c'
          = send_all
              (map frame
                 (file_packets (_next_message_id c) 7771 name
                    (file_chunks 2 content)))
              (_peer c)
       /\ _next_message_id c'
          = _next_message_id c
            + Z.of_nat (length (file_chunks 2 content)) + 2
       /\ _file_stream_id_to_is_available c' !! 7771 = Some true
       /\ _file_streams_lock c' = false.
Proof.
  intros c c1 name content.
  assert (Hlock : Client._lock_file_stream c = Returned 7771 c1)
    by (vm_compute; reflexivity).
  split; [exact Hlock|].
  apply (file_send_sends_the_chunks 2 hello_files 8 (text "hello.txt")
           content name 7771 c c1).
  - lia.
  - vm_compute. reflexivity.
  - vm_compute. reflexivity.
  - exact Hlock.
  - vm_compute. lia.
  - vm_compute. reflexivity.
  - match goal with
    | |- Forall _ ?l => let l' := eval vm_compute in l in change l with l'
    end.
    repeat (apply List.Forall_cons;
            [unfold well_formed; cbv [fields];
             repeat (apply List.Forall_cons;
                     [unfold u32; vm_compute;
                      split; [intros E; discriminate E|reflexivity]|]);
             apply List.Forall_nil|]).
    apply List.Forall_nil.
Defined.

(** ** The name of the file *)

Section Utf8Facts.
Import Utf8.

Lemma to_Z_of_Z_small (z : Z) : 0 <= z < 256 -> Bytes.to_Z (Bytes.of_Z z) = z.
Proof. intros Hz. rewrite to_Z_of_Z. apply Z.mod_small. exact Hz. Qed.

Lemma to_Z_cont (z : Z) : Bytes.to_Z (cont z) = 128 + z mod 64.
Proof.
  unfold cont. apply to_Z_of_Z_small.
  pose proof (Z.mod_pos_bound z 64). lia.
Qed.

Lemma is_cont_cont (z : Z) : is_cont (Bytes.to_Z (cont z)) = true.
Proof.
  rewrite to_Z_cont. unfold is_cont.
  pose proof (Z.mod_pos_bound z 64).
  apply andb_true_iff. split; apply Z.leb_le; lia.
Qed.

Lemma decode_encode_loop (s : str) (b : bytes) (fuel : nat) :
  encode s = Done b -> (length b <= fuel)%nat ->
  decode_loop fuel b = Done s.
Proof.
  revert b fuel. induction s as [|c s IH]; intros b fuel He Hf.
  { injection He as <-. destruct fuel; reflexivity. }
  cbn [encode] in He.
  destruct (encode_char c) as [bc|] eqn:Hc; [|discriminate].
  destruct (encode s) as [bs|] eqn:Hs; [|discriminate].
  cbn [obind] in He. injection He as <-.
  specialize (IH bs).
  unfold encode_char in Hc.
  destruct (Z.ltb_spec c 0); [discriminate|].
  destruct (Z.ltb_spec 0x10FFFF c); [discriminate|]. cbn [orb] in Hc.
  destruct (Z.ltb_spec c 0x80) as [H1|H1].
  { injection Hc as <-. cbn [app length] in Hf |- *.
    destruct fuel as [|fuel]; [lia|]. cbn [decode_loop map].
    rewrite to_Z_of_Z_small by lia.
    destruct (Z.ltb_spec c 0x80); [|lia].
    cbn [drop]. rewrite drop_0, (IH fuel eq_refl) by lia. reflexivity. }
  destruct (Z.ltb_spec c 0x800) as [H2|H2].
  { injection Hc as <-. cbn [app length] in Hf |- *.
    destruct fuel as [|fuel]; [lia|]. cbn [decode_loop map].
    rewrite to_Z_of_Z_small by (Z.div_mod_to_equations; lia).
    destruct (Z.ltb_spec (192 + c / 64) 0x80);
      [Z.div_mod_to_equations; lia|].
    rewrite (proj2 (andb_true_iff _ _))
      by (split; apply Z.leb_le; Z.div_mod_to_equations; lia).
    rewrite is_cont_cont, to_Z_cont.
    cbn [drop]. rewrite drop_0, (IH fuel eq_refl) by lia. cbn [obind].
    f_equal. f_equal. Z.div_mod_to_equations. lia. }
  destruct (Z.leb_spec 0xD800 c) as [H3|H3];
    [destruct (Z.leb_spec c 0xDFFF) as [H4|H4]|]; cbn [andb] in Hc;
    try discriminate.
  all: destruct (Z.ltb_spec c 0x10000) as [H5|H5].
  all: injection Hc as <-; cbn [app length] in Hf |- *;
    (destruct fuel as [|fuel]; [lia|]); cbn [decode_loop map];
    rewrite to_Z_of_Z_small by (Z.div_mod_to_equations; lia).
  all: match goal with
       | |- context [?x <? 128] =>
           destruct (Z.ltb_spec x 128); [Z.div_mod_to_equations; lia|]
       end.
  all: match goal with
       | |- context [(194 <=? ?x) && (?x <=? 223)] =>
           replace ((194 <=? x) && (x <=? 223)) with false
             by (symmetry; apply andb_false_iff; right; apply Z.leb_gt;
                 Z.div_mod_to_equations; lia)
       end.
  1,3: rewrite (proj2 (andb_true_iff (224 <=? _) _))
         by (split; apply Z.leb_le; Z.div_mod_to_equations; lia);
       rewrite !is_cont_cont, !to_Z_cont; cbn [andb];
       match goal with
       | |- context [2048 <=? ?v] =>
           replace v with c by (Z.div_mod_to_equations; lia)
       end;
       rewrite (proj2 (Z.leb_le 2048 c)) by lia; cbn [andb];
       replace ((55296 <=? c) && (c <=? 57343)) with false
         by (symmetry; apply andb_false_iff;
             first [left; apply Z.leb_gt; lia|right; apply Z.leb_gt; lia]);
       cbn [negb drop]; rewrite drop_0, (IH fuel eq_refl) by lia;
       reflexivity.
  all: replace ((224 <=? 240 + c / 262144) && (240 + c / 262144 <=? 239))
         with false
         by (symmetry; apply andb_false_iff; right; apply Z.leb_gt;
             Z.div_mod_to_equations; lia);
       rewrite (proj2 (andb_true_iff (240 <=? _) _))
         by (split; apply Z.leb_le; Z.div_mod_to_equations; lia);
       rewrite !is_cont_cont, !to_Z_cont; cbn [andb];
       match goal with
       | |- context [65536 <=? ?v] =>
           replace v with c by (Z.div_mod_to_equations; lia)
       end;
       rewrite (proj2 (Z.leb_le 65536 c)) by lia;
       rewrite (proj2 (Z.leb_le c 1114111)) by lia; cbn [andb drop];
       rewrite drop_0, (IH fuel eq_refl) by lia; reflexivity.
Qed.

Lemma decode_encode (s : str) (b : bytes) :
  encode s = Done b -> decode b = Done s.
Proof. intros He. apply decode_encode_loop; [exact He|lia]. Qed.

End Utf8Facts.

(** ** A file, from [send_file] to [on_file] *)

Section FileReceiveFacts.
Import Client.
Variable CHUNK_SIZE : Z.
Variable s : Z.
Hypothesis Hs : s ∈ FILE_TRANSFER_STREAMS.

(** Steps without a call of the handler leave the tables, the threads,
    the upcalls and what was sent as they are. *)
Lemma run_calm (steps : list step) (B : client link) :
  calls_exactly steps [] ->
  exists B',
    run CHUNK_SIZE steps B = Returned tt B'
    /\ _file_stream_id_to_chunks B' = _file_stream_id_to_chunks B
    /\ upcalls B' = upcalls B
    /\ threads B' = threads B
    /\ sent (_peer B') = sent (_peer B).
Proof.
  intros Hc. destruct (run_unreliable CHUNK_SIZE steps [] B Hc)
    as (B' & Hr & Hu & Hsent).
  exists B'. cbn [map] in Hu. rewrite app_nil_r in Hu.
  split; [exact Hr|]. split; [|split; [exact Hu|split; [|exact Hsent]]].
  - destruct Hc as [Hd Hc]. clear Hu Hsent. revert B B' Hr Hd.
    induction Hc as [|st steps Hst _ IH]; intros B B' Hr Hd.
    + injection Hr as <-. reflexivity.
    + rewrite run_cons in Hr. destruct st as [|what|a|data];
        [| |discriminate Hd|].
      * rewrite (bind_returned _ _ _ _ _ (perform_receive CHUNK_SIZE B)) in Hr.
        apply IH in Hr; [exact Hr|exact Hd].
      * apply IH in Hr; [exact Hr|exact Hd].
      * apply IH in Hr; [exact Hr|exact Hd].
  - destruct Hc as [Hd Hc]. clear Hu Hsent. revert B B' Hr Hd.
    induction Hc as [|st steps Hst _ IH]; intros B B' Hr Hd.
    + injection Hr as <-. reflexivity.
    + rewrite run_cons in Hr. destruct st as [|what|a|data];
        [| |discriminate Hd|].
      * rewrite (bind_returned _ _ _ _ _ (perform_receive CHUNK_SIZE B)) in Hr.
        apply IH in Hr; [exact Hr|exact Hd].
      * apply IH in Hr; [exact Hr|exact Hd].
      * apply IH in Hr; [exact Hr|exact Hd].
Qed.

Lemma seqZ_next (id n : Z) :
  0 <= n -> seqZ id (n + 1) = id :: seqZ (id + 1) n.
Proof.
  intros Hn. rewrite seqZ_cons by lia. f_equal. f_equal; lia.
Qed.

(** The steps of a listener that calls the handler for the chunks of a
    file and then for the end marker. *)
Lemma run_file_steps (steps : list step) (done chunks : list bytes)
  (id n_end : Z) (B : client link) :
  calls_exactly steps
    (map arguments_of
       (chunk_packets (Z.of_nat (length done)) id s chunks
          ++ [ReliableStream (le_bytes n_end ++ ["1"%byte])
                (id + Z.of_nat (length chunks)) s])) ->
  Z.of_nat (length done) + Z.of_nat (length chunks) < 2 ^ 32 ->
  u32 n_end -> 0 <= id -> id + Z.of_nat (length chunks) < 2 ^ 32 ->
  _file_stream_id_to_chunks B !! s = Some (map_seqZ 0 done) ->
  (forall i, id <= i -> _messages_ids_that_have_been_received B !! i = None) ->
  exists B',
    run CHUNK_SIZE steps B = Returned tt B'
    /\ _file_stream_id_to_chunks B' !! s
       = Some (map_seqZ 0 (done ++ chunks))
    /\ upcalls B' = upcalls B
    /\ threads B' = threads B ++ [_handle_file_chunks_thread s n_end]
    /\ sent (_peer B')
       = sent (_peer B)
           ++ map (fun i => frame (Ack i))
                (seqZ id (Z.of_nat (length chunks) + 1)).
Proof.
  intros [Hd Hc]. revert done chunks id B Hd.
  induction Hc as [|st steps Hst Hrest IH];
    intros done chunks id B Hd Hidx Hend Hid Hmax Htab Hfresh.
  { destruct chunks; discriminate Hd. }
  rewrite run_cons. destruct st as [|what|a|data].
  - rewrite (bind_returned _ _ _ _ _ (perform_receive CHUNK_SIZE B)).
    destruct (IH done chunks id
                (set__peer (snd (receive CHUNK_SIZE (_peer B))) B) Hd
                Hidx Hend Hid Hmax Htab Hfresh)
      as (B' & Hr & Ht & Hu & Hth & Hsent).
    exists B'. split; [exact Hr|]. split; [exact Ht|]. split; [exact Hu|].
    split; [exact Hth|]. rewrite Hsent. cbn [_peer set__peer].
    rewrite sent_receive. reflexivity.
  - destruct (IH done chunks id
                (set_events (events B ++ [print what]) B) Hd
                Hidx Hend Hid Hmax Htab Hfresh)
      as (B' & Hr & Ht & Hu & Hth & Hsent).
    exists B'. split; [exact Hr|]. split; [exact Ht|].
    split; [|split; [exact Hth|exact Hsent]].
    rewrite Hu, upcalls_emit. cbn [is_upcall]. apply app_nil_r.
  - cbn [dispatched] in Hd. unfold bind at 1.
    cbn [perform handle]. destruct chunks as [|chunk chunks].
    + cbn [chunk_packets app map arguments_of unwrapped_of fst length] in Hd.
      injection Hd as -> Hd.
      cbn [length] in Hmax. rewrite Z.add_0_r in Hmax |- *.
      rewrite (handler_file_payload n_end id s "1"%byte [] _ B Hend
                 ltac:(unfold u32; lia) Hs (Hfresh id ltac:(lia)) Htab).
      cbv zeta. change (Bytes.to_Z "1" =? 48) with false.
      change (Bytes.to_Z "1" =? 49) with true. cbv iota.
      destruct (run_calm steps
                  (set_threads
                     (threads (recorded id (acked_with (frame (Ack id)) B))
                        ++ [_handle_file_chunks_thread s n_end])
                     (recorded id (acked_with (frame (Ack id)) B))))
        as (B' & Hr & Ht & Hu & Hth & Hsent); [split; assumption|].
      exists B'. split; [exact Hr|]. rewrite Ht, Hu, Hth, Hsent.
      cbn. rewrite app_nil_r. repeat split; try reflexivity. exact Htab.
    + cbn [chunk_packets app map arguments_of unwrapped_of fst] in Hd.
      injection Hd as -> Hd.
      cbn [length] in Hidx, Hmax |- *.
      rewrite (handler_file_payload (Z.of_nat (length done)) id s "0"%byte
                 chunk _ B ltac:(unfold u32; lia) ltac:(unfold u32; lia) Hs
                 (Hfresh id ltac:(lia)) Htab).
      cbv zeta. change (Bytes.to_Z "0" =? 48) with true. cbv iota.
      set (B1 := set__file_stream_id_to_chunks _ _).
      destruct (IH (done ++ [chunk]) chunks (id + 1) B1)
        as (B' & Hr & Ht & Hu & Hth & Hsent).
      * rewrite length_app. cbn [length].
        replace (Z.of_nat (length done + 1)) with (Z.of_nat (length done) + 1)
          by lia.
        replace (id + 1 + Z.of_nat (length chunks))
          with (id + Z.of_nat (S (length chunks))) by lia.
        exact Hd.
      * rewrite length_app. cbn [length]. lia.
      * exact Hend.
      * lia.
      * lia.
      * unfold B1. cbn. rewrite lookup_insert_eq. f_equal.
        rewrite map_seqZ_snoc, Z.add_0_l. reflexivity.
      * intros i Hi. unfold B1. cbn.
        rewrite lookup_insert_ne by lia. apply Hfresh. lia.
      * exists B'. split; [exact Hr|]. rewrite Ht, Hu, Hth, Hsent.
        rewrite <- app_assoc. cbn [app].
        replace (Z.of_nat (S (length chunks)) + 1)
          with (Z.of_nat (length chunks) + 1 + 1) by lia.
        rewrite (seqZ_next id) by lia. cbn [map].
        unfold B1. cbn. rewrite <- app_assoc. repeat split; reflexivity.
  - destruct (IH done chunks id (set_listener_data data B) Hd
                Hidx Hend Hid Hmax Htab Hfresh)
      as (B' & Hr & Ht & Hu & Hth & Hsent).
    exists B'. repeat split; assumption.
Qed.

End FileReceiveFacts.

Lemma sent_send_all (frames : list bytes) (l : link) :
  sent (send_all frames l) = sent l ++ frames.
Proof.
  revert l. induction frames as [|f frames IH]; intros l.
  - cbn. rewrite app_nil_r. reflexivity.
  - rewrite send_all_cons, IH. cbn. rewrite <- app_assoc. reflexivity.
Qed.

Lemma file_packets_chunk_packets (last_id s : Z) (name : bytes)
  (chunks : list bytes) :
  file_packets last_id s name chunks
  = chunk_packets (Z.of_nat (length (@nil bytes))) (last_id + 1) s
      (name :: chunks)
      ++ [ReliableStream
            (le_bytes (Z.of_nat (length chunks) + 1) ++ ["1"%byte])
            (last_id + 1 + Z.of_nat (length (name :: chunks))) s].
Proof.
  unfold file_packets. cbn [chunk_packets length app].
  replace (last_id + 1 + 1) with (last_id + 2) by lia.
  replace (last_id + 1 + Z.of_nat (S (length chunks)))
    with (last_id + Z.of_nat (length chunks) + 2) by lia.
  reflexivity.
Qed.

(** X21. Any file arrives whole. The sender runs [_handle_file_send] for a
    file that exists, with a chunk size above zero, a stream being free
    and the ACKs arriving while it sleeps: its frames go out on the link.
    They arrive at the receiver behind any garbage and cut into pieces of
    any sizes; a Barker starts in what arrives only where a frame starts;
    the receiver has not seen the ids, and its table for the stream is
    empty. Then the listener of the receiver answers every frame with its
    ACK, makes no upcall and starts [_handle_file_chunks] for the stream;
    and this thread calls [on_file] once, with the base name of the path
    and the content of the file, and leaves the table of the stream
    empty. *)
Theorem any_file_arrives_whole (CHUNK_SIZE : Z) (files : str -> option bytes)
  (fuel : nat) (path : str) (content name : bytes) (s : Z)
  (A A1 B : client link) (RECEIVE_SIZE : Z) (pieces : list bytes) (G : bytes)
  (sleep : duration -> client link -> client link) (wait : nat) :
  0 < CHUNK_SIZE ->
  files path = Some content ->
  Protocol.str_to_bytes (Os.basename path) = Done name ->
  Client._lock_file_stream A = Returned s A1 ->
  (length (file_chunks CHUNK_SIZE content) <= fuel)%nat ->
  Z.of_nat (length (file_chunks CHUNK_SIZE content)) + 1 < 2 ^ 32 ->
  Forall well_formed
    (file_packets (_next_message_id A) s name
       (file_chunks CHUNK_SIZE content)) ->
  listener_data B = [] ->
  incoming (_peer B) = pieces ->
  Forall (fun piece => Z.of_nat (length piece) <= RECEIVE_SIZE) pieces ->
  concat pieces
  = G ++ concat (map frame
                   (file_packets (_next_message_id A) s name
                      (file_chunks CHUNK_SIZE content))) ->
  barker_positions
    (G ++ concat (map frame
                    (file_packets (_next_message_id A) s name
                       (file_chunks CHUNK_SIZE content))))
  = frame_starts (length G)
      (map frame
         (file_packets (_next_message_id A) s name
            (file_chunks CHUNK_SIZE content))) ->
  _file_stream_id_to_chunks B !! s = Some ∅ ->
  (forall i, _next_message_id A < i ->
             _messages_ids_that_have_been_received B !! i = None) ->
  exists A' B1 B2,
    Client._handle_file_send CHUNK_SIZE acks_arrive files fuel path A
    = Returned tt A'
    /\ sent (_peer A')
       = sent (_peer A)
           ++ map frame
                (file_packets (_next_message_id A) s name
                   (file_chunks CHUNK_SIZE content))
    /\ rounds RECEIVE_SIZE (length pieces) B = Returned tt B1
    /\ sent (_peer B1)
       = sent (_peer B)
           ++ map (fun i => frame (Ack i))
                (seqZ (_next_message_id A + 1)
                   (Z.of_nat (length (file_chunks CHUNK_SIZE content)) + 2))
    /\ upcalls B1 = upcalls B
    /\ threads B1
       = threads B
           ++ [_handle_file_chunks_thread s
                 (Z.of_nat (length (file_chunks CHUNK_SIZE content)) + 1)]
    /\ Client._handle_file_chunks sleep wait s
         (Z.of_nat (length (file_chunks CHUNK_SIZE content)) + 1) B1
       = Returned tt B2
    /\ upcalls B2 = upcalls B ++ [on_file (Os.basename path) content]
    /\ _file_stream_id_to_chunks B2 !! s = Some ∅.
Proof.
  intros Hn Hfile Hname Hlock Hfuel Hmax Hwf Hdata Hin Hfit Hcat Hpos
         Htab Hfresh.
  set (chunks := file_chunks CHUNK_SIZE content) in *.
  set (last_id := _next_message_id A) in *.
  assert (Hs : s ∈ Client.FILE_TRANSFER_STREAMS).
  { apply lock_file_stream_inv in Hlock as (_ & Hf & _).
    apply first_available_inv in Hf as (before & after & -> & _).
    apply elem_of_app. right. left. }
  assert (Hid : 0 <= last_id + 1 /\ last_id + Z.of_nat (length chunks) + 2
                                   < 2 ^ 32).
  { unfold file_packets in Hwf.
    apply List.Forall_cons_iff in Hwf as [Hwf0 Hwf'].
    apply Forall_app in Hwf' as [_ Hwfl].
    apply List.Forall_cons_iff in Hwfl as [Hwfl _].
    unfold well_formed in Hwf0, Hwfl. cbn [fields] in Hwf0, Hwfl.
    apply List.Forall_inv in Hwf0. apply List.Forall_inv in Hwfl.
    unfold u32 in *. lia. }
  destruct (handle_file_send_frames CHUNK_SIZE files fuel path content name s
              A A1 Hn Hfile Hname Hlock Hfuel Hmax Hwf)
    as (A' & Hsend & Hpeer & _).
  exists A'.
  assert (Hscript : calls_exactly (script [] pieces)
                      (map arguments_of (file_packets last_id s name chunks))).
  { apply (script_garbage_frames G _ _ Hwf); [|exact Hcat].
    intros i E. apply barker_at_positions in E.
    rewrite <- Hpos. exact E. }
  rewrite file_packets_chunk_packets in Hscript.
  destruct (run_file_steps RECEIVE_SIZE s Hs (script [] pieces) []
              (name :: chunks) (last_id + 1)
              (Z.of_nat (length chunks) + 1) B Hscript)
    as (B1 & Hrun & Htab1 & Hup1 & Hth1 & Hsent1).
  { cbn [length]. lia. }
  { unfold u32. lia. }
  { lia. }
  { cbn [length]. lia. }
  { exact Htab. }
  { intros i Hi. apply Hfresh. lia. }
  exists B1.
  assert (Hdec : Utf8.decode name = Done (Os.basename path))
    by (apply decode_encode; exact Hname).
  pose proof (handle_file_chunks_assembles sleep wait B1 s name chunks
                (Os.basename path) Htab1 Hdec) as Hfin.
  eexists. split; [exact Hsend|].
  split; [rewrite Hpeer; apply sent_send_all|].
  split; [rewrite (rounds_script RECEIVE_SIZE pieces B Hin Hfit), Hdata;
          exact Hrun|].
  split.
  { rewrite Hsent1. cbn [length].
    replace (Z.of_nat (S (length chunks)) + 1)
      with (Z.of_nat (length chunks) + 2) by lia.
    reflexivity. }
  split; [exact Hup1|]. split; [exact Hth1|].
  split.
  { replace (Z.of_nat (length chunks) + 1)
      with (Z.of_nat (length (name :: chunks))) by (cbn [length]; lia).
    exact Hfin. }
  split.
  - unfold upcalls in Hup1 |- *. cbn [events Client.set_events].
    rewrite List.filter_app, Hup1. cbn [List.filter is_upcall].
    f_equal. f_equal. f_equal.
    unfold chunks, file_chunks. apply split_chunks_concat; lia.
  - cbn. apply lookup_insert_eq.
Qed.

Lemma any_file_arrives_whole_witness :
  let A := new_client [] in
  let A1 := Client.set__file_stream_id_to_is_available
              (<[7771 := false]> (_file_stream_id_to_is_available A)) A in
  let name := ascii_bytes "hello.txt" in
  let content := ascii_bytes "ABC" in
  let frames := map frame
                  (file_packets (_next_message_id A) 7771 name
                     (file_chunks 2 content)) in
  let arrives := ascii_bytes "zz" ++ concat frames in
  let pieces := [take 60 arrives; take 60 (drop 60 arrives);
                 drop 120 arrives] in
  let B := Client.__init__
             {| sent := []; incoming := pieces; later := [] |} in
  barker_positions arrives = frame_starts 2 frames
  /\ exists A' B1 B2,
       Client._handle_file_send 2 acks_arrive hello_files 8
         (text "hello.txt") A
       = Returned tt A'
       /\ sent (_peer A') = sent (_peer A) ++ frames
       /\ rounds 64 (length pieces) B = Returned tt B1
       /\ sent (_peer B1)
          = sent (_peer B)
              ++ map (fun i => frame (Ack i))
                   (seqZ (_next_message_id A + 1)
                      (Z.of_nat (length (file_chunks 2 content)) + 2))
       /\ upcalls B1 = upcalls B
       /\ threads B1
          = threads B
              ++ [_handle_file_chunks_thread 7771
                    (Z.of_nat (length (file_chunks 2 content)) + 1)]
       /\ Client._handle_file_chunks undisturbed 0 7771
            (Z.of_nat (length (file_chunks 2 content)) + 1) B1
          = Returned tt B2
       /\ upcalls B2
          = upcalls B ++ [on_file (Os.basename (text "hello.txt")) content]
       /\ _file_stream_id_to_chunks B2 !! 7771 = Some ∅.
Proof.
  intros A A1 name content frames arrives pieces B.
  assert (Hpos : barker_positions arrives = frame_starts 2 frames)
    by (vm_compute; reflexivity).
  split; [exact Hpos|].
  apply (any_file_arrives_whole 2 hello_files 8 (text "hello.txt") content
           name 7771 A A1 B 64 pieces (ascii_bytes "zz") undisturbed 0%nat).
  - lia.
  - vm_compute. reflexivity.
  - vm_compute. reflexivity.
  - vm_compute. reflexivity.
  - vm_compute. lia.
  - vm_compute. reflexivity.
  - match goal with
    | |- Forall _ ?l => let l' := eval vm_compute in l in change l with l'
    end.
    repeat (apply List.Forall_cons;
            [unfold well_formed; cbv [fields];
             repeat (apply List.Forall_cons;
                     [unfold u32; vm_compute;
                      split; [intros E; discriminate E|reflexivity]|]);
             apply List.Forall_nil|]).
    apply List.Forall_nil.
  - reflexivity.
  - reflexivity.
  - repeat (apply List.Forall_cons; [vm_compute; congruence|]).
    apply List.Forall_nil.
  - vm_compute. reflexivity.
  - exact Hpos.
  - reflexivity.
  - intros i _. apply lookup_empty.
Defined.
